(** * UDPNode: the UDP messaging endpoint of [UDPNode/UDPNode.cpp]

    A shallow embedding of the endpoint class: the wire framing
    ([serialize], [parseDatagram], [isDatagramValid]), the receive loop
    ([rxLoop]) with its queue, the one-shot transmitter ([tx]), the
    thread life cycle ([startRxLoop], [endRxLoop]), the listening socket
    ([createSocketAndBind]) with the constructor and the destructor,
    [printDatagram], and the transmitter program of
    [examples/UDPtransmitter/main.cpp].

    Byte sequences ([std::string], receive buffers, frames) are [list ascii];
    machine integers are [Z] with every conversion written out; calls that
    leave the abstract machine (a failed assertion, [std::terminate],
    undefined behaviour) are explicit outcomes. *)

From Stdlib Require Import ZArith Ascii String List Bool Lia.
Import ListNotations.
Local Open Scope Z_scope.
Set Warnings "-register-all".

(** ** Characters, C strings and integer conversions *)

(** The value of a byte read as [unsigned char]. *)
Definition uchar (c : ascii) : Z := Z.of_N (N_of_ascii c).

Definition char_of (v : Z) : ascii := ascii_of_N (Z.to_N v).

Definition NUL : ascii := "000"%char.
Definition dquote : ascii := "034"%char.
Definition backslash : ascii := "\"%char.

(** What a reader of a [const char*] sees of a byte sequence: the bytes before
    the first NUL.  This is the string that [strlen], rapidjson's [StrLen],
    [std::string(const char* )] and a parser of a NUL-terminated buffer work
    on. *)
Fixpoint c_str (s : list ascii) : list ascii :=
  match s with
  | [] => []
  | c :: s' => if Ascii.eqb c NUL then [] else c :: c_str s'
  end.

Definition strlen (s : list ascii) : nat := length (c_str s).

Fixpoint bytes_eqb (a b : list ascii) : bool :=
  match a, b with
  | [], [] => true
  | x :: a', y :: b' => Ascii.eqb x y && bytes_eqb a' b'
  | _, _ => false
  end.

(** What the target leaves open and the embedding does not compute.
    [char_is_signed]: whether plain [char] is a signed type (it is on x86 and
    x86-64 Linux, it is not on ARM Linux).  [double_in_range]: whether a JSON
    number lexeme that rapidjson reads as a [double] denotes a finite one
    (rapidjson rejects the others with [kParseErrorNumberTooBig]); floating
    point is not modelled, so the answer is taken from the target. *)
Record target : Type := {
  char_is_signed : bool;
  double_in_range : list ascii -> bool
}.

(** Integral promotion of a [char] to [int]. *)
Definition char_to_int (T : target) (c : ascii) : Z :=
  if char_is_signed T && (128 <=? uchar c) then uchar c - 256 else uchar c.

Definition to_uchar (z : Z) : Z := z mod 2 ^ 8.
Definition to_uint (z : Z) : Z := z mod 2 ^ 32.
Definition to_uint64 (z : Z) : Z := z mod 2 ^ 64.

(** Conversion to the signed 64-bit [time_t]. *)
Definition to_time_t (z : Z) : Z :=
  let u := z mod 2 ^ 64 in if u <? 2 ^ 63 then u else u - 2 ^ 64.

(** ** Outcomes of a call *)

Inductive undefined : Type :=
| EmptyQueueFront      (* front() or pop() of an empty std::queue *)
| NullPointer          (* member access through a null pointer *)
| IndeterminateValue   (* read of a variable that was never written *)
| NullString           (* std::string built from a null char pointer *)
| BufferOverrun.       (* write past the end of an allocation *)

Inductive fault : Type :=
| AssertionFailure               (* RAPIDJSON_ASSERT *)
| Terminate                      (* std::terminate *)
| Undefined (u : undefined).

Inductive outcome (A : Type) : Type :=
| Returns (a : A)
| Faults (f : fault).
Arguments Returns {A} a.
Arguments Faults {A} f.

Definition obind {A B : Type} (o : outcome A) (k : A -> outcome B) : outcome B :=
  match o with
  | Returns a => k a
  | Faults f => Faults f
  end.

Notation "x <-- o ;; k" := (obind o (fun x => k))
  (at level 61, o at next level, right associativity).

(** ** rapidjson

    The JSON library the endpoint frames its datagrams with.  It is included
    from [../rapidjson], outside the endpoint's own sources; what the endpoint
    calls of it is modelled here at the level of the text, under the library's
    default template arguments and flags (UTF-8 in and out, no encoding
    validation, [kParseDefaultFlags], [RAPIDJSON_ASSERT] as [assert]).  The
    [Writer] produces text; [Parse] reads a NUL-terminated buffer into a
    document. *)
Module RapidJSON.

Inductive Number : Type :=
| Integer (z : Z)                 (* read through Int, Uint, Int64 or Uint64 *)
| Double (lexeme : list ascii).   (* fraction, exponent or out of 64-bit range *)

Inductive Value : Type :=
| kNull
| kFalse
| kTrue
| kObject (members : list (list ascii * Value))
| kArray (elements : list Value)
| kString (s : list ascii)
| kNumber (n : Number).

(** *** Writer *)

Record Level : Type := { inArray : bool; valueCount : nat }.

Record Writer : Type := {
  os_ : list ascii;
  level_stack_ : list Level;
  hasRoot_ : bool
}.

Definition new_Writer : Writer :=
  {| os_ := []; level_stack_ := []; hasRoot_ := false |}.

Definition Put (w : Writer) (text : list ascii) : Writer :=
  {| os_ := os_ w ++ text; level_stack_ := level_stack_ w; hasRoot_ := hasRoot_ w |}.

(** [Writer::Prefix]: the separator owed before the next key or value. *)
Definition Prefix (w : Writer) : Writer :=
  match level_stack_ w with
  | [] => {| os_ := os_ w; level_stack_ := []; hasRoot_ := true |}
  | lv :: st =>
      let sep :=
        if (0 <? valueCount lv)%nat then
          if inArray lv then [","%char]
          else if Nat.even (valueCount lv) then [","%char] else [":"%char]
        else [] in
      {| os_ := os_ w ++ sep;
         level_stack_ := {| inArray := inArray lv; valueCount := S (valueCount lv) |} :: st;
         hasRoot_ := hasRoot_ w |}
  end.

Definition digit_char (v : Z) : ascii := char_of (48 + v).

(** [u32toa] and [u64toa]: decimal digits, most significant first, no leading
    zero.  Twenty digits hold every 64-bit value. *)
Fixpoint utoa_rec (fuel : nat) (n : Z) (acc : list ascii) : list ascii :=
  match fuel with
  | O => acc
  | S fuel' =>
      let acc' := digit_char (n mod 10) :: acc in
      if n / 10 =? 0 then acc' else utoa_rec fuel' (n / 10) acc'
  end.

Definition utoa (n : Z) : list ascii := utoa_rec 20 n [].

Definition hexDigits (v : Z) : ascii :=
  if v <? 10 then char_of (48 + v) else char_of (55 + v).

(** The escape table of [Writer::WriteString]: the letter that follows the
    backslash, or [None] for a byte written as it is. *)
Definition escape (c : ascii) : option ascii :=
  let v := uchar c in
  if v <? 32 then
    Some (if v =? 8 then "b"%char else if v =? 9 then "t"%char
          else if v =? 10 then "n"%char else if v =? 12 then "f"%char
          else if v =? 13 then "r"%char else "u"%char)
  else if Ascii.eqb c dquote then Some dquote
  else if Ascii.eqb c backslash then Some backslash
  else None.

Definition WriteEscaped (c : ascii) : list ascii :=
  match escape c with
  | Some e =>
      if Ascii.eqb e "u"
      then [backslash; "u"%char; "0"%char; "0"%char;
            hexDigits (uchar c / 16); hexDigits (uchar c mod 16)]
      else [backslash; e]
  | None => [c]
  end.

Definition WriteString (w : Writer) (str : list ascii) : Writer :=
  Put w (dquote :: flat_map WriteEscaped str ++ [dquote]).

Definition Writer_StartObject (w : Writer) : Writer :=
  let w := Prefix w in
  {| os_ := os_ w ++ ["{"%char];
     level_stack_ := {| inArray := false; valueCount := 0 |} :: level_stack_ w;
     hasRoot_ := hasRoot_ w |}.

Definition Writer_EndObject (w : Writer) : Writer :=
  {| os_ := os_ w ++ ["}"%char];
     level_stack_ := tl (level_stack_ w);
     hasRoot_ := hasRoot_ w |}.

(** [Writer::String(const Ch* )]: the length is [StrLen] of the argument. *)
Definition Writer_String (w : Writer) (str : list ascii) : Writer :=
  WriteString (Prefix w) (c_str str).

Definition Writer_Key (w : Writer) (name : string) : Writer :=
  Writer_String w (list_ascii_of_string name).

Definition Writer_Uint (w : Writer) (u : Z) : Writer := Put (Prefix w) (utoa u).
Definition Writer_Uint64 (w : Writer) (u : Z) : Writer := Put (Prefix w) (utoa u).

Definition Writer_Bool (w : Writer) (b : bool) : Writer :=
  Put (Prefix w) (list_ascii_of_string (if b then "true" else "false")).

(** [StringBuffer::GetString]. *)
Definition GetString (w : Writer) : list ascii := os_ w.

(** *** Reader *)

(** The input stream: [Peek] is the current character, NUL at the end of the
    text; [Take] moves past it. *)
Definition Peek (inp : list ascii) : ascii := hd NUL inp.
Definition Take (inp : list ascii) : list ascii := tl inp.

Definition is_space (c : ascii) : bool :=
  match c with
  | " "%char | "009"%char | "010"%char | "013"%char => true
  | _ => false
  end.

Fixpoint SkipWhitespace (inp : list ascii) : list ascii :=
  match inp with
  | c :: inp' => if is_space c then SkipWhitespace inp' else inp
  | [] => []
  end.

Definition is_digit (c : ascii) : bool := (48 <=? uchar c) && (uchar c <=? 57).
Definition digit_val (c : ascii) : Z := uchar c - 48.

Definition hex_val (c : ascii) : option Z :=
  let v := uchar c in
  if (48 <=? v) && (v <=? 57) then Some (v - 48)
  else if (65 <=? v) && (v <=? 70) then Some (v - 55)
  else if (97 <=? v) && (v <=? 102) then Some (v - 87)
  else None.

Definition ParseHex4 (h1 h2 h3 h4 : ascii) : option Z :=
  match hex_val h1, hex_val h2, hex_val h3, hex_val h4 with
  | Some a, Some b, Some c, Some d => Some (((a * 16 + b) * 16 + c) * 16 + d)
  | _, _, _, _ => None
  end.

(** [UTF8<>::Encode]. *)
Definition Encode (codepoint : Z) : list ascii :=
  if codepoint <=? 127 then [char_of codepoint]
  else if codepoint <=? 2047 then
    [char_of (192 + codepoint / 64); char_of (128 + codepoint mod 64)]
  else if codepoint <=? 65535 then
    [char_of (224 + codepoint / 4096); char_of (128 + (codepoint / 64) mod 64);
     char_of (128 + codepoint mod 64)]
  else
    [char_of (240 + codepoint / 262144); char_of (128 + (codepoint / 4096) mod 64);
     char_of (128 + (codepoint / 64) mod 64); char_of (128 + codepoint mod 64)].

(** The one-letter escapes the reader accepts after a backslash. *)
Definition unescape (e : ascii) : option ascii :=
  match e with
  | "034"%char => Some dquote
  | "/"%char => Some "/"%char
  | "\"%char => Some backslash
  | "b"%char => Some "008"%char
  | "f"%char => Some "012"%char
  | "n"%char => Some "010"%char
  | "r"%char => Some "013"%char
  | "t"%char => Some "009"%char
  | _ => None
  end.

Definition prepend (bytes : list ascii) (r : option (list ascii * list ascii))
  : option (list ascii * list ascii) :=
  match r with
  | Some (s, rest) => Some (bytes ++ s, rest)
  | None => None
  end.

(** [ParseStringToStream], entered after the opening quote: the decoded bytes
    and the input after the closing quote, [None] on a parse error (a missing
    closing quote, a control character, a bad escape, a surrogate without its
    pair).  Bytes from 0x80 on are copied as they are. *)
Fixpoint ParseStringToStream (inp : list ascii) : option (list ascii * list ascii) :=
  match inp with
  | [] => None
  | c :: rest =>
      if Ascii.eqb c backslash then
        match rest with
        | [] => None
        | e :: rest1 =>
            match unescape e with
            | Some ch => prepend [ch] (ParseStringToStream rest1)
            | None =>
                if Ascii.eqb e "u" then
                  match rest1 with
                  | h1 :: h2 :: h3 :: h4 :: rest2 =>
                      match ParseHex4 h1 h2 h3 h4 with
                      | None => None
                      | Some cp =>
                          if (55296 <=? cp) && (cp <=? 57343) then
                            if cp <=? 56319 then
                              match rest2 with
                              | b :: u :: k1 :: k2 :: k3 :: k4 :: rest3 =>
                                  if Ascii.eqb b backslash && Ascii.eqb u "u" then
                                    match ParseHex4 k1 k2 k3 k4 with
                                    | None => None
                                    | Some cp2 =>
                                        if (56320 <=? cp2) && (cp2 <=? 57343) then
                                          prepend
                                            (Encode ((cp - 55296) * 1024 + (cp2 - 56320) + 65536))
                                            (ParseStringToStream rest3)
                                        else None
                                    end
                                  else None
                              | _ => None
                              end
                            else None
                          else prepend (Encode cp) (ParseStringToStream rest2)
                      end
                  | _ => None
                  end
                else None
            end
        end
      else if Ascii.eqb c dquote then Some ([], rest)
      else if uchar c <? 32 then None
      else prepend [c] (ParseStringToStream rest)
  end.

(** The longest prefix of digits, and what follows it. *)
Fixpoint span_digits (inp : list ascii) : list ascii * list ascii :=
  match inp with
  | c :: inp' =>
      if is_digit c then let (ds, rest) := span_digits inp' in (c :: ds, rest)
      else ([], inp)
  | [] => ([], [])
  end.

Definition digits_value (ds : list ascii) : Z :=
  fold_left (fun v d => 10 * v + digit_val d) ds 0.

(** The pieces of a number lexeme: an optional minus, the integer part (a lone
    zero, or a non-zero digit and the digits after it), an optional fraction
    and an optional exponent.  Each gives the characters it took and the input
    left, [None] on a parse error. *)
Definition ParseSign (inp : list ascii) : bool * list ascii :=
  match inp with
  | c :: r => if Ascii.eqb c "-" then (true, r) else (false, inp)
  | [] => (false, inp)
  end.

Definition ParseInt (inp : list ascii) : option (list ascii * list ascii) :=
  match inp with
  | [] => None
  | d :: r =>
      if is_digit d then
        if Ascii.eqb d "0" then Some ([d], r)
        else let (ds, rest) := span_digits r in Some (d :: ds, rest)
      else None
  end.

Definition ParseFrac (inp : list ascii) : option (list ascii * list ascii) :=
  match inp with
  | c :: r =>
      if Ascii.eqb c "." then
        let (fs, rest) := span_digits r in
        match fs with
        | [] => None
        | _ :: _ => Some (c :: fs, rest)
        end
      else Some ([], inp)
  | [] => Some ([], inp)
  end.

Definition ParseExp (inp : list ascii) : option (list ascii * list ascii) :=
  match inp with
  | e :: r =>
      if Ascii.eqb e "e" || Ascii.eqb e "E" then
        let (sign, r1) :=
          match r with
          | s :: r1 => if Ascii.eqb s "+" || Ascii.eqb s "-" then ([s], r1) else ([], r)
          | [] => ([], r)
          end in
        let (es, rest) := span_digits r1 in
        match es with
        | [] => None
        | _ :: _ => Some (e :: sign ++ es, rest)
        end
      else Some ([], inp)
  | [] => Some ([], inp)
  end.

Section Reader.

Variable T : target.

(** [ParseNumber]: an integer lexeme within the 64-bit ranges is read exactly;
    every other number is a [double]. *)
Definition ParseNumber (inp : list ascii) : option (Value * list ascii) :=
  let (minus, inp1) := ParseSign inp in
  match ParseInt inp1 with
  | None => None
  | Some (int_part, inp2) =>
      match ParseFrac inp2 with
      | None => None
      | Some (frac_part, inp3) =>
          match ParseExp inp3 with
          | None => None
          | Some (exp_part, rest) =>
              let v := digits_value int_part in
              let exact :=
                match frac_part, exp_part with
                | [], [] => if minus then v <=? 2 ^ 63 else v <? 2 ^ 64
                | _, _ => false
                end in
              if exact then Some (kNumber (Integer (if minus then - v else v)), rest)
              else
                let lexeme :=
                  (if minus then ["-"%char] else []) ++ int_part ++ frac_part ++ exp_part in
                if double_in_range T lexeme then Some (kNumber (Double lexeme), rest)
                else None
          end
      end
  end.

Definition Consume (word : string) (v : Value) (inp : list ascii)
  : option (Value * list ascii) :=
  let w := list_ascii_of_string word in
  if bytes_eqb (firstn (length w) inp) w
  then Some (v, skipn (length w) inp) else None.

(** [ParseValue] with [ParseObject] and [ParseArray].  [fuel] bounds the
    nesting and the number of members and elements; [Parse] supplies more than
    twice the length of the input, which is never used up. *)
Fixpoint ParseValue (fuel : nat) (inp : list ascii) {struct fuel}
  : option (Value * list ascii) :=
  match fuel with
  | O => None
  | S fuel' =>
      let c := Peek inp in
      if Ascii.eqb c "n" then Consume "ull" kNull (Take inp)
      else if Ascii.eqb c "t" then Consume "rue" kTrue (Take inp)
      else if Ascii.eqb c "f" then Consume "alse" kFalse (Take inp)
      else if Ascii.eqb c dquote then
        match ParseStringToStream (Take inp) with
        | Some (s, rest) => Some (kString s, rest)
        | None => None
        end
      else if Ascii.eqb c "{" then
        let inp1 := SkipWhitespace (Take inp) in
        if Ascii.eqb (Peek inp1) "}" then Some (kObject [], Take inp1)
        else
          match ParseMembers fuel' inp1 with
          | Some (ms, rest) => Some (kObject ms, rest)
          | None => None
          end
      else if Ascii.eqb c "[" then
        let inp1 := SkipWhitespace (Take inp) in
        if Ascii.eqb (Peek inp1) "]" then Some (kArray [], Take inp1)
        else
          match ParseElements fuel' inp1 with
          | Some (es, rest) => Some (kArray es, rest)
          | None => None
          end
      else ParseNumber inp
  end

with ParseMembers (fuel : nat) (inp : list ascii) {struct fuel}
  : option (list (list ascii * Value) * list ascii) :=
  match fuel with
  | O => None
  | S fuel' =>
      if Ascii.eqb (Peek inp) dquote then
        match ParseStringToStream (Take inp) with
        | None => None
        | Some (name, inp2) =>
            let inp2 := SkipWhitespace inp2 in
            if Ascii.eqb (Peek inp2) ":" then
              match ParseValue fuel' (SkipWhitespace (Take inp2)) with
              | None => None
              | Some (v, inp3) =>
                  let inp3 := SkipWhitespace inp3 in
                  if Ascii.eqb (Peek inp3) "," then
                    match ParseMembers fuel' (SkipWhitespace (Take inp3)) with
                    | Some (ms, rest) => Some ((name, v) :: ms, rest)
                    | None => None
                    end
                  else if Ascii.eqb (Peek inp3) "}" then Some ([(name, v)], Take inp3)
                  else None
              end
            else None
        end
      else None
  end

with ParseElements (fuel : nat) (inp : list ascii) {struct fuel}
  : option (list Value * list ascii) :=
  match fuel with
  | O => None
  | S fuel' =>
      match ParseValue fuel' inp with
      | None => None
      | Some (v, inp1) =>
          let inp1 := SkipWhitespace inp1 in
          if Ascii.eqb (Peek inp1) "," then
            match ParseElements fuel' (SkipWhitespace (Take inp1)) with
            | Some (es, rest) => Some (v :: es, rest)
            | None => None
            end
          else if Ascii.eqb (Peek inp1) "]" then Some ([v], Take inp1)
          else None
      end
  end.

(** [Document::Parse(const char* )].  The document is the root value when the
    text is one JSON value between optional whitespace; after a parse error it
    stays the null value it was constructed as. *)
Definition Parse (buf : list ascii) : Value :=
  let text := c_str buf in
  match ParseValue (S (2 * length text)) (SkipWhitespace text) with
  | Some (v, rest) =>
      match SkipWhitespace rest with
      | [] => v
      | _ => kNull
      end
  | None => kNull
  end.

End Reader.

(** *** Document access

    Every accessor asserts the type it needs ([RAPIDJSON_ASSERT]). *)

Fixpoint FindMember (members : list (list ascii * Value)) (name : list ascii)
  : option Value :=
  match members with
  | [] => None
  | (k, v) :: ms => if bytes_eqb k name then Some v else FindMember ms name
  end.

Definition HasMember (d : Value) (name : string) : outcome bool :=
  match d with
  | kObject ms =>
      Returns (match FindMember ms (list_ascii_of_string name) with
               | Some _ => true
               | None => false
               end)
  | _ => Faults AssertionFailure
  end.

(** [operator[]]: the first member of that name. *)
Definition member (d : Value) (name : string) : outcome Value :=
  match d with
  | kObject ms =>
      match FindMember ms (list_ascii_of_string name) with
      | Some v => Returns v
      | None => Faults AssertionFailure
      end
  | _ => Faults AssertionFailure
  end.

Definition GetUint64 (v : Value) : outcome Z :=
  match v with
  | kNumber (Integer z) =>
      if (0 <=? z) && (z <? 2 ^ 64) then Returns z else Faults AssertionFailure
  | _ => Faults AssertionFailure
  end.

Definition GetUint (v : Value) : outcome Z :=
  match v with
  | kNumber (Integer z) =>
      if (0 <=? z) && (z <? 2 ^ 32) then Returns z else Faults AssertionFailure
  | _ => Faults AssertionFailure
  end.

(** [GetString] returns a [const char*]. *)
Definition GetString_ (v : Value) : outcome (list ascii) :=
  match v with
  | kString s => Returns s
  | _ => Faults AssertionFailure
  end.

Definition GetBool (v : Value) : outcome bool :=
  match v with
  | kTrue => Returns true
  | kFalse => Returns false
  | _ => Faults AssertionFailure
  end.

End RapidJSON.

Import RapidJSON.

(** ** The endpoint's data model ([UDPNode.h]) *)

Inductive err_code : Type :=
| SUCCESS
| SOCKET_CONN_FAILED
| BIND_FAILED
| RECVFROM_FAILED
| SENDTO_FAILED
| GETADDRINFO_FAILED
| PARSE_TIME_FAILED
| PARSE_MSG_FAILED
| PARSE_CRC_FAILED.

Definition err_code_value (e : err_code) : Z :=
  match e with
  | SUCCESS => 0
  | SOCKET_CONN_FAILED => -1
  | BIND_FAILED => -2
  | RECVFROM_FAILED => -3
  | SENDTO_FAILED => -4
  | GETADDRINFO_FAILED => -5
  | PARSE_TIME_FAILED => -6
  | PARSE_MSG_FAILED => -7
  | PARSE_CRC_FAILED => -8
  end.

Definition is_SUCCESS (e : err_code) : bool := err_code_value e =? 0.

Inductive ipFamily : Type := ipv4 | ipv6.

Record rxDatagram : Type := {
  srcport : Z;
  srcipaddr : list ascii;
  time_stamp : Z;
  msg : list ascii;
  crc_checksum : Z;
  jointhread : bool
}.

(** A peer address as the socket layer reports it: the port as stored in the
    address structure and the text [inet_ntop] renders the address as. *)
Record sockaddr_storage : Type := {
  ss_family : ipFamily;
  sin_port : Z;
  presentation : list ascii
}.

Record addrinfo : Type := {
  ai_family : ipFamily;
  ai_addr : sockaddr_storage
}.

(** A [std::thread] object: whether it owns a thread of execution. *)
Inductive thread : Type := not_joinable | joinable.

Definition is_joinable (t : thread) : bool :=
  match t with
  | joinable => true
  | not_joinable => false
  end.

(** The members of [UDPNode] that the modelled methods read or write.  The
    mutex is left out (each method runs as one step) and so is the tracing to
    [std::cout] that [_debug] enables. *)
Record UDPNode : Type := {
  _maxqueuesize : Z;
  _maxmessagesize : Z;
  _rxqueue : list rxDatagram;
  _stoprecvthread : bool;
  _rxthread : thread;
  _listenipver : ipFamily;
  _listenport : Z;
  _listensockfd : Z;
  _sendsockfd : Z;
  _debug : bool
}.

Definition set_rxqueue (q : list rxDatagram) (n : UDPNode) : UDPNode :=
  {| _maxqueuesize := _maxqueuesize n; _maxmessagesize := _maxmessagesize n;
     _rxqueue := q; _stoprecvthread := _stoprecvthread n; _rxthread := _rxthread n;
     _listenipver := _listenipver n; _listenport := _listenport n;
     _listensockfd := _listensockfd n; _sendsockfd := _sendsockfd n;
     _debug := _debug n |}.

Definition set_stoprecvthread (b : bool) (n : UDPNode) : UDPNode :=
  {| _maxqueuesize := _maxqueuesize n; _maxmessagesize := _maxmessagesize n;
     _rxqueue := _rxqueue n; _stoprecvthread := b; _rxthread := _rxthread n;
     _listenipver := _listenipver n; _listenport := _listenport n;
     _listensockfd := _listensockfd n; _sendsockfd := _sendsockfd n;
     _debug := _debug n |}.

Definition set_rxthread (t : thread) (n : UDPNode) : UDPNode :=
  {| _maxqueuesize := _maxqueuesize n; _maxmessagesize := _maxmessagesize n;
     _rxqueue := _rxqueue n; _stoprecvthread := _stoprecvthread n; _rxthread := t;
     _listenipver := _listenipver n; _listenport := _listenport n;
     _listensockfd := _listensockfd n; _sendsockfd := _sendsockfd n;
     _debug := _debug n |}.

Definition set_listensockfd (fd : Z) (n : UDPNode) : UDPNode :=
  {| _maxqueuesize := _maxqueuesize n; _maxmessagesize := _maxmessagesize n;
     _rxqueue := _rxqueue n; _stoprecvthread := _stoprecvthread n; _rxthread := _rxthread n;
     _listenipver := _listenipver n; _listenport := _listenport n;
     _listensockfd := fd; _sendsockfd := _sendsockfd n;
     _debug := _debug n |}.

Definition set_sendsockfd (fd : Z) (n : UDPNode) : UDPNode :=
  {| _maxqueuesize := _maxqueuesize n; _maxmessagesize := _maxmessagesize n;
     _rxqueue := _rxqueue n; _stoprecvthread := _stoprecvthread n; _rxthread := _rxthread n;
     _listenipver := _listenipver n; _listenport := _listenport n;
     _listensockfd := _listensockfd n; _sendsockfd := fd;
     _debug := _debug n |}.

(** ** What a method does to the world *)

(** The actions a method performs outside the object, in program order. *)
Inductive effect : Type :=
| cerr (line : string)                                   (* a line on std::cerr *)
| sys_socket (p : addrinfo) (fd : Z)                     (* socket() returned fd *)
| sys_sendto (fd : Z) (payload : list ascii) (dest : sockaddr_storage)
| sys_freeaddrinfo
| sys_close (fd : Z)
| thread_spawn                                           (* a new thread runs rxLoop *)
| thread_join.                                           (* join() returned *)

(** A method of the endpoint: from the object's state to an outcome, the
    object's state when the method returns or faults, and the effects it had
    up to there. *)
Definition M (A : Type) : Type := UDPNode -> outcome A * UDPNode * list effect.

Definition ret {A : Type} (a : A) : M A := fun n => (Returns a, n, []).

Definition bind {A B : Type} (m : M A) (k : A -> M B) : M B :=
  fun n =>
    match m n with
    | (Returns a, n1, t1) =>
        match k a n1 with
        | (r, n2, t2) => (r, n2, t1 ++ t2)
        end
    | (Faults f, n1, t1) => (Faults f, n1, t1)
    end.

Definition get : M UDPNode := fun n => (Returns n, n, []).
Definition modify (f : UDPNode -> UDPNode) : M unit := fun n => (Returns tt, f n, []).
Definition emit (e : effect) : M unit := fun n => (Returns tt, n, [e]).
Definition raise {A : Type} (f : fault) : M A := fun n => (Faults f, n, []).

Definition lift {A : Type} (o : outcome A) : M A :=
  match o with
  | Returns a => ret a
  | Faults f => raise f
  end.

Definition when (b : bool) (m : M unit) : M unit := if b then m else ret tt.

Notation "x <- m ;; k" := (bind m (fun x => k))
  (at level 61, m at next level, right associativity).
Notation "m ;; k" := (bind m (fun _ => k))
  (at level 61, right associativity).

(** The results of the system calls a method makes. *)
Inductive gai_result : Type :=
| gai_error (rv : Z)                 (* non-zero return; the result pointer is not written *)
| gai_ok (res : list addrinfo).

Record syscalls : Type := {
  time_ : Z;
  getaddrinfo : list ascii -> Z -> ipFamily -> gai_result;
  gai_strerror : Z -> string;
  socket : addrinfo -> Z;
  sendto : Z -> list ascii -> sockaddr_storage -> Z
}.

(** What the blocking [recvfrom] of one loop iteration comes back with. *)
Inductive recv_event : Type :=
| recv_failed
| recv_datagram (their_addr : sockaddr_storage) (payload : list ascii).

(** ** The wire codec *)

(** The specification's checksum: the XOR of the bytes, each an unsigned
    8-bit value. *)
Definition xorFold (bytes : list ascii) : Z :=
  fold_left (fun acc c => Z.lxor acc (uchar c)) bytes 0.

Definition errorMsg (error_code : err_code) : string :=
  match error_code with
  | SUCCESS => "Success!"
  | SOCKET_CONN_FAILED => "Socket creation failed"
  | BIND_FAILED => "Bind failed"
  | RECVFROM_FAILED => "Recvfrom function failed"
  | SENDTO_FAILED => "Sendto function failed"
  | GETADDRINFO_FAILED => "Getaddrinfo function failed"
  | PARSE_TIME_FAILED => "Parsing time from buffer (to JSON) failed"
  | PARSE_MSG_FAILED => "Parsing message from buffer (to JSON) failed"
  | PARSE_CRC_FAILED => "Parsing CRC from buffer (to JSON) failed"
  end.

(** The checksum loop of [serialize]: an [unsigned char] accumulator over the
    first [strlen(msg.c_str())] characters, each a plain [char] promoted to
    [int] for the XOR. *)
Definition serialize_crc (T : target) (msg : list ascii) : Z :=
  fold_left (fun crc_checksum c => to_uchar (Z.lxor crc_checksum (char_to_int T c)))
            (firstn (strlen msg) msg) 0.

(** [serialize]; [now] is what [time(0)] returns. *)
Definition serialize (T : target) (now : Z) (msg : list ascii) (jointhread : bool)
  : Writer :=
  let writer := new_Writer in
  let writer := Writer_StartObject writer in
  let writer := Writer_Key writer "Time" in
  let writer := Writer_Uint64 writer (to_uint64 now) in
  let writer := Writer_Key writer "Msg" in
  let writer := Writer_String writer msg in
  let crc_checksum := serialize_crc T msg in
  let writer := Writer_Key writer "CRC" in
  let writer := Writer_Uint writer crc_checksum in
  let writer :=
    if jointhread then Writer_Bool (Writer_Key writer "Join_thr") true else writer in
  Writer_EndObject writer.

Definition getInPort (sa : sockaddr_storage) : Z := sin_port sa.

(** [inet_ntop] into a buffer of [size] bytes: a null pointer when the text and
    its terminator do not fit. *)
Definition inet_ntop (sa : sockaddr_storage) (size : Z) : option (list ascii) :=
  if Z.of_nat (length (presentation sa)) + 1 <=? size
  then Some (presentation sa) else None.

(** [parseDatagram]; the datagram is passed by reference, so the result holds
    the fields as the call leaves them. *)
Definition parseDatagram (T : target) (their_addr : sockaddr_storage)
    (buf : list ascii) (numbytes : Z) (datagram : rxDatagram)
  : outcome (err_code * rxDatagram) :=
  let error_code := SUCCESS in
  let d := Parse T buf in
  let srcport' := getInPort their_addr in
  srcipaddr' <--
    match inet_ntop their_addr 32 with
    | Some s => Returns s
    | None => Faults (Undefined NullString)
    end ;;
  hasTime <-- HasMember d "Time" ;;
  r1 <--
    (if hasTime : bool
     then v <-- member d "Time" ;; t <-- GetUint64 v ;; Returns (error_code, to_time_t t)
     else Returns (PARSE_TIME_FAILED, time_stamp datagram)) ;;
  let '(error_code, time_stamp') := r1 in
  hasMsg <-- HasMember d "Msg" ;;
  r2 <--
    (if hasMsg : bool
     then v <-- member d "Msg" ;; s <-- GetString_ v ;; Returns (error_code, c_str s)
     else Returns (PARSE_MSG_FAILED, msg datagram)) ;;
  let '(error_code, msg') := r2 in
  hasCRC <-- HasMember d "CRC" ;;
  r3 <--
    (if hasCRC : bool
     then v <-- member d "CRC" ;; u <-- GetUint v ;; Returns (error_code, to_uint u)
     else Returns (PARSE_CRC_FAILED, crc_checksum datagram)) ;;
  let '(error_code, crc_checksum') := r3 in
  hasJoin <-- HasMember d "Join_thr" ;;
  jointhread' <--
    (if hasJoin : bool
     then v <-- member d "Join_thr" ;; GetBool v
     else Returns false) ;;
  Returns (error_code,
           {| srcport := srcport'; srcipaddr := srcipaddr'; time_stamp := time_stamp';
              msg := msg'; crc_checksum := crc_checksum'; jointhread := jointhread' |}).

(** [isDatagramValid]: the accumulator is an [unsigned int], each [msg[i]] is a
    plain [char] promoted to [int] and converted to [unsigned int]. *)
Definition isDatagramValid (T : target) (datagram : rxDatagram) : bool :=
  let crc_check_act :=
    fold_left (fun crc c => Z.lxor crc (to_uint (char_to_int T c))) (msg datagram) 0 in
  crc_check_act =? crc_checksum datagram.

(** ** The receive queue *)

Definition to_int (z : Z) : Z :=
  let u := z mod 2 ^ 32 in if u <? 2 ^ 31 then u else u - 2 ^ 32.

Definition writeRxDatagramToQueue (datagram : rxDatagram) : M unit :=
  n <- get ;;
  modify (set_rxqueue (_rxqueue n ++ [datagram])).

Definition rxDataAvailable : M bool :=
  n <- get ;;
  ret (match _rxqueue n with [] => false | _ :: _ => true end).

(** [rxDataQueueSize]: the size converted to the [int] it returns. *)
Definition rxDataQueueSize : M Z :=
  n <- get ;;
  ret (to_int (Z.of_nat (length (_rxqueue n)))).

(** [readRxDatagramFromQueue]: [front()] then [pop()], neither of which is
    defined on an empty [std::queue]. *)
Definition readRxDatagramFromQueue : M rxDatagram :=
  n <- get ;;
  match _rxqueue n with
  | [] => raise (Undefined EmptyQueueFront)
  | retval :: rest => modify (set_rxqueue rest) ;; ret retval
  end.

(** ** The receive loop *)

(** [recvfrom(_listensockfd, buf, _maxmessagesize-1, ...)] into the buffer of
    [_maxmessagesize] bytes: [None] for the return value -1 (always so on the
    closed descriptor -1), otherwise the sender and the bytes stored, the
    datagram cut to the length asked for. *)
Definition recvfrom (n : UDPNode) (r : recv_event)
  : outcome (option (sockaddr_storage * list ascii)) :=
  if _listensockfd n =? -1 then Returns None
  else
    match r with
    | recv_failed => Returns None
    | recv_datagram their_addr payload =>
        let len := to_uint (_maxmessagesize n - 1) in
        let stored := firstn (Z.to_nat len) payload in
        if Z.of_nat (length stored) <=? _maxmessagesize n
        then Returns (Some (their_addr, stored))
        else Faults (Undefined BufferOverrun)
    end.

(** A default-initialised [rxDatagram]: empty strings; the scalar members are
    indeterminate and stand here as zero.  [parseDatagram] writes every member
    before the loop reads it. *)
Definition fresh_datagram : rxDatagram :=
  {| srcport := 0; srcipaddr := []; time_stamp := 0; msg := [];
     crc_checksum := 0; jointhread := false |}.

(** One pass through the body of the [while] loop of [rxLoop], from the return
    of [recvfrom]: whether the pass leaves the loop through [break], and the
    value of the local [error_code]. *)
Definition rxLoop_body (T : target) (r : recv_event) (error_code : err_code)
  : M (bool * err_code) :=
  n <- get ;;
  received <- lift (recvfrom n r) ;;
  match received with
  | None => ret (true, RECVFROM_FAILED)
  | Some (their_addr, buf) =>
      let numbytes := Z.of_nat (length buf) in
      if 0 <? numbytes then
        parsed <- lift (parseDatagram T their_addr buf numbytes fresh_datagram) ;;
        let '(error_code, datagram) := parsed in
        if negb (is_SUCCESS error_code) then
          emit (cerr (errorMsg error_code)) ;;
          ret (true, error_code)
        else
          when (negb (isDatagramValid T datagram))
               (emit (cerr "rxloop: CRC Checksum invalid. Discarding... ")) ;;
          size <- rxDataQueueSize ;;
          n <- get ;;
          when (_maxqueuesize n <=? to_uint size)
               (emit (cerr "rxloop: Datagram Receive queue is full. Discarding incoming datagrams...")) ;;
          n <- get ;;
          when (negb (jointhread datagram)
                && (Z.of_nat (length (_rxqueue n)) <? _maxqueuesize n)
                && isDatagramValid T datagram)
               (writeRxDatagramToQueue datagram) ;;
          ret (false, error_code)
      else ret (false, error_code)
  end.

(** What the receive thread meets, in order. *)
Inductive rx_input : Type :=
| arrives (r : recv_event)     (* the pending recvfrom returns *)
| stop_requested.              (* another thread stores true into _stoprecvthread
                                  while recvfrom is pending *)

Inductive loop_end : Type :=
| exited (error_code : err_code)   (* rxLoop returned *)
| blocked.                         (* still inside recvfrom when the inputs end *)

(** The code after the [while] loop. *)
Definition rxLoop_epilogue (error_code : err_code) : M loop_end :=
  when (negb (is_SUCCESS error_code)) (emit (cerr (errorMsg error_code))) ;;
  ret (exited error_code).

(** The [while] loop over the inputs; [pending] says that the loop condition
    has been passed and [recvfrom] is waiting. *)
Fixpoint rxLoop_from (T : target) (inputs : list rx_input) (pending : bool)
    (error_code : err_code) {struct inputs} : M loop_end :=
  n <- get ;;
  if negb pending && _stoprecvthread n then rxLoop_epilogue error_code
  else
    match inputs with
    | [] => ret blocked
    | stop_requested :: rest =>
        modify (set_stoprecvthread true) ;;
        rxLoop_from T rest true error_code
    | arrives r :: rest =>
        pass <- rxLoop_body T r error_code ;;
        let '(break, error_code) := pass in
        if break : bool then rxLoop_epilogue error_code
        else rxLoop_from T rest false error_code
    end.

Definition rxLoop (T : target) (inputs : list rx_input) : M loop_end :=
  rxLoop_from T inputs false SUCCESS.

(** ** The transmitter *)

(** The loop of [tx] over the candidates: each [socket()] result is stored in
    [_sendsockfd]; the result is [tx_p], [None] for the null pointer. *)
Fixpoint tx_socket_loop (os : syscalls) (candidates : list addrinfo)
  : M (option addrinfo) :=
  match candidates with
  | [] => ret None
  | tx_p :: rest =>
      let fd := socket os tx_p in
      emit (sys_socket tx_p fd) ;;
      modify (set_sendsockfd fd) ;;
      if fd =? -1 then tx_socket_loop os rest else ret (Some tx_p)
  end.

(** [tx].  [getaddrinfo] is given the host as a C string, the port (in the
    code its decimal text) and the family the hints ask for. *)
Definition tx (T : target) (os : syscalls) (destport : Z) (ver : ipFamily)
    (host : list ascii) (msg : list ascii) (jointhread : bool) : M err_code :=
  let error_code := SUCCESS in
  r0 <-
    match getaddrinfo os (c_str host) destport ver with
    | gai_error rv =>
        emit (cerr ("tx: getaddrinfo: " ++ gai_strerror os rv)) ;;
        ret (GETADDRINFO_FAILED, None)
    | gai_ok res => ret (error_code, Some res)
    end ;;
  let '(error_code, txservinfo) := r0 in
  tx_p <-
    match txservinfo with
    | None => raise (Undefined IndeterminateValue)
    | Some res => tx_socket_loop os res
    end ;;
  error_code <-
    match tx_p with
    | None => emit (cerr "tx: failed to create socket") ;; ret SOCKET_CONN_FAILED
    | Some _ => ret error_code
    end ;;
  let s := serialize T (time_ os) msg jointhread in
  match tx_p with
  | None => raise (Undefined NullPointer)
  | Some p =>
      n <- get ;;
      let payload := c_str (GetString s) in
      let numbytes := sendto os (_sendsockfd n) payload (ai_addr p) in
      emit (sys_sendto (_sendsockfd n) payload (ai_addr p)) ;;
      let error_code := if numbytes =? -1 then SENDTO_FAILED else error_code in
      emit sys_freeaddrinfo ;;
      n <- get ;;
      when (negb (_sendsockfd n =? -1))
           (emit (sys_close (_sendsockfd n)) ;; modify (set_sendsockfd (-1))) ;;
      ret error_code
  end.

(** ** The thread life cycle *)

(** [startRxLoop]: the new [std::thread] is constructed, then move-assigned to
    [_rxthread]; assigning to a joinable [std::thread] calls
    [std::terminate]. *)
Definition startRxLoop : M unit :=
  modify (set_stoprecvthread false) ;;
  emit thread_spawn ;;
  n <- get ;;
  match _rxthread n with
  | joinable => raise Terminate
  | not_joinable => modify (set_rxthread joinable)
  end.

(** [endRxLoop], the calling thread alone.  [thread_join] stands for the
    return of [join()], which waits until the receive thread has left
    [rxLoop]: for an endpoint with a receive thread this is the call as it
    ends once [join()] has returned.  Whether it returns, and what the thread
    does to the queue in the meantime, is not decided here;
    [endRxLoop_joining] below puts the two threads together. *)
Definition endRxLoop (T : target) (os : syscalls) : M unit :=
  modify (set_stoprecvthread true) ;;
  n <- get ;;
  tx T os (_listenport n) (_listenipver n)
     (list_ascii_of_string "localhost") (list_ascii_of_string "Goodbye") true ;;
  n <- get ;;
  when (is_joinable (_rxthread n))
       (emit thread_join ;; modify (set_rxthread not_joinable)) ;;
  n <- get ;;
  when (negb (_listensockfd n =? -1))
       (emit (sys_close (_listensockfd n)) ;; modify (set_listensockfd (-1))).

(** ** The listening socket and the life time of the object *)

(** The calls that only [createSocketAndBind] makes: [getaddrinfo] with a null
    host and [AI_PASSIVE] hints, given the port and the family, and [bind],
    given the descriptor and the address. *)
Record listen_calls : Type := {
  getaddrinfo_passive : Z -> ipFamily -> gai_result;
  bind_ : Z -> sockaddr_storage -> Z
}.

(** The loop of [createSocketAndBind] over the candidates, with the local
    [error_code]: each [socket()] result is stored in [_listensockfd]; the
    result is [rx_p], [None] for the null pointer.  Of the calls, [socket] and
    [close] are in the trace; [bind] shows by its result. *)
Fixpoint createSocketAndBind_loop (os : syscalls) (ls : listen_calls)
    (candidates : list addrinfo) (error_code : err_code)
  : M (option addrinfo * err_code) :=
  match candidates with
  | [] => ret (None, error_code)
  | rx_p :: rest =>
      let fd := socket os rx_p in
      emit (sys_socket rx_p fd) ;;
      modify (set_listensockfd fd) ;;
      if fd =? -1 then createSocketAndBind_loop os ls rest SOCKET_CONN_FAILED
      else if bind_ ls fd (ai_addr rx_p) =? -1 then
        emit (sys_close fd) ;;
        modify (set_listensockfd (-1)) ;;
        createSocketAndBind_loop os ls rest BIND_FAILED
      else ret (Some rx_p, error_code)
  end.

(** [createSocketAndBind].  As everywhere, what goes to [std::cout] (here the
    line that announces the port) is not part of the trace. *)
Definition createSocketAndBind (os : syscalls) (ls : listen_calls) : M err_code :=
  let error_code := SUCCESS in
  n <- get ;;
  r0 <-
    match getaddrinfo_passive ls (_listenport n) (_listenipver n) with
    | gai_error rv =>
        emit (cerr ("getaddrinfo: " ++ gai_strerror os rv)) ;;
        ret (GETADDRINFO_FAILED, None)
    | gai_ok res => ret (error_code, Some res)
    end ;;
  let '(error_code, rxservinfo) := r0 in
  r1 <-
    match rxservinfo with
    | None => raise (Undefined IndeterminateValue)
    | Some res => createSocketAndBind_loop os ls res error_code
    end ;;
  let '(rx_p, error_code) := r1 in
  match rx_p with
  | None => ret error_code
  | Some _ => emit sys_freeaddrinfo ;; ret error_code
  end.

(** How a call of the constructor ends: with the object, or in [exit]. *)
Inductive construction : Type :=
| built
| exit_ (status : Z).

(** The constructor, run on the storage of the new object.  The member
    initialisers write the five configuration members; the queue and the
    thread object are default-constructed; [_listensockfd] and [_sendsockfd]
    have no initialiser and keep what the storage held. *)
Definition UDPNode_constructor (os : syscalls) (ls : listen_calls)
    (lport : Z) (ver : ipFamily) (maxmsgsize maxqsize : Z) (debug : bool)
  : M construction :=
  modify (fun storage =>
            {| _maxqueuesize := maxqsize; _maxmessagesize := maxmsgsize;
               _rxqueue := []; _stoprecvthread := _stoprecvthread storage;
               _rxthread := not_joinable;
               _listenipver := ver; _listenport := lport;
               _listensockfd := _listensockfd storage;
               _sendsockfd := _sendsockfd storage;
               _debug := debug |}) ;;
  modify (set_stoprecvthread false) ;;
  rv <- createSocketAndBind os ls ;;
  if negb (is_SUCCESS rv) then
    emit (cerr (errorMsg rv)) ;;
    ret (exit_ 1)
  else ret built.

(** The destructor: its body, then the destruction of the members, of which
    that of a joinable [std::thread] calls [std::terminate]. *)
Definition UDPNode_destructor (T : target) (os : syscalls) : M unit :=
  endRxLoop T os ;;
  n <- get ;;
  when (is_joinable (_rxthread n))
       (emit thread_join ;; modify (set_rxthread not_joinable)) ;;
  n <- get ;;
  when (negb (_listensockfd n =? -1))
       (emit (sys_close (_listensockfd n)) ;; modify (set_listensockfd (-1))) ;;
  n <- get ;;
  when (negb (_sendsockfd n =? -1))
       (emit (sys_close (_sendsockfd n)) ;; modify (set_sendsockfd (-1))) ;;
  n <- get ;;
  match _rxthread n with
  | joinable => raise Terminate
  | not_joinable => ret tt
  end.

(** ** Stopping, with the thread that is joined *)

(** How a call that may wait for the receive thread stands when nothing more
    arrives. *)
Inductive call_end : Type :=
| returned
| waiting.      (* still inside join() *)

(** [endRxLoop] together with the receive thread it joins.  [pending] says
    whether the thread is waiting in [recvfrom] when the flag is stored
    (otherwise it is about to test the flag); [arrivals] is what its
    [recvfrom] returns from then on, in order.  [join()] returns when the
    thread has left [rxLoop]; when the arrivals end with the thread still in
    [recvfrom], the call has not returned.  Whether the sentinel that [tx]
    sends is among the arrivals is for the network to decide.  [tx] and the
    passes of the loop touch different members, and the effects of [tx] are
    listed first. *)
Definition endRxLoop_joining (T : target) (os : syscalls) (pending : bool)
    (arrivals : list recv_event) : M call_end :=
  modify (set_stoprecvthread true) ;;
  n <- get ;;
  tx T os (_listenport n) (_listenipver n)
     (list_ascii_of_string "localhost") (list_ascii_of_string "Goodbye") true ;;
  n <- get ;;
  joined <-
    (if is_joinable (_rxthread n) then
       r <- rxLoop_from T (map arrives arrivals) pending SUCCESS ;;
       match r with
       | exited _ => emit thread_join ;; modify (set_rxthread not_joinable) ;; ret returned
       | blocked => ret waiting
       end
     else ret returned) ;;
  match joined with
  | waiting => ret waiting
  | returned =>
      n <- get ;;
      when (negb (_listensockfd n =? -1))
           (emit (sys_close (_listensockfd n)) ;; modify (set_listensockfd (-1))) ;;
      ret returned
  end.

(** ** Printing a datagram *)

Definition endl : list ascii := ["010"%char].

(** [operator<<] of a signed integer. *)
Definition itoa (z : Z) : list ascii :=
  if z <? 0 then "-"%char :: utoa (- z) else utoa z.

(** [printDatagram]: the text it writes to [std::cout]. *)
Definition printDatagram (T : target) (datagram : rxDatagram) : list ascii :=
  list_ascii_of_string "Source Port: " ++ utoa (srcport datagram) ++ endl ++
  list_ascii_of_string "Source IP Address: " ++ srcipaddr datagram ++ endl ++
  list_ascii_of_string "Time Stamp: " ++ itoa (time_stamp datagram) ++ endl ++
  list_ascii_of_string "Message: " ++ msg datagram ++ endl ++
  list_ascii_of_string "CRC Checksum: " ++ utoa (crc_checksum datagram) ++ endl ++
  list_ascii_of_string "Join Thread: " ++
    list_ascii_of_string (if jointhread datagram then "true" else "false") ++ endl ++
  list_ascii_of_string (if isDatagramValid T datagram
                        then "CRC checksum valid" else "CRC checksum invalid") ++ endl ++
  endl.

(** ** The transmitter program ([examples/UDPtransmitter/main.cpp]) *)

(** [main], run on the storage of [node]; the result is the exit status.  The
    destructor of [node] runs when [main] returns. *)
Definition transmitter_main (T : target) (os : syscalls) (ls : listen_calls) : M Z :=
  c <- UDPNode_constructor os ls 5590 ipv6 1024 5 true ;;
  match c with
  | exit_ status => ret status
  | built =>
      let host := list_ascii_of_string "::1" in
      tx T os 3490 ipv6 host
         (list_ascii_of_string "Attitude is the " ++ dquote ::
          list_ascii_of_string "little thing" ++ dquote ::
          list_ascii_of_string " that makes a big difference") false ;;
      tx T os 3490 ipv6 host
         (list_ascii_of_string
            "Life is too short to spend another day at war with yourself") false ;;
      tx T os 3490 ipv6 host
         (list_ascii_of_string
            "The best time to plant a tree was 20 years ago. The second best time is now")
         false ;;
      tx T os 3490 ipv6 host
         (list_ascii_of_string "Be happy for this moment. This moment is your life")
         false ;;
      tx T os 3490 ipv6 host
         (list_ascii_of_string
            "A good laugh and a long sleep are the two best cures for anythin") false ;;
      tx T os 3490 ipv6 host
         (list_ascii_of_string
            "The sun is a daily reminder that we too can rise again from the darkness, that we too can shine our own light")
         false ;;
      tx T os 3490 ipv6 host (list_ascii_of_string "Today is a good day to try") false ;;
      tx T os 3490 ipv6 host
         (list_ascii_of_string
            "The only person you are destined to become is the person you decide to be")
         false ;;
      UDPNode_destructor T os ;;
      ret 0
  end.

(** ** Views of the methods, for the statements below *)

Definition result_of {A : Type} (x : outcome A * UDPNode * list effect) : outcome A :=
  fst (fst x).
Definition node_after {A : Type} (x : outcome A * UDPNode * list effect) : UDPNode :=
  snd (fst x).
Definition effects_of {A : Type} (x : outcome A * UDPNode * list effect) : list effect :=
  snd x.

(** A key of the frame and what follows it, as the [Writer] lays them out. *)
Definition key (name : string) (tail : list ascii) : list ascii :=
  dquote :: list_ascii_of_string name ++ dquote :: ":"%char :: tail.

(** The document [serialize] describes. *)
Definition frame_members (T : target) (now : Z) (msg : list ascii) (j : bool)
  : list (list ascii * Value) :=
  (list_ascii_of_string "Time", kNumber (Integer (to_uint64 now))) ::
  (list_ascii_of_string "Msg", kString (c_str msg)) ::
  (list_ascii_of_string "CRC", kNumber (Integer (serialize_crc T msg))) ::
  (if j then [(list_ascii_of_string "Join_thr", kTrue)] else []).

(** The datagram that a frame of [serialize] decodes to. *)
Definition decoded (their_addr : sockaddr_storage) (now : Z) (m : list ascii) (j : bool)
  : rxDatagram :=
  {| srcport := sin_port their_addr;
     srcipaddr := presentation their_addr;
     time_stamp := to_time_t (to_uint64 now);
     msg := c_str m;
     crc_checksum := xorFold (c_str m);
     jointhread := j |}.

(** No NUL among the bytes. *)
Definition clean (l : list ascii) : bool :=
  forallb (fun x => negb (Ascii.eqb x NUL)) l.

(** A separator that ends a number inside an object. *)
Definition ends_number (c : ascii) : Prop := c = ","%char \/ c = "}"%char.

(** The condition under which the loop calls [writeRxDatagramToQueue]. *)
Definition enqueue_guard (T : target) (n : UDPNode) (datagram : rxDatagram) : bool :=
  negb (jointhread datagram)
  && (Z.of_nat (length (_rxqueue n)) <? _maxqueuesize n)
  && isDatagramValid T datagram.

(** What a pass of the loop logs about a datagram that parsed. *)
Definition pass_log (T : target) (n : UDPNode) (datagram : rxDatagram) : list effect :=
  (if isDatagramValid T datagram then []
   else [cerr "rxloop: CRC Checksum invalid. Discarding... "]) ++
  (if _maxqueuesize n <=? to_uint (to_int (Z.of_nat (length (_rxqueue n))))
   then [cerr "rxloop: Datagram Receive queue is full. Discarding incoming datagrams..."]
   else []).

(** What touches the queue: a pass of the receive loop, or a consumer's read;
    and a run of the two interleaved. *)
Inductive queue_action : Type :=
| rx_pass (r : recv_event)
| consumer_read.

Definition queue_step (T : target) (a : queue_action) : M unit :=
  match a with
  | rx_pass r => rxLoop_body T r SUCCESS ;; ret tt
  | consumer_read => readRxDatagramFromQueue ;; ret tt
  end.

Fixpoint queue_run (T : target) (l : list queue_action) : M unit :=
  match l with
  | [] => ret tt
  | a :: l' => queue_step T a ;; queue_run T l'
  end.

Definition within_bound (n : UDPNode) : Prop :=
  Z.of_nat (length (_rxqueue n)) <= _maxqueuesize n.

Definition socket_opens (os : syscalls) (p : addrinfo) : bool :=
  negb (socket os p =? -1).

(** The [socket()] calls of [tx] over the candidates, up to the first that
    succeeds. *)
Fixpoint socket_attempts (os : syscalls) (candidates : list addrinfo) : list effect :=
  match candidates with
  | [] => []
  | p :: rest =>
      sys_socket p (socket os p)
      :: (if socket_opens os p then [] else socket_attempts os rest)
  end.

(** The bytes [tx] hands to [sendto]. *)
Definition tx_payload (T : target) (os : syscalls) (msg : list ascii) (jointhread : bool)
  : list ascii :=
  c_str (GetString (serialize T (time_ os) msg jointhread)).

(** The frame [endRxLoop] sends to its own port. *)
Definition sentinel (T : target) (os : syscalls) : list ascii :=
  tx_payload T os (list_ascii_of_string "Goodbye") true.

(** What [endRxLoop] does once [tx] has returned. *)
Definition after_tx (n1 : UDPNode) : UDPNode :=
  let n2 := if is_joinable (_rxthread n1) then set_rxthread not_joinable n1 else n1 in
  if _listensockfd n2 =? -1 then n2 else set_listensockfd (-1) n2.

Definition after_tx_effects (n1 : UDPNode) : list effect :=
  (if is_joinable (_rxthread n1) then [thread_join] else []) ++
  (if _listensockfd n1 =? -1 then [] else [sys_close (_listensockfd n1)]).

(** The reader's result leaves less input than it was given. *)
Definition shrinks {A : Type} (inp : list ascii) (r : option (A * list ascii)) : Prop :=
  match r with
  | Some (_, rest) => (length rest < length inp)%nat
  | None => True
  end.

(** The bytes of a message above 0x7F. *)
Definition high_bytes (l : list ascii) : nat :=
  length (filter (fun c => 128 <=? uchar c) l).

(** The bits that the conversion of a negative [char] to [unsigned int] sets
    above the low eight: 0xFFFFFF00. *)
Definition sign_bits : Z := 2 ^ 32 - 2 ^ 8.

(** Whether a call returned. *)
Definition answers {A : Type} (o : outcome A) : bool :=
  match o with
  | Returns _ => true
  | Faults _ => false
  end.

(** A member that is absent, or of the type its accessor asserts. *)
Definition member_ok {A : Type} (ms : list (list ascii * Value)) (name : string)
    (get : Value -> outcome A) : bool :=
  match FindMember ms (list_ascii_of_string name) with
  | Some v => answers (get v)
  | None => true
  end.

(** What the receive loop lets into the queue. *)
Definition deliverable (T : target) (d : rxDatagram) : bool :=
  isDatagramValid T d && negb (jointhread d).

(** A run of loop passes and reads that keeps what the reads returned.  Every
    sequence of passes is a run, also one that goes on after a pass that ended
    the loop, which the receive thread would not make. *)
Fixpoint queue_reads (T : target) (l : list queue_action) : M (list rxDatagram) :=
  match l with
  | [] => ret []
  | rx_pass r :: l' => rxLoop_body T r SUCCESS ;; queue_reads T l'
  | consumer_read :: l' =>
      d <- readRxDatagramFromQueue ;;
      ds <- queue_reads T l' ;;
      ret (d :: ds)
  end.

Fixpoint reads_in (l : list queue_action) : nat :=
  match l with
  | [] => O
  | rx_pass _ :: l' => reads_in l'
  | consumer_read :: l' => S (reads_in l')
  end.

Fixpoint passes_in (l : list queue_action) : nat :=
  match l with
  | [] => O
  | rx_pass _ :: l' => S (passes_in l')
  | consumer_read :: l' => passes_in l'
  end.

(** A candidate on which both [socket] and [bind] succeed. *)
Definition listens (os : syscalls) (ls : listen_calls) (p : addrinfo) : bool :=
  negb (socket os p =? -1) && negb (bind_ ls (socket os p) (ai_addr p) =? -1).

(** The code [createSocketAndBind] notes for a candidate that does not
    listen. *)
Definition failure_code (os : syscalls) (p : addrinfo) : err_code :=
  if socket os p =? -1 then SOCKET_CONN_FAILED else BIND_FAILED.

(** The local [error_code] of [createSocketAndBind] when its loop ends: that
    of the last candidate tried in vain. *)
Fixpoint code_after (os : syscalls) (ls : listen_calls) (candidates : list addrinfo)
    (error_code : err_code) : err_code :=
  match candidates with
  | [] => error_code
  | p :: rest =>
      if listens os ls p then error_code
      else code_after os ls rest (failure_code os p)
  end.

(** The [socket] and [close] calls of [createSocketAndBind] over the
    candidates, up to the first that listens. *)
Fixpoint bind_attempts (os : syscalls) (ls : listen_calls) (candidates : list addrinfo)
  : list effect :=
  match candidates with
  | [] => []
  | p :: rest =>
      sys_socket p (socket os p) ::
      (if socket os p =? -1 then bind_attempts os ls rest
       else if bind_ ls (socket os p) (ai_addr p) =? -1
            then sys_close (socket os p) :: bind_attempts os ls rest
            else [])
  end.

(** The trace of a call of [tx] that goes through the candidate [p]. *)
Definition tx_trace (T : target) (os : syscalls) (p : addrinfo) (m : list ascii)
    (j : bool) : list effect :=
  [sys_socket p (socket os p);
   sys_sendto (socket os p) (tx_payload T os m j) (ai_addr p);
   sys_freeaddrinfo;
   sys_close (socket os p)].

(** The messages of [examples/UDPtransmitter/main.cpp], in the order sent. *)
Definition transmitter_messages : list (list ascii) :=
  [list_ascii_of_string "Attitude is the " ++ dquote ::
     list_ascii_of_string "little thing" ++ dquote ::
     list_ascii_of_string " that makes a big difference";
   list_ascii_of_string "Life is too short to spend another day at war with yourself";
   list_ascii_of_string
     "The best time to plant a tree was 20 years ago. The second best time is now";
   list_ascii_of_string "Be happy for this moment. This moment is your life";
   list_ascii_of_string "A good laugh and a long sleep are the two best cures for anythin";
   list_ascii_of_string
     "The sun is a daily reminder that we too can rise again from the darkness, that we too can shine our own light";
   list_ascii_of_string "Today is a good day to try";
   list_ascii_of_string
     "The only person you are destined to become is the person you decide to be"].

(** A call that, when it fails, fails on an assertion. *)
Definition asserts {A : Type} (o : outcome A) : Prop :=
  forall f, o = Faults f -> f = AssertionFailure.

(** The endpoint as a returning [endRxLoop] leaves it. *)
Definition stopped (n : UDPNode) : Prop :=
  _stoprecvthread n = true /\ _rxthread n = not_joinable /\
  _listensockfd n = -1 /\ _sendsockfd n = -1.

(** What [createSocketAndBind] has in its trace for a candidate that does not
    listen. *)
Definition vain_attempt (os : syscalls) (p : addrinfo) : list effect :=
  sys_socket p (socket os p)
  :: (if socket os p =? -1 then [] else [sys_close (socket os p)]).

(** ** Proof tools *)

(** Case analysis over the 256 characters. *)
Ltac each_char c := destruct c as [[] [] [] [] [] [] [] []].

(** Case analysis on the first [match] or [if] of a hypothesis. *)
Ltac break_hyp H :=
  match type of H with
  | context [match ?x with _ => _ end] => destruct x eqn:?
  | context [if ?x then _ else _] => destruct x eqn:?
  end.

(** ** Concrete endpoints and environments, for the examples *)

(** Targets with a signed and with an unsigned plain [char]; no example holds
    a [double], so every lexeme is taken to be in range. *)
Definition signed_char_target : target :=
  {| char_is_signed := true; double_in_range := fun _ => true |}.
Definition unsigned_char_target : target :=
  {| char_is_signed := false; double_in_range := fun _ => true |}.

Definition peer : sockaddr_storage :=
  {| ss_family := ipv6; sin_port := 5590; presentation := list_ascii_of_string "::1" |}.

(** A peer whose address takes 38 characters as text. *)
Definition distant_peer : sockaddr_storage :=
  {| ss_family := ipv6; sin_port := 5590;
     presentation := list_ascii_of_string "2001:db8:85a3:8d3:1319:8a2e:3700:7348" |}.

(** The endpoint of [examples/UDPreceiver/main.cpp] after its construction,
    listening on descriptor 3. *)
Definition receiver : UDPNode :=
  {| _maxqueuesize := 5; _maxmessagesize := 1024; _rxqueue := [];
     _stoprecvthread := false; _rxthread := not_joinable;
     _listenipver := ipv6; _listenport := 3490;
     _listensockfd := 3; _sendsockfd := -1; _debug := true |}.

(** A running endpoint with room for two datagrams. *)
Definition small_receiver : UDPNode :=
  {| _maxqueuesize := 2; _maxmessagesize := 1024; _rxqueue := [];
     _stoprecvthread := false; _rxthread := joinable;
     _listenipver := ipv6; _listenport := 3490;
     _listensockfd := 3; _sendsockfd := -1; _debug := false |}.

Definition frame_of (T : target) (m : string) : list ascii :=
  GetString (serialize T 1700000000 (list_ascii_of_string m) false).

(** A frame with a checksum of the sender's choosing. *)
Definition forged_frame (m : string) (crc : Z) : list ascii :=
  let writer := Writer_StartObject new_Writer in
  let writer := Writer_Uint64 (Writer_Key writer "Time") 1700000000 in
  let writer := Writer_String (Writer_Key writer "Msg") (list_ascii_of_string m) in
  let writer := Writer_Uint (Writer_Key writer "CRC") crc in
  GetString (Writer_EndObject writer).

Definition loopback : addrinfo :=
  {| ai_family := ipv6;
     ai_addr := {| ss_family := ipv6; sin_port := 3490;
                   presentation := list_ascii_of_string "::1" |} |}.

(** System calls that all succeed; that cannot resolve; that cannot create a
    socket; whose [sendto] fails. *)
Definition os_ok : syscalls :=
  {| time_ := 1700000000;
     getaddrinfo := fun _ _ _ => gai_ok [loopback];
     gai_strerror := fun _ => "Name or service not known"%string;
     socket := fun _ => 4;
     sendto := fun _ payload _ => Z.of_nat (length payload) |}.

Definition os_unresolved : syscalls :=
  {| time_ := 1700000000;
     getaddrinfo := fun _ _ _ => gai_error (-2);
     gai_strerror := fun _ => "Name or service not known"%string;
     socket := fun _ => 4;
     sendto := fun _ payload _ => Z.of_nat (length payload) |}.

Definition os_no_socket : syscalls :=
  {| time_ := 1700000000;
     getaddrinfo := fun _ _ _ => gai_ok [loopback];
     gai_strerror := fun _ => "Name or service not known"%string;
     socket := fun _ => -1;
     sendto := fun _ payload _ => Z.of_nat (length payload) |}.

Definition os_refused : syscalls :=
  {| time_ := 1700000000;
     getaddrinfo := fun _ _ _ => gai_ok [loopback];
     gai_strerror := fun _ => "Name or service not known"%string;
     socket := fun _ => 4;
     sendto := fun _ _ _ => -1 |}.

(** The wildcard address a passive lookup gives for a port, and the address
    [::1] of a port. *)
Definition wildcard (port : Z) : addrinfo :=
  {| ai_family := ipv6;
     ai_addr := {| ss_family := ipv6; sin_port := port;
                   presentation := list_ascii_of_string "::" |} |}.

Definition local_port (port : Z) : addrinfo :=
  {| ai_family := ipv6;
     ai_addr := {| ss_family := ipv6; sin_port := port;
                   presentation := list_ascii_of_string "::1" |} |}.

(** A system on which every name resolves to [::1], the listening socket gets
    descriptor 3 and every other socket descriptor 4; and one on which the
    first wildcard candidate cannot be bound. *)
Definition os_local : syscalls :=
  {| time_ := 1700000000;
     getaddrinfo := fun _ port _ => gai_ok [local_port port];
     gai_strerror := fun _ => "Name or service not known"%string;
     socket := fun p =>
       if bytes_eqb (presentation (ai_addr p)) (list_ascii_of_string "::") then 3 else 4;
     sendto := fun _ payload _ => Z.of_nat (length payload) |}.

Definition ls_ok : listen_calls :=
  {| getaddrinfo_passive := fun port _ => gai_ok [wildcard port];
     bind_ := fun _ _ => 0 |}.

Definition ls_in_use : listen_calls :=
  {| getaddrinfo_passive := fun port _ => gai_ok [wildcard port; wildcard port];
     bind_ := fun _ _ => -1 |}.

(** The storage of an endpoint before its construction. *)
Definition storage : UDPNode :=
  {| _maxqueuesize := 0; _maxmessagesize := 0; _rxqueue := [];
     _stoprecvthread := true; _rxthread := not_joinable;
     _listenipver := ipv4; _listenport := 0;
     _listensockfd := 0; _sendsockfd := 0; _debug := false |}.

(** A receiver with no buffer at all. *)
Definition bufferless_receiver : UDPNode :=
  {| _maxqueuesize := 5; _maxmessagesize := 0; _rxqueue := [];
     _stoprecvthread := false; _rxthread := joinable;
     _listenipver := ipv6; _listenport := 3490;
     _listensockfd := 3; _sendsockfd := -1; _debug := false |}.

(** ** Facts about characters and C strings *)

Lemma uchar_range (c : ascii) : 0 <= uchar c < 256.
Proof.
  unfold uchar.
  pose proof (N_ascii_bounded c) as H.
  lia.
Qed.

Lemma c_str_no_NUL (s : list ascii) : ~ In NUL s -> c_str s = s.
Proof.
  induction s as [|c s IH]; simpl; intros H; [reflexivity|].
  destruct (Ascii.eqb_spec c NUL) as [->|_].
  - exfalso. apply H. now left.
  - f_equal. apply IH. intros Hin. apply H. now right.
Qed.

Lemma c_str_app_NUL (p rest : list ascii) : ~ In NUL p -> c_str (p ++ NUL :: rest) = p.
Proof.
  induction p as [|c p IH]; simpl; intros H; [reflexivity|].
  destruct (Ascii.eqb_spec c NUL) as [->|_].
  - exfalso. apply H. now left.
  - f_equal. apply IH. intros Hin. apply H. now right.
Qed.

Lemma c_str_has_no_NUL (s : list ascii) : ~ In NUL (c_str s).
Proof.
  induction s as [|c s IH]; simpl; [tauto|].
  destruct (Ascii.eqb_spec c NUL) as [->|Hc]; simpl; [tauto|].
  intros [H|H]; [now apply Hc | now apply IH].
Qed.

Lemma c_str_app (a b : list ascii) : ~ In NUL a -> c_str (a ++ b) = a ++ c_str b.
Proof.
  induction a as [|c a IH]; simpl; intros H; [reflexivity|].
  destruct (Ascii.eqb_spec c NUL) as [->|_].
  - exfalso. apply H. now left.
  - f_equal. apply IH. intros Hin. apply H. now right.
Qed.

Lemma firstn_strlen (s : list ascii) : firstn (strlen s) s = c_str s.
Proof.
  unfold strlen.
  induction s as [|c s IH]; simpl; [reflexivity|].
  destruct (Ascii.eqb c NUL); simpl; [reflexivity|].
  now rewrite IH.
Qed.

Lemma bytes_eqb_refl (a : list ascii) : bytes_eqb a a = true.
Proof.
  induction a as [|x a IH]; simpl; [reflexivity|].
  now rewrite Ascii.eqb_refl, IH.
Qed.

(** ** Decimal digits *)

Lemma digit_char_spec (k : Z) :
  0 <= k < 10 -> is_digit (digit_char k) = true /\ digit_val (digit_char k) = k.
Proof.
  intros H.
  assert (k = 0 \/ k = 1 \/ k = 2 \/ k = 3 \/ k = 4 \/ k = 5 \/ k = 6 \/ k = 7
          \/ k = 8 \/ k = 9) as Hk by lia.
  repeat (destruct Hk as [-> | Hk]; [split; reflexivity|]).
  subst k. split; reflexivity.
Qed.

Lemma digit_char_zero (k : Z) : 0 <= k < 10 -> digit_char k = "0"%char -> k = 0.
Proof.
  intros H E.
  pose proof (digit_char_spec k H) as [_ Hv].
  rewrite E in Hv. now rewrite <- Hv.
Qed.

Lemma digits_value_snoc (ds : list ascii) (d : ascii) :
  digits_value (ds ++ [d]) = 10 * digits_value ds + digit_val d.
Proof.
  unfold digits_value. now rewrite fold_left_app.
Qed.

(** What [utoa_rec] prepends to its accumulator. *)
Lemma utoa_rec_spec (fuel : nat) :
  forall (n : Z) (acc : list ascii),
    0 <= n < 10 ^ Z.of_nat fuel -> (0 < fuel)%nat ->
    exists d ds,
      utoa_rec fuel n acc = (d :: ds) ++ acc /\
      Forall (fun c => is_digit c = true) (d :: ds) /\
      digits_value (d :: ds) = n /\
      (d = "0"%char -> n = 0 /\ ds = []).
Proof.
  induction fuel as [|fuel IH]; intros n acc Hn Hf; [lia|].
  simpl utoa_rec.
  assert (0 <= n mod 10 < 10) as Hm by (apply Z.mod_pos_bound; lia).
  destruct (digit_char_spec _ Hm) as [Hd Hv].
  destruct (Z.eqb_spec (n / 10) 0) as [Hq|Hq].
  - assert (n mod 10 = n) as En.
    { pose proof (Z.div_mod n 10 ltac:(lia)). lia. }
    exists (digit_char (n mod 10)), []. split; [reflexivity|]. split; [|split].
    + repeat constructor. exact Hd.
    + unfold digits_value. simpl. lia.
    + intros Ez. split; [|reflexivity]. rewrite <- En. now apply digit_char_zero.
  - assert (0 <= n / 10 < 10 ^ Z.of_nat fuel) as Hn'.
    { split; [apply Z.div_pos; lia|].
      apply Z.div_lt_upper_bound; [lia|].
      replace (10 ^ Z.of_nat (S fuel)) with (10 * 10 ^ Z.of_nat fuel) in Hn; [lia|].
      rewrite Nat2Z.inj_succ, Z.pow_succ_r; lia. }
    assert (0 < fuel)%nat as Hf'.
    { destruct fuel; [|lia]. simpl in Hn'. lia. }
    destruct (IH (n / 10) (digit_char (n mod 10) :: acc) Hn' Hf')
      as (d & ds & E & Hall & Hval & Hz).
    exists d, (ds ++ [digit_char (n mod 10)]). split; [|split; [|split]].
    + rewrite E. simpl. now rewrite <- app_assoc.
    + change (d :: ds ++ [digit_char (n mod 10)])
        with ((d :: ds) ++ [digit_char (n mod 10)]).
      apply Forall_app. split; [exact Hall|]. repeat constructor. exact Hd.
    + change (d :: ds ++ [digit_char (n mod 10)])
        with ((d :: ds) ++ [digit_char (n mod 10)]).
      rewrite digits_value_snoc, Hval, Hv.
      pose proof (Z.div_mod n 10 ltac:(lia)). lia.
    + intros Ez. destruct (Hz Ez) as [Hq0 _]. contradiction.
Qed.

Lemma utoa_spec (n : Z) :
  0 <= n < 2 ^ 64 ->
  exists d ds,
    utoa n = d :: ds /\
    Forall (fun c => is_digit c = true) (d :: ds) /\
    digits_value (d :: ds) = n /\
    (d = "0"%char -> n = 0 /\ ds = []).
Proof.
  intros H.
  destruct (utoa_rec_spec 20 n [] ltac:(simpl; lia) ltac:(lia))
    as (d & ds & E & Hall & Hval & Hz).
  exists d, ds. unfold utoa. rewrite E, app_nil_r. auto.
Qed.

(** ** The reader inverts the writer *)

Lemma ParseString_WriteEscaped (c : ascii) (tail : list ascii) :
  ParseStringToStream (WriteEscaped c ++ tail)
  = prepend [c] (ParseStringToStream tail).
Proof. each_char c; reflexivity. Qed.

Lemma ParseString_WriteString (s rest : list ascii) :
  ParseStringToStream (flat_map WriteEscaped s ++ dquote :: rest) = Some (s, rest).
Proof.
  induction s as [|c s IH].
  - reflexivity.
  - simpl flat_map. rewrite <- app_assoc, ParseString_WriteEscaped, IH.
    reflexivity.
Qed.

Lemma WriteEscaped_no_NUL (c : ascii) : ~ In NUL (WriteEscaped c).
Proof.
  assert (forallb (fun x => negb (Ascii.eqb x NUL)) (WriteEscaped c) = true) as H
    by (each_char c; reflexivity).
  rewrite forallb_forall in H.
  intros Hin. specialize (H _ Hin). now rewrite Ascii.eqb_refl in H.
Qed.

Lemma WriteString_no_NUL (s : list ascii) : ~ In NUL (flat_map WriteEscaped s).
Proof.
  rewrite in_flat_map. intros (c & _ & H). now apply WriteEscaped_no_NUL in H.
Qed.

Lemma digit_not_NUL (ds : list ascii) :
  Forall (fun c => is_digit c = true) ds -> ~ In NUL ds.
Proof.
  intros H Hin. rewrite Forall_forall in H. specialize (H _ Hin). discriminate H.
Qed.

Lemma span_digits_app (ds : list ascii) (c : ascii) (rest : list ascii) :
  Forall (fun c => is_digit c = true) ds -> is_digit c = false ->
  span_digits (ds ++ c :: rest) = (ds, c :: rest).
Proof.
  intros Hds Hc. induction Hds as [|d ds Hd _ IH]; simpl.
  - now rewrite Hc.
  - now rewrite Hd, IH.
Qed.

Lemma ParseNumber_utoa (T : target) (n : Z) (c : ascii) (rest : list ascii) :
  0 <= n < 2 ^ 64 -> ends_number c ->
  ParseNumber T (utoa n ++ c :: rest) = Some (kNumber (Integer n), c :: rest).
Proof.
  intros Hn Hc.
  destruct (utoa_spec n Hn) as (d & ds & E & Hall & Hval & Hz).
  rewrite E. inversion Hall as [|? ? Hd Hds]; subst x l.
  assert (is_digit c = false) as Hcd by (destruct Hc; subst; reflexivity).
  unfold ParseNumber.
  assert (ParseSign ((d :: ds) ++ c :: rest) = (false, d :: ds ++ c :: rest)) as ->.
  { simpl. destruct (Ascii.eqb_spec d "-"); [subst; discriminate Hd|reflexivity]. }
  assert (ParseInt (d :: ds ++ c :: rest) = Some (d :: ds, c :: rest)) as ->.
  { unfold ParseInt. rewrite Hd.
    destruct (Ascii.eqb_spec d "0") as [E0|_].
    - destruct (Hz E0) as [_ ->]. reflexivity.
    - now rewrite span_digits_app. }
  assert (ParseFrac (c :: rest) = Some ([], c :: rest)) as ->
    by (destruct Hc; subst; reflexivity).
  assert (ParseExp (c :: rest) = Some ([], c :: rest)) as ->
    by (destruct Hc; subst; reflexivity).
  cbv beta iota zeta. rewrite Hval.
  assert ((n <? 2 ^ 64) = true) as -> by (apply Z.ltb_lt; lia).
  reflexivity.
Qed.

Lemma ParseValue_number (T : target) (fuel : nat) (d : ascii) (inp : list ascii) :
  is_digit d = true ->
  ParseValue T (S fuel) (d :: inp) = ParseNumber T (d :: inp).
Proof.
  intros Hd. cbn [ParseValue Peek hd].
  each_char d; try discriminate Hd; reflexivity.
Qed.

Lemma SkipWhitespace_digit (d : ascii) (inp : list ascii) :
  is_digit d = true -> SkipWhitespace (d :: inp) = d :: inp.
Proof.
  intros Hd. each_char d; try discriminate Hd; reflexivity.
Qed.

Lemma ParseValue_utoa (T : target) (fuel : nat) (n : Z) (c : ascii) (rest : list ascii) :
  0 <= n < 2 ^ 64 -> ends_number c ->
  ParseValue T (S fuel) (SkipWhitespace (utoa n ++ c :: rest))
  = Some (kNumber (Integer n), c :: rest).
Proof.
  intros Hn Hc.
  rewrite <- (ParseNumber_utoa T n c rest Hn Hc).
  destruct (utoa_spec n Hn) as (d & ds & -> & Hall & _).
  inversion Hall as [|? ? Hd _]; subst.
  simpl app. rewrite SkipWhitespace_digit by exact Hd.
  now apply ParseValue_number.
Qed.

Lemma serialize_text (T : target) (now : Z) (msg : list ascii) (j : bool) :
  GetString (serialize T now msg j)
  = "{"%char ::
    key "Time" (utoa (to_uint64 now) ++ ","%char ::
    key "Msg" (dquote :: flat_map WriteEscaped (c_str msg) ++ dquote :: ","%char ::
    key "CRC" (utoa (serialize_crc T msg) ++
      (if j then ","%char :: key "Join_thr" (list_ascii_of_string "true}")
       else ["}"%char])))).
Proof.
  unfold serialize, GetString, serialize_crc, key.
  destruct j; cbn -[utoa c_str flat_map fold_left firstn strlen];
    repeat (rewrite <- ?app_assoc; cbn -[utoa c_str flat_map fold_left firstn strlen]);
    reflexivity.
Qed.

Lemma clean_spec (l : list ascii) : clean l = true <-> ~ In NUL l.
Proof.
  unfold clean. rewrite forallb_forall. split.
  - intros H Hin. specialize (H _ Hin). now rewrite Ascii.eqb_refl in H.
  - intros H x Hin. destruct (Ascii.eqb_spec x NUL) as [->|_]; [contradiction|reflexivity].
Qed.

Lemma clean_app (a b : list ascii) : clean (a ++ b) = clean a && clean b.
Proof. apply forallb_app. Qed.

Lemma clean_utoa (n : Z) : 0 <= n < 2 ^ 64 -> clean (utoa n) = true.
Proof.
  intros Hn. destruct (utoa_spec n Hn) as (d & ds & -> & Hall & _).
  apply clean_spec. now apply digit_not_NUL.
Qed.

Lemma clean_WriteString (s : list ascii) : clean (flat_map WriteEscaped s) = true.
Proof. apply clean_spec, WriteString_no_NUL. Qed.

Lemma to_uint64_range (z : Z) : 0 <= to_uint64 z < 2 ^ 64.
Proof. unfold to_uint64. apply Z.mod_pos_bound. lia. Qed.

Lemma to_uchar_range (z : Z) : 0 <= to_uchar z < 256.
Proof. unfold to_uchar. apply Z.mod_pos_bound. lia. Qed.

Lemma serialize_crc_range (T : target) (msg : list ascii) :
  0 <= serialize_crc T msg < 256.
Proof.
  unfold serialize_crc.
  assert (forall l acc, 0 <= acc < 256 ->
            0 <= fold_left (fun crc c => to_uchar (Z.lxor crc (char_to_int T c))) l acc < 256)
    as H.
  { induction l as [|c l IH]; intros acc Hacc; simpl; [exact Hacc|].
    apply IH, to_uchar_range. }
  apply H. lia.
Qed.

Lemma ParseMembers_more (T : target) (fuel : nat) (name : string)
    (vtext rest rest' : list ascii) (v : Value) (ms : list (list ascii * Value)) :
  flat_map WriteEscaped (list_ascii_of_string name) = list_ascii_of_string name ->
  ParseValue T fuel (SkipWhitespace vtext) = Some (v, ","%char :: rest) ->
  ParseMembers T fuel (SkipWhitespace rest) = Some (ms, rest') ->
  ParseMembers T (S fuel) (key name vtext)
  = Some ((list_ascii_of_string name, v) :: ms, rest').
Proof.
  intros Hname Hv Hms. unfold key.
  cbn [ParseMembers Peek Take hd tl]. rewrite Ascii.eqb_refl.
  rewrite <- Hname at 1. rewrite ParseString_WriteString.
  cbn [SkipWhitespace is_space Peek Take hd tl]. rewrite Ascii.eqb_refl, Hv.
  cbn [SkipWhitespace is_space Peek Take hd tl]. rewrite Ascii.eqb_refl, Hms.
  reflexivity.
Qed.

Lemma ParseMembers_last (T : target) (fuel : nat) (name : string)
    (vtext rest : list ascii) (v : Value) :
  flat_map WriteEscaped (list_ascii_of_string name) = list_ascii_of_string name ->
  ParseValue T fuel (SkipWhitespace vtext) = Some (v, "}"%char :: rest) ->
  ParseMembers T (S fuel) (key name vtext) = Some ([(list_ascii_of_string name, v)], rest).
Proof.
  intros Hname Hv. unfold key.
  cbn [ParseMembers Peek Take hd tl]. rewrite Ascii.eqb_refl.
  rewrite <- Hname at 1. rewrite ParseString_WriteString.
  cbn [SkipWhitespace is_space Peek Take hd tl]. rewrite Ascii.eqb_refl, Hv.
  reflexivity.
Qed.

Lemma ParseValue_string (T : target) (fuel : nat) (s rest : list ascii) :
  ParseValue T (S fuel) (SkipWhitespace (dquote :: flat_map WriteEscaped s ++ dquote :: rest))
  = Some (kString s, rest).
Proof.
  change (SkipWhitespace (dquote :: ?x)) with (dquote :: x).
  change (ParseValue T (S fuel) (dquote :: ?x)) with
    (match ParseStringToStream x with
     | Some (s, rest) => Some (kString s, rest)
     | None => None
     end).
  now rewrite ParseString_WriteString.
Qed.

Lemma SkipWhitespace_key (name : string) (tail : list ascii) :
  SkipWhitespace (key name tail) = key name tail.
Proof. reflexivity. Qed.

Lemma ParseValue_object (T : target) (fuel : nat) (name : string)
    (tail rest : list ascii) (ms : list (list ascii * Value)) :
  ParseMembers T fuel (key name tail) = Some (ms, rest) ->
  ParseValue T (S fuel) ("{"%char :: key name tail) = Some (kObject ms, rest).
Proof.
  intros H.
  change (ParseValue T (S fuel) ("{"%char :: key name tail)) with
    (match ParseMembers T fuel (key name tail) with
     | Some (ms, rest) => Some (kObject ms, rest)
     | None => None
     end).
  now rewrite H.
Qed.

Lemma ParseValue_serialize (T : target) (now : Z) (msg : list ascii) (j : bool)
    (fuel : nat) :
  (6 <= fuel)%nat ->
  ParseValue T fuel (GetString (serialize T now msg j))
  = Some (kObject (frame_members T now msg j), []).
Proof.
  intros Hfuel.
  do 6 (destruct fuel as [|fuel]; [lia|]). clear Hfuel.
  pose proof (to_uint64_range now) as Hnow.
  assert (0 <= serialize_crc T msg < 2 ^ 64) as Hcrc
    by (pose proof (serialize_crc_range T msg); lia).
  rewrite serialize_text. unfold frame_members.
  apply ParseValue_object.
  eapply ParseMembers_more; [reflexivity| |].
  { apply ParseValue_utoa; [exact Hnow|now left]. }
  rewrite SkipWhitespace_key.
  eapply ParseMembers_more; [reflexivity| |].
  { apply ParseValue_string. }
  rewrite SkipWhitespace_key.
  destruct j.
  - eapply ParseMembers_more; [reflexivity| |].
    + apply ParseValue_utoa; [exact Hcrc|now left].
    + reflexivity.
  - eapply ParseMembers_last; [reflexivity|].
    apply ParseValue_utoa; [exact Hcrc|now right].
Qed.

Lemma clean_serialize (T : target) (now : Z) (msg : list ascii) (j : bool) :
  clean (GetString (serialize T now msg j)) = true.
Proof.
  pose proof (to_uint64_range now) as Hnow.
  assert (0 <= serialize_crc T msg < 2 ^ 64) as Hcrc
    by (pose proof (serialize_crc_range T msg); lia).
  rewrite serialize_text. unfold key.
  destruct j;
    repeat (cbn [clean forallb list_ascii_of_string app]; rewrite ?clean_app);
    rewrite (clean_utoa _ Hnow), (clean_utoa _ Hcrc), clean_WriteString;
    reflexivity.
Qed.

Lemma length_serialize (T : target) (now : Z) (msg : list ascii) (j : bool) :
  (6 <= length (GetString (serialize T now msg j)))%nat.
Proof.
  rewrite serialize_text. unfold key. cbn [length list_ascii_of_string app]. lia.
Qed.

(** Parsing the frame that [serialize] wrote gives back its members. *)
Lemma Parse_serialize (T : target) (now : Z) (msg : list ascii) (j : bool) :
  Parse T (GetString (serialize T now msg j)) = kObject (frame_members T now msg j).
Proof.
  unfold Parse.
  rewrite (c_str_no_NUL (GetString (serialize T now msg j)))
    by (apply clean_spec, clean_serialize).
  assert (SkipWhitespace (GetString (serialize T now msg j))
          = GetString (serialize T now msg j)) as ->
    by (rewrite serialize_text; reflexivity).
  rewrite ParseValue_serialize; [reflexivity|].
  pose proof (length_serialize T now msg j). lia.
Qed.

(** ** The fuel of the reader is never the limit *)

Lemma SkipWhitespace_length (inp : list ascii) :
  (length (SkipWhitespace inp) <= length inp)%nat.
Proof.
  induction inp as [|c inp IH]; simpl; [lia|].
  destruct (is_space c); simpl; lia.
Qed.

Lemma Take_length (inp : list ascii) : (length (Take inp) <= length inp)%nat.
Proof. destruct inp; simpl; lia. Qed.

Lemma Take_length_lt (inp : list ascii) (c : ascii) :
  Ascii.eqb (Peek inp) c = true -> c <> NUL ->
  (length (Take inp) < length inp)%nat.
Proof.
  destruct inp as [|a inp]; cbn [Peek Take hd tl length]; intros H Hc; [|lia].
  apply Ascii.eqb_eq in H. now subst c.
Qed.

Lemma prepend_Some (bytes : list ascii) (r : option (list ascii * list ascii))
    (s rest : list ascii) :
  prepend bytes r = Some (s, rest) -> exists s', r = Some (s', rest).
Proof.
  destruct r as [[s' rest']|]; simpl; intros H; [|discriminate].
  injection H as _ <-. now exists s'.
Qed.

Lemma ParseStringToStream_rest_bounded (n : nat) :
  forall inp s rest,
    (length inp <= n)%nat ->
    ParseStringToStream inp = Some (s, rest) ->
    (length rest < length inp)%nat.
Proof.
  induction n as [|n IH]; intros inp s rest Hlen H.
  - destruct inp; [discriminate H|simpl in Hlen; lia].
  - destruct inp as [|c inp]; [discriminate H|].
    simpl in H, Hlen.
    repeat (break_hyp H; try discriminate H; simpl in *).
    all: try (apply prepend_Some in H; destruct H as [s' H];
              apply IH in H; simpl in *; lia).
    all: try (injection H as _ <-; simpl; lia).
Qed.

Lemma ParseStringToStream_rest (inp s rest : list ascii) :
  ParseStringToStream inp = Some (s, rest) -> (length rest < length inp)%nat.
Proof. apply (ParseStringToStream_rest_bounded (length inp)). lia. Qed.

Lemma span_digits_length (inp ds rest : list ascii) :
  span_digits inp = (ds, rest) -> (length rest <= length inp)%nat.
Proof.
  revert ds rest. induction inp as [|c inp IH]; intros ds rest H; simpl in H.
  - injection H as _ <-. simpl. lia.
  - destruct (is_digit c).
    + destruct (span_digits inp) as [ds' rest'] eqn:E.
      injection H as _ <-. specialize (IH _ _ eq_refl). simpl. lia.
    + injection H as _ <-. lia.
Qed.

Lemma ParseSign_length (inp : list ascii) :
  (length (snd (ParseSign inp)) <= length inp)%nat.
Proof.
  destruct inp as [|c inp]; simpl; [lia|].
  destruct (Ascii.eqb c "-"); simpl; lia.
Qed.

Lemma ParseInt_rest (inp int_part rest : list ascii) :
  ParseInt inp = Some (int_part, rest) -> (length rest < length inp)%nat.
Proof.
  destruct inp as [|d inp]; [discriminate|]. unfold ParseInt.
  destruct (is_digit d); [|discriminate].
  destruct (Ascii.eqb d "0").
  - intros H. injection H as _ <-. simpl. lia.
  - destruct (span_digits inp) as [ds rest'] eqn:E.
    intros H. injection H as _ <-. apply span_digits_length in E. simpl. lia.
Qed.

Lemma ParseFrac_rest (inp frac_part rest : list ascii) :
  ParseFrac inp = Some (frac_part, rest) -> (length rest <= length inp)%nat.
Proof.
  destruct inp as [|c inp]; unfold ParseFrac.
  - intros H. injection H as _ <-. lia.
  - destruct (Ascii.eqb c ".").
    + destruct (span_digits inp) as [fs rest'] eqn:E. destruct fs; [discriminate|].
      intros H. injection H as _ <-. apply span_digits_length in E. simpl. lia.
    + intros H. injection H as _ <-. lia.
Qed.

Lemma ParseExp_rest (inp exp_part rest : list ascii) :
  ParseExp inp = Some (exp_part, rest) -> (length rest <= length inp)%nat.
Proof.
  destruct inp as [|e inp]; unfold ParseExp.
  - intros H. injection H as _ <-. lia.
  - destruct (Ascii.eqb e "e" || Ascii.eqb e "E").
    + destruct inp as [|s inp].
      * simpl. discriminate.
      * destruct (Ascii.eqb s "+" || Ascii.eqb s "-").
        -- destruct (span_digits inp) as [es rest'] eqn:E. destruct es; [discriminate|].
           intros H. injection H as _ <-. apply span_digits_length in E. simpl. lia.
        -- destruct (span_digits (s :: inp)) as [es rest'] eqn:E.
           destruct es; [discriminate|].
           intros H. injection H as _ <-. apply span_digits_length in E. simpl in *. lia.
    + intros H. injection H as _ <-. lia.
Qed.

Lemma ParseNumber_rest (T : target) (inp rest : list ascii) (v : Value) :
  ParseNumber T inp = Some (v, rest) -> (length rest < length inp)%nat.
Proof.
  unfold ParseNumber. pose proof (ParseSign_length inp) as Hsign.
  destruct (ParseSign inp) as [minus inp1]. cbn [snd] in Hsign.
  destruct (ParseInt inp1) as [[int_part inp2]|] eqn:Hint; [|discriminate].
  destruct (ParseFrac inp2) as [[frac_part inp3]|] eqn:Hfrac; [|discriminate].
  destruct (ParseExp inp3) as [[exp_part rest']|] eqn:Hexp; [|discriminate].
  apply ParseInt_rest in Hint. apply ParseFrac_rest in Hfrac. apply ParseExp_rest in Hexp.
  cbv zeta.
  destruct (match frac_part with [] => _ | _ => _ end).
  - intros H. injection H as _ <-. lia.
  - destruct (double_in_range T _); [|discriminate].
    intros H. injection H as _ <-. lia.
Qed.

Lemma Consume_rest (word : string) (v v' : Value) (inp rest : list ascii) :
  Consume word v inp = Some (v', rest) -> (length rest <= length inp)%nat.
Proof.
  unfold Consume. destruct (bytes_eqb _ _); [|discriminate].
  intros H. injection H as _ <-. rewrite length_skipn. lia.
Qed.

Lemma Parse_rest (T : target) (fuel : nat) :
  (forall inp, shrinks inp (ParseValue T fuel inp)) /\
  (forall inp, shrinks inp (ParseMembers T fuel inp)) /\
  (forall inp, shrinks inp (ParseElements T fuel inp)).
Proof.
  induction fuel as [|fuel (IHv & IHm & IHe)]; [repeat split; intros; exact I|].
  assert (forall inp, shrinks inp (ParseValue T (S fuel) inp)) as Hv.
  { intros inp. cbn [ParseValue]. cbv zeta.
    destruct (Ascii.eqb (Peek inp) "n") eqn:En.
    { pose proof (Take_length_lt inp _ En ltac:(discriminate)).
      destruct (Consume "ull" kNull (Take inp)) as [[v rest]|] eqn:E; [|exact I].
      apply Consume_rest in E. simpl. lia. }
    destruct (Ascii.eqb (Peek inp) "t") eqn:Et.
    { pose proof (Take_length_lt inp _ Et ltac:(discriminate)).
      destruct (Consume "rue" kTrue (Take inp)) as [[v rest]|] eqn:E; [|exact I].
      apply Consume_rest in E. simpl. lia. }
    destruct (Ascii.eqb (Peek inp) "f") eqn:Ef.
    { pose proof (Take_length_lt inp _ Ef ltac:(discriminate)).
      destruct (Consume "alse" kFalse (Take inp)) as [[v rest]|] eqn:E; [|exact I].
      apply Consume_rest in E. simpl. lia. }
    destruct (Ascii.eqb (Peek inp) dquote) eqn:Eq.
    { pose proof (Take_length_lt inp _ Eq ltac:(discriminate)).
      destruct (ParseStringToStream (Take inp)) as [[s rest]|] eqn:E; [|exact I].
      apply ParseStringToStream_rest in E. simpl. lia. }
    destruct (Ascii.eqb (Peek inp) "{") eqn:Eo.
    { pose proof (Take_length_lt inp _ Eo ltac:(discriminate)).
      pose proof (SkipWhitespace_length (Take inp)).
      pose proof (Take_length (SkipWhitespace (Take inp))).
      destruct (Ascii.eqb (Peek (SkipWhitespace (Take inp))) "}"); [simpl; lia|].
      specialize (IHm (SkipWhitespace (Take inp))).
      destruct (ParseMembers T fuel (SkipWhitespace (Take inp))) as [[ms rest]|];
        [|exact I].
      simpl in *. lia. }
    destruct (Ascii.eqb (Peek inp) "[") eqn:Ea.
    { pose proof (Take_length_lt inp _ Ea ltac:(discriminate)).
      pose proof (SkipWhitespace_length (Take inp)).
      pose proof (Take_length (SkipWhitespace (Take inp))).
      destruct (Ascii.eqb (Peek (SkipWhitespace (Take inp))) "]"); [simpl; lia|].
      specialize (IHe (SkipWhitespace (Take inp))).
      destruct (ParseElements T fuel (SkipWhitespace (Take inp))) as [[es rest]|];
        [|exact I].
      simpl in *. lia. }
    destruct (ParseNumber T inp) as [[v rest]|] eqn:E; [|exact I].
    apply ParseNumber_rest in E. exact E. }
  split; [exact Hv|]. split.
  - intros inp. cbn [ParseMembers]. cbv zeta.
    destruct (Ascii.eqb (Peek inp) dquote) eqn:Eq; [|exact I].
    pose proof (Take_length_lt inp _ Eq ltac:(discriminate)).
    destruct (ParseStringToStream (Take inp)) as [[name inp2]|] eqn:E; [|exact I].
    apply ParseStringToStream_rest in E.
    pose proof (SkipWhitespace_length inp2).
    destruct (Ascii.eqb (Peek (SkipWhitespace inp2)) ":"); [|exact I].
    pose proof (Take_length (SkipWhitespace inp2)).
    pose proof (SkipWhitespace_length (Take (SkipWhitespace inp2))).
    specialize (IHv (SkipWhitespace (Take (SkipWhitespace inp2)))).
    destruct (ParseValue T fuel (SkipWhitespace (Take (SkipWhitespace inp2))))
      as [[v inp3]|]; [|exact I].
    pose proof (SkipWhitespace_length inp3).
    pose proof (Take_length (SkipWhitespace inp3)).
    pose proof (SkipWhitespace_length (Take (SkipWhitespace inp3))).
    destruct (Ascii.eqb (Peek (SkipWhitespace inp3)) ",").
    + specialize (IHm (SkipWhitespace (Take (SkipWhitespace inp3)))).
      destruct (ParseMembers T fuel (SkipWhitespace (Take (SkipWhitespace inp3))))
        as [[ms rest]|]; [|exact I].
      simpl in *. lia.
    + destruct (Ascii.eqb (Peek (SkipWhitespace inp3)) "}"); [|exact I].
      simpl in *. lia.
  - intros inp. cbn [ParseElements]. cbv zeta.
    specialize (IHv inp).
    destruct (ParseValue T fuel inp) as [[v inp1]|]; [|exact I].
    pose proof (SkipWhitespace_length inp1).
    pose proof (Take_length (SkipWhitespace inp1)).
    pose proof (SkipWhitespace_length (Take (SkipWhitespace inp1))).
    destruct (Ascii.eqb (Peek (SkipWhitespace inp1)) ",").
    + specialize (IHe (SkipWhitespace (Take (SkipWhitespace inp1)))).
      destruct (ParseElements T fuel (SkipWhitespace (Take (SkipWhitespace inp1))))
        as [[es rest]|]; [|exact I].
      simpl in *. lia.
    + destruct (Ascii.eqb (Peek (SkipWhitespace inp1)) "]"); [|exact I].
      simpl in *. lia.
Qed.

Lemma Parse_fuel (T : target) (fuel : nat) :
  forall fuel',
    (forall inp, (2 * length inp < fuel)%nat -> (2 * length inp < fuel')%nat ->
                 ParseValue T fuel inp = ParseValue T fuel' inp) /\
    (forall inp, (2 * length inp + 1 < fuel)%nat -> (2 * length inp + 1 < fuel')%nat ->
                 ParseMembers T fuel inp = ParseMembers T fuel' inp) /\
    (forall inp, (2 * length inp + 1 < fuel)%nat -> (2 * length inp + 1 < fuel')%nat ->
                 ParseElements T fuel inp = ParseElements T fuel' inp).
Proof.
  induction fuel as [|fuel IH]; intros fuel'; [repeat split; intros; lia|].
  destruct fuel' as [|fuel']; [repeat split; intros; lia|].
  destruct (IH fuel') as (IHv & IHm & IHe). clear IH.
  split; [|split]; intros inp Hf Hf'.
  - cbn [ParseValue]. cbv zeta.
    destruct (Ascii.eqb (Peek inp) "n"); [reflexivity|].
    destruct (Ascii.eqb (Peek inp) "t"); [reflexivity|].
    destruct (Ascii.eqb (Peek inp) "f"); [reflexivity|].
    destruct (Ascii.eqb (Peek inp) dquote); [reflexivity|].
    destruct (Ascii.eqb (Peek inp) "{") eqn:Eo.
    { pose proof (Take_length_lt inp _ Eo ltac:(discriminate)).
      pose proof (SkipWhitespace_length (Take inp)).
      destruct (Ascii.eqb (Peek (SkipWhitespace (Take inp))) "}"); [reflexivity|].
      rewrite (IHm (SkipWhitespace (Take inp))) by lia. reflexivity. }
    destruct (Ascii.eqb (Peek inp) "[") eqn:Ea; [|reflexivity].
    pose proof (Take_length_lt inp _ Ea ltac:(discriminate)).
    pose proof (SkipWhitespace_length (Take inp)).
    destruct (Ascii.eqb (Peek (SkipWhitespace (Take inp))) "]"); [reflexivity|].
    rewrite (IHe (SkipWhitespace (Take inp))) by lia. reflexivity.
  - cbn [ParseMembers]. cbv zeta.
    destruct (Ascii.eqb (Peek inp) dquote) eqn:Eq; [|reflexivity].
    pose proof (Take_length_lt inp _ Eq ltac:(discriminate)).
    destruct (ParseStringToStream (Take inp)) as [[name inp2]|] eqn:E; [|reflexivity].
    apply ParseStringToStream_rest in E.
    pose proof (SkipWhitespace_length inp2).
    destruct (Ascii.eqb (Peek (SkipWhitespace inp2)) ":"); [|reflexivity].
    pose proof (Take_length (SkipWhitespace inp2)).
    pose proof (SkipWhitespace_length (Take (SkipWhitespace inp2))).
    rewrite (IHv (SkipWhitespace (Take (SkipWhitespace inp2)))) by lia.
    pose proof (proj1 (Parse_rest T fuel') (SkipWhitespace (Take (SkipWhitespace inp2))))
      as Hrest.
    destruct (ParseValue T fuel' (SkipWhitespace (Take (SkipWhitespace inp2))))
      as [[v inp3]|]; [|reflexivity].
    cbn [shrinks] in Hrest.
    pose proof (SkipWhitespace_length inp3).
    pose proof (Take_length (SkipWhitespace inp3)).
    pose proof (SkipWhitespace_length (Take (SkipWhitespace inp3))).
    destruct (Ascii.eqb (Peek (SkipWhitespace inp3)) ","); [|reflexivity].
    rewrite (IHm (SkipWhitespace (Take (SkipWhitespace inp3)))) by lia. reflexivity.
  - cbn [ParseElements]. cbv zeta.
    rewrite (IHv inp) by lia.
    pose proof (proj1 (Parse_rest T fuel') inp) as Hrest.
    destruct (ParseValue T fuel' inp) as [[v inp1]|]; [|reflexivity].
    cbn [shrinks] in Hrest.
    pose proof (SkipWhitespace_length inp1).
    pose proof (Take_length (SkipWhitespace inp1)).
    pose proof (SkipWhitespace_length (Take (SkipWhitespace inp1))).
    destruct (Ascii.eqb (Peek (SkipWhitespace inp1)) ","); [|reflexivity].
    rewrite (IHe (SkipWhitespace (Take (SkipWhitespace inp1)))) by lia. reflexivity.
Qed.

(** More fuel than [Parse] supplies never changes what is read. *)
Lemma ParseValue_fuel_irrelevant (T : target) (inp : list ascii) (fuel : nat) :
  (2 * length inp < fuel)%nat ->
  ParseValue T fuel inp = ParseValue T (S (2 * length inp)) inp.
Proof.
  intros H. apply (proj1 (Parse_fuel T fuel (S (2 * length inp)))); lia.
Qed.

Lemma Parse_fuel_adequate (T : target) (text : list ascii) (fuel : nat) :
  (2 * length text < fuel)%nat ->
  ParseValue T fuel (SkipWhitespace text)
  = ParseValue T (S (2 * length text)) (SkipWhitespace text).
Proof.
  intros H. pose proof (SkipWhitespace_length text).
  apply (proj1 (Parse_fuel T fuel (S (2 * length text)))); lia.
Qed.

(** ** The checksum *)

Lemma lxor_mod_pow2 (a b n : Z) :
  0 <= n -> Z.lxor a b mod 2 ^ n = Z.lxor (a mod 2 ^ n) (b mod 2 ^ n).
Proof.
  intros Hn. apply Z.bits_inj'. intros i _.
  rewrite Z.lxor_spec, !Z.testbit_mod_pow2, Z.lxor_spec by exact Hn.
  destruct (i <? n); reflexivity.
Qed.

Lemma lxor_byte_range (a b : Z) :
  0 <= a < 256 -> 0 <= b < 256 -> 0 <= Z.lxor a b < 256.
Proof.
  intros Ha Hb.
  assert (Z.lxor a b = Z.lxor a b mod 2 ^ 8) as ->.
  { rewrite lxor_mod_pow2 by lia. now rewrite !Z.mod_small by lia. }
  apply Z.mod_pos_bound. lia.
Qed.

(** Folding one more byte into the 8-bit accumulator of [serialize] is the
    XOR of the unsigned byte values, whatever the signedness of [char]. *)
Lemma to_uchar_lxor (T : target) (a : Z) (c : ascii) :
  0 <= a < 256 -> to_uchar (Z.lxor a (char_to_int T c)) = Z.lxor a (uchar c).
Proof.
  intros Ha. pose proof (uchar_range c) as Hc.
  unfold to_uchar, char_to_int. rewrite lxor_mod_pow2 by lia.
  rewrite (Z.mod_small a) by lia.
  destruct (char_is_signed T && (128 <=? uchar c)).
  - replace ((uchar c - 256) mod 2 ^ 8) with (uchar c); [reflexivity|].
    apply Z.mod_unique with (q := -1); lia.
  - now rewrite Z.mod_small by lia.
Qed.

Lemma xorFold_from_range (l : list ascii) (acc : Z) :
  0 <= acc < 256 ->
  0 <= fold_left (fun acc c => Z.lxor acc (uchar c)) l acc < 256.
Proof.
  revert acc. induction l as [|c l IH]; intros acc Hacc; simpl; [exact Hacc|].
  apply IH, lxor_byte_range; [exact Hacc|apply uchar_range].
Qed.

Lemma xorFold_range (l : list ascii) : 0 <= xorFold l < 256.
Proof. apply xorFold_from_range. lia. Qed.

Lemma serialize_crc_xorFold (T : target) (msg : list ascii) :
  serialize_crc T msg = xorFold (c_str msg).
Proof.
  unfold serialize_crc, xorFold. rewrite firstn_strlen.
  assert (forall l acc, 0 <= acc < 256 ->
            fold_left (fun crc c => to_uchar (Z.lxor crc (char_to_int T c))) l acc
            = fold_left (fun acc c => Z.lxor acc (uchar c)) l acc) as H.
  { induction l as [|c l IH]; intros acc Hacc; simpl; [reflexivity|].
    rewrite to_uchar_lxor by exact Hacc.
    apply IH, lxor_byte_range; [exact Hacc|apply uchar_range]. }
  apply H. lia.
Qed.

(** Where [char] is unsigned, or no byte of the message is above 0x7F,
    [isDatagramValid] compares the specification's checksum with the
    transmitted one. *)
Lemma isDatagramValid_unsigned (T : target) (d : rxDatagram) :
  char_is_signed T = false \/ Forall (fun c => uchar c < 128) (msg d) ->
  isDatagramValid T d = (xorFold (msg d) =? crc_checksum d).
Proof.
  intros HT. unfold isDatagramValid, xorFold. f_equal.
  assert (forall l acc,
            char_is_signed T = false \/ Forall (fun c => uchar c < 128) l ->
            fold_left (fun crc c => Z.lxor crc (to_uint (char_to_int T c))) l acc
            = fold_left (fun acc c => Z.lxor acc (uchar c)) l acc) as H.
  { induction l as [|c l IH]; intros acc Hl; simpl; [reflexivity|].
    assert (to_uint (char_to_int T c) = uchar c) as ->.
    { pose proof (uchar_range c). unfold char_to_int, to_uint.
      destruct Hl as [-> | Hl].
      - simpl andb. cbv iota. now rewrite Z.mod_small by lia.
      - inversion Hl as [|? ? Hc _]; subst.
        assert ((128 <=? uchar c) = false) as -> by (apply Z.leb_gt; exact Hc).
        rewrite andb_false_r. now rewrite Z.mod_small by lia. }
    apply IH. destruct Hl as [Hl | Hl]; [now left|right].
    now inversion Hl. }
  apply H, HT.
Qed.

Lemma c_str_idempotent (s : list ascii) : c_str (c_str s) = c_str s.
Proof. apply c_str_no_NUL, c_str_has_no_NUL. Qed.

(** ** Decoding what was encoded *)

Lemma to_time_t_to_uint64 (now : Z) :
  - 2 ^ 63 <= now < 2 ^ 63 -> to_time_t (to_uint64 now) = now.
Proof.
  intros H. unfold to_time_t, to_uint64. rewrite Z.mod_mod by lia.
  destruct (Z.ltb_spec (now mod 2 ^ 64) (2 ^ 63)) as [Hlt|Hge].
  - destruct (Z_lt_le_dec now 0) as [Hneg|Hpos].
    + exfalso. assert (now mod 2 ^ 64 = now + 2 ^ 64) as E
        by (symmetry; apply Z.mod_unique with (q := -1); lia). lia.
    + apply Z.mod_small. lia.
  - destruct (Z_lt_le_dec now 0) as [Hneg|Hpos].
    + assert (now mod 2 ^ 64 = now + 2 ^ 64) as E
        by (symmetry; apply Z.mod_unique with (q := -1); lia). lia.
    + exfalso. rewrite Z.mod_small in Hge by lia. lia.
Qed.

Lemma parseDatagram_serialize (T : target) (their_addr : sockaddr_storage)
    (now : Z) (m : list ascii) (j : bool) (numbytes : Z) (d0 : rxDatagram) :
  Z.of_nat (length (presentation their_addr)) < 32 ->
  parseDatagram T their_addr (GetString (serialize T now m j)) numbytes d0
  = Returns (SUCCESS, decoded their_addr now m j).
Proof.
  intros Haddr.
  pose proof (to_uint64_range now) as Hnow.
  pose proof (xorFold_range (c_str m)) as Hcrc.
  unfold parseDatagram, inet_ntop.
  rewrite Parse_serialize. unfold frame_members.
  rewrite serialize_crc_xorFold.
  destruct (Z.leb_spec (Z.of_nat (length (presentation their_addr)) + 1) 32); [|lia].
  destruct j; cbn -[Z.pow to_uint64 to_time_t c_str Z.leb Z.ltb xorFold to_uint].
  all: replace ((0 <=? to_uint64 now) && (to_uint64 now <? 2 ^ 64)) with true
         by (symmetry; apply andb_true_iff; split; [apply Z.leb_le|apply Z.ltb_lt]; lia).
  all: replace ((0 <=? xorFold (c_str m)) && (xorFold (c_str m) <? 2 ^ 32)) with true
         by (symmetry; apply andb_true_iff; split; [apply Z.leb_le|apply Z.ltb_lt]; lia).
  all: cbn -[Z.pow to_uint64 to_time_t c_str Z.leb Z.ltb xorFold to_uint].
  all: unfold decoded, getInPort, to_uint; rewrite c_str_idempotent, Z.mod_small by lia.
  all: reflexivity.
Qed.

(** ** One pass of the receive loop *)

Lemma rxLoop_body_cases (T : target) (r : recv_event) (error_code : err_code)
    (n : UDPNode) :
  rxLoop_body T r error_code n =
  match recvfrom n r with
  | Faults f => (Faults f, n, [])
  | Returns None => (Returns (true, RECVFROM_FAILED), n, [])
  | Returns (Some (their_addr, buf)) =>
      if 0 <? Z.of_nat (length buf) then
        match parseDatagram T their_addr buf (Z.of_nat (length buf)) fresh_datagram with
        | Faults f => (Faults f, n, [])
        | Returns (e, datagram) =>
            if is_SUCCESS e then
              (Returns (false, e),
               (if enqueue_guard T n datagram
                then set_rxqueue (_rxqueue n ++ [datagram]) n else n),
               pass_log T n datagram)
            else (Returns (true, e), n, [cerr (errorMsg e)])
        end
      else (Returns (false, error_code), n, [])
  end.
Proof.
  unfold rxLoop_body, bind, get, lift.
  destruct (recvfrom n r) as [[[their_addr buf]|]|f]; try reflexivity.
  cbn [ret raise].
  destruct (0 <? Z.of_nat (length buf)); [|reflexivity].
  destruct (parseDatagram T their_addr buf (Z.of_nat (length buf)) fresh_datagram)
    as [[e datagram]|f]; [|reflexivity].
  cbn [ret raise].
  destruct (is_SUCCESS e); [|reflexivity].
  unfold pass_log, enqueue_guard, rxDataQueueSize, writeRxDatagramToQueue, when,
    bind, get, ret, emit, modify.
  destruct (isDatagramValid T datagram); cbn -[to_uint to_int Z.of_nat Z.leb Z.ltb];
    destruct (_maxqueuesize n <=? to_uint (to_int (Z.of_nat (length (_rxqueue n)))));
    cbn -[to_uint to_int Z.of_nat Z.leb Z.ltb];
    destruct (jointhread datagram); cbn -[to_uint to_int Z.of_nat Z.leb Z.ltb];
    try reflexivity;
    destruct (Z.of_nat (length (_rxqueue n)) <? _maxqueuesize n); reflexivity.
Qed.

Lemma set_rxqueue_same (n : UDPNode) : set_rxqueue (_rxqueue n) n = n.
Proof. now destruct n. Qed.

(** A pass changes nothing of the object but the queue, and the queue only by
    appending a datagram that passed the guard. *)
Lemma rxLoop_body_node (T : target) (r : recv_event) (error_code : err_code)
    (n : UDPNode) :
  node_after (rxLoop_body T r error_code n) = n \/
  exists their_addr buf datagram,
    recvfrom n r = Returns (Some (their_addr, buf)) /\
    parseDatagram T their_addr buf (Z.of_nat (length buf)) fresh_datagram
      = Returns (SUCCESS, datagram) /\
    enqueue_guard T n datagram = true /\
    node_after (rxLoop_body T r error_code n)
      = set_rxqueue (_rxqueue n ++ [datagram]) n.
Proof.
  rewrite rxLoop_body_cases.
  destruct (recvfrom n r) as [[[their_addr buf]|]|f] eqn:Hrecv; try (now left).
  destruct (0 <? Z.of_nat (length buf)); [|now left].
  destruct (parseDatagram T their_addr buf (Z.of_nat (length buf)) fresh_datagram)
    as [[e datagram]|f] eqn:Hparse; [|now left].
  destruct e; try (now left).
  cbn [is_SUCCESS err_code_value Z.eqb node_after fst snd].
  destruct (enqueue_guard T n datagram) eqn:Hguard; [|now left].
  right. exists their_addr, buf, datagram. auto.
Qed.

Lemma enqueue_guard_spec (T : target) (n : UDPNode) (d : rxDatagram) :
  enqueue_guard T n d = true <->
  jointhread d = false /\
  Z.of_nat (length (_rxqueue n)) < _maxqueuesize n /\
  isDatagramValid T d = true.
Proof.
  unfold enqueue_guard. rewrite !andb_true_iff, negb_true_iff, Z.ltb_lt. tauto.
Qed.

(** ** The receive loop and parse failures *)

Lemma parseDatagram_codes (T : target) (a : sockaddr_storage) (buf : list ascii)
    (nb : Z) (d0 d : rxDatagram) (e : err_code) :
  parseDatagram T a buf nb d0 = Returns (e, d) ->
  e = SUCCESS \/ e = PARSE_TIME_FAILED \/ e = PARSE_MSG_FAILED \/ e = PARSE_CRC_FAILED.
Proof.
  unfold parseDatagram.
  destruct (inet_ntop a 32); [|discriminate].
  cbn [obind].
  destruct (HasMember (Parse T buf) "Time") as [[|]|]; [| |discriminate]; cbn [obind].
  all: try (destruct (member (Parse T buf) "Time") as [v|]; [|discriminate]; cbn [obind];
            destruct (GetUint64 v); [|discriminate]; cbn [obind]).
  all: destruct (HasMember (Parse T buf) "Msg") as [[|]|]; [| |discriminate]; cbn [obind].
  all: try (destruct (member (Parse T buf) "Msg") as [v'|]; [|discriminate]; cbn [obind];
            destruct (GetString_ v'); [|discriminate]; cbn [obind]).
  all: destruct (HasMember (Parse T buf) "CRC") as [[|]|]; [| |discriminate]; cbn [obind].
  all: try (destruct (member (Parse T buf) "CRC") as [v''|]; [|discriminate]; cbn [obind];
            destruct (GetUint v''); [|discriminate]; cbn [obind]).
  all: destruct (HasMember (Parse T buf) "Join_thr") as [[|]|]; [| |discriminate];
    cbn [obind].
  all: try (destruct (member (Parse T buf) "Join_thr") as [v'''|]; [|discriminate];
            cbn [obind]; destruct (GetBool v'''); [|discriminate]; cbn [obind]).
  all: intros H; injection H as <- _; tauto.
Qed.

(** A successful [parseDatagram] has written every member of the datagram:
    what the members held before does not show. *)
Lemma parseDatagram_overwrites (T : target) (a : sockaddr_storage) (buf : list ascii)
    (nb : Z) (d0 d0' d : rxDatagram) :
  parseDatagram T a buf nb d0 = Returns (SUCCESS, d) ->
  parseDatagram T a buf nb d0' = Returns (SUCCESS, d).
Proof.
  unfold parseDatagram.
  destruct (inet_ntop a 32); [|discriminate].
  cbn [obind].
  destruct (HasMember (Parse T buf) "Time") as [[|]|]; [| |discriminate]; cbn [obind].
  all: try (destruct (member (Parse T buf) "Time") as [v|]; [|discriminate]; cbn [obind];
            destruct (GetUint64 v); [|discriminate]; cbn [obind]).
  all: destruct (HasMember (Parse T buf) "Msg") as [[|]|]; [| |discriminate]; cbn [obind].
  all: try (destruct (member (Parse T buf) "Msg") as [v'|]; [|discriminate]; cbn [obind];
            destruct (GetString_ v'); [|discriminate]; cbn [obind]).
  all: destruct (HasMember (Parse T buf) "CRC") as [[|]|]; [| |discriminate]; cbn [obind].
  all: try (destruct (member (Parse T buf) "CRC") as [v''|]; [|discriminate]; cbn [obind];
            destruct (GetUint v''); [|discriminate]; cbn [obind]).
  all: destruct (HasMember (Parse T buf) "Join_thr") as [[|]|]; [| |discriminate];
    cbn [obind].
  all: try (destruct (member (Parse T buf) "Join_thr") as [v'''|]; [|discriminate];
            cbn [obind]; destruct (GetBool v'''); [|discriminate]; cbn [obind]).
  all: congruence.
Qed.

(** *** Laws of the method monad *)

Lemma bind_get {B : Type} (k : UDPNode -> M B) (n : UDPNode) :
  bind get k n = k n n.
Proof. unfold bind, get. now destruct (k n n) as [[o n2] t2]. Qed.

Lemma bind_ret {A B : Type} (a : A) (k : A -> M B) (n : UDPNode) :
  bind (ret a) k n = k a n.
Proof. unfold bind, ret. now destruct (k a n) as [[o n2] t2]. Qed.

Lemma bind_modify {B : Type} (f : UDPNode -> UDPNode) (k : unit -> M B) (n : UDPNode) :
  bind (modify f) k n = k tt (f n).
Proof. unfold bind, modify. now destruct (k tt (f n)) as [[o n2] t2]. Qed.

Lemma bind_emit {B : Type} (e : effect) (k : unit -> M B) (n : UDPNode) :
  bind (emit e) k n
  = (result_of (k tt n), node_after (k tt n), e :: effects_of (k tt n)).
Proof. unfold bind, emit. now destruct (k tt n) as [[o n2] t2]. Qed.

Lemma bind_raise {A B : Type} (f : fault) (k : A -> M B) (n : UDPNode) :
  bind (raise f) k n = (Faults f, n, []).
Proof. reflexivity. Qed.

Lemma bind_assoc {A B C : Type} (m : M A) (k : A -> M B) (h : B -> M C) (n : UDPNode) :
  bind (bind m k) h n = bind m (fun a => bind (k a) h) n.
Proof.
  unfold bind. destruct (m n) as [[[a|f] n1] t1]; [|reflexivity].
  destruct (k a n1) as [[[b|f] n2] t2]; [|reflexivity].
  destruct (h b n2) as [[o n3] t3]. now rewrite app_assoc.
Qed.

Lemma rxLoop_from_cons (T : target) (r : recv_event) (rest : list rx_input)
    (pending : bool) (error_code : err_code) (n : UDPNode) :
  pending = true \/ _stoprecvthread n = false ->
  rxLoop_from T (arrives r :: rest) pending error_code n
  = (pass <- rxLoop_body T r error_code ;;
     let '(break, error_code) := pass in
     if break : bool then rxLoop_epilogue error_code
     else rxLoop_from T rest false error_code) n.
Proof.
  intros H. cbn [rxLoop_from]. rewrite bind_get.
  assert (negb pending && _stoprecvthread n = false) as ->
    by (destruct H as [-> | ->]; [reflexivity|apply andb_false_r]).
  reflexivity.
Qed.

Lemma rxLoop_epilogue_failure (e : err_code) (n : UDPNode) :
  e <> SUCCESS ->
  rxLoop_epilogue e n = (Returns (exited e), n, [cerr (errorMsg e)]).
Proof. intros H. destruct e; [contradiction| reflexivity ..]. Qed.

(** C3, as the code has it: a buffer on which [parseDatagram] fails ends the
    receive loop.  The error is logged, nothing is enqueued, the thread
    function logs the error again and returns, and whatever arrives later
    ([rest]) is never received. *)
Theorem parse_failure_ends_rxLoop (T : target) (n : UDPNode) (r : recv_event)
    (their_addr : sockaddr_storage) (buf : list ascii) (e : err_code)
    (d : rxDatagram) (pending : bool) (rest : list rx_input) :
  pending = true \/ _stoprecvthread n = false ->
  recvfrom n r = Returns (Some (their_addr, buf)) ->
  0 < Z.of_nat (length buf) ->
  parseDatagram T their_addr buf (Z.of_nat (length buf)) fresh_datagram = Returns (e, d) ->
  e = PARSE_TIME_FAILED \/ e = PARSE_MSG_FAILED \/ e = PARSE_CRC_FAILED ->
  rxLoop_body T r SUCCESS n = (Returns (true, e), n, [cerr (errorMsg e)]) /\
  rxLoop_from T (arrives r :: rest) pending SUCCESS n
  = (Returns (exited e), n, [cerr (errorMsg e); cerr (errorMsg e)]).
Proof.
  intros Hhead Hrecv Hlen Hparse He.
  assert (rxLoop_body T r SUCCESS n = (Returns (true, e), n, [cerr (errorMsg e)])) as Hbody.
  { rewrite rxLoop_body_cases, Hrecv.
    apply Z.ltb_lt in Hlen. rewrite Hlen, Hparse.
    destruct He as [-> | [-> | ->]]; reflexivity. }
  split; [exact Hbody|].
  rewrite rxLoop_from_cons by exact Hhead.
  unfold bind. rewrite Hbody.
  rewrite rxLoop_epilogue_failure; [reflexivity|].
  destruct He as [-> | [-> | ->]]; discriminate.
Qed.

Lemma parse_failure_ends_rxLoop_witness :
  rxLoop_body signed_char_target
    (recv_datagram peer (list_ascii_of_string "{}")) SUCCESS receiver
  = (Returns (true, PARSE_CRC_FAILED), receiver, [cerr (errorMsg PARSE_CRC_FAILED)]) /\
  rxLoop_from signed_char_target
    (arrives (recv_datagram peer (list_ascii_of_string "{}"))
     :: [arrives (recv_datagram peer (frame_of signed_char_target "two"))])
    false SUCCESS receiver
  = (Returns (exited PARSE_CRC_FAILED), receiver,
     [cerr (errorMsg PARSE_CRC_FAILED); cerr (errorMsg PARSE_CRC_FAILED)]).
Proof.
  apply (parse_failure_ends_rxLoop signed_char_target receiver
           (recv_datagram peer (list_ascii_of_string "{}")) peer
           (list_ascii_of_string "{}") PARSE_CRC_FAILED
           {| srcport := 5590; srcipaddr := list_ascii_of_string "::1"; time_stamp := 0;
              msg := []; crc_checksum := 0; jointhread := false |}).
  - now right.
  - reflexivity.
  - reflexivity.
  - reflexivity.
  - now right; right.
Defined.

(** C3, as the specification has it, fails: after a datagram that does not
    parse, a well-formed datagram is not received any more, though alone it
    would have been enqueued. *)
Lemma rxLoop_does_not_survive_parse_failure :
  let bad := arrives (recv_datagram peer (list_ascii_of_string "{}")) in
  let good := arrives (recv_datagram peer (frame_of signed_char_target "two")) in
  result_of (rxLoop signed_char_target [bad; good] receiver)
    = Returns (exited PARSE_CRC_FAILED) /\
  _rxqueue (node_after (rxLoop signed_char_target [bad; good] receiver)) = [] /\
  result_of (rxLoop signed_char_target [good] receiver) = Returns blocked /\
  length (_rxqueue (node_after (rxLoop signed_char_target [good] receiver))) = 1%nat.
Proof. vm_compute. repeat split. Qed.

(** ** The enqueue guard *)

(** What a pass guarantees of a datagram it enqueues: it is not the sentinel,
    the queue was below capacity, and [isDatagramValid] accepted it. *)
Lemma rxLoop_body_guarded (T : target) (r : recv_event)
    (error_code : err_code) (n : UDPNode) :
  (node_after (rxLoop_body T r error_code n) = n \/
   exists their_addr buf datagram,
     recvfrom n r = Returns (Some (their_addr, buf)) /\
     parseDatagram T their_addr buf (Z.of_nat (length buf)) fresh_datagram
       = Returns (SUCCESS, datagram) /\
     isDatagramValid T datagram = true /\
     Z.of_nat (length (_rxqueue n)) < _maxqueuesize n /\
     jointhread datagram = false /\
     node_after (rxLoop_body T r error_code n)
       = set_rxqueue (_rxqueue n ++ [datagram]) n) /\
  (forall their_addr buf e datagram,
     recvfrom n r = Returns (Some (their_addr, buf)) ->
     parseDatagram T their_addr buf (Z.of_nat (length buf)) fresh_datagram
       = Returns (e, datagram) ->
     jointhread datagram = true ->
     node_after (rxLoop_body T r error_code n) = n).
Proof.
  split.
  - destruct (rxLoop_body_node T r error_code n)
      as [H | (their_addr & buf & d & Hrecv & Hparse & Hguard & Hn)]; [now left|].
    right. exists their_addr, buf, d.
    apply enqueue_guard_spec in Hguard. tauto.
  - intros their_addr buf e d Hrecv Hparse Hjoin.
    rewrite rxLoop_body_cases, Hrecv, Hparse.
    destruct (0 <? Z.of_nat (length buf)); [|reflexivity].
    destruct (is_SUCCESS e); [|reflexivity].
    unfold enqueue_guard. now rewrite Hjoin.
Qed.

(** C9: the guard of line 164 tests the checksum with [isDatagramValid], and
    where [char] is signed that is not the test of the specification.  The
    frame with the one-byte message 0xFF and the checksum 4294967295 decodes
    to a datagram whose checksum is not the XOR of its bytes (which is 255),
    and a pass of the loop enqueues it; where [char] is unsigned the same
    frame is logged and dropped.  The rest of the claim holds on every target:
    a pass enqueues only a datagram that [isDatagramValid] accepts, with the
    queue below capacity and the join flag clear, and never a datagram whose
    join flag is set; and [isDatagramValid] is the test of the specification
    where [char] is unsigned or no byte of the message is above 0x7F. *)
Theorem rxLoop_enqueues_a_datagram_with_a_wrong_checksum :
  let forged := forged_frame (String "255"%char EmptyString) 4294967295 in
  let d :=
    {| srcport := 5590; srcipaddr := list_ascii_of_string "::1";
       time_stamp := 1700000000; msg := ["255"%char];
       crc_checksum := 4294967295; jointhread := false |} in
  (parseDatagram signed_char_target peer forged (Z.of_nat (length forged)) fresh_datagram
   = Returns (SUCCESS, d) /\
   xorFold (msg d) = 255 /\ xorFold (msg d) <> crc_checksum d /\
   rxLoop_body signed_char_target (recv_datagram peer forged) SUCCESS receiver
   = (Returns (false, SUCCESS), set_rxqueue [d] receiver, []) /\
   rxLoop_body unsigned_char_target (recv_datagram peer forged) SUCCESS receiver
   = (Returns (false, SUCCESS), receiver,
      [cerr "rxloop: CRC Checksum invalid. Discarding... "])) /\
  (forall T r error_code n,
     node_after (rxLoop_body T r error_code n) = n \/
     exists their_addr buf datagram,
       recvfrom n r = Returns (Some (their_addr, buf)) /\
       parseDatagram T their_addr buf (Z.of_nat (length buf)) fresh_datagram
         = Returns (SUCCESS, datagram) /\
       isDatagramValid T datagram = true /\
       Z.of_nat (length (_rxqueue n)) < _maxqueuesize n /\
       jointhread datagram = false /\
       node_after (rxLoop_body T r error_code n)
         = set_rxqueue (_rxqueue n ++ [datagram]) n) /\
  (forall T r error_code n their_addr buf e datagram,
     recvfrom n r = Returns (Some (their_addr, buf)) ->
     parseDatagram T their_addr buf (Z.of_nat (length buf)) fresh_datagram
       = Returns (e, datagram) ->
     jointhread datagram = true ->
     node_after (rxLoop_body T r error_code n) = n) /\
  (forall T datagram,
     char_is_signed T = false \/ Forall (fun c => uchar c < 128) (msg datagram) ->
     isDatagramValid T datagram = (xorFold (msg datagram) =? crc_checksum datagram)).
Proof.
  cbv zeta. split; [|split; [|split]].
  - vm_compute. repeat split; discriminate.
  - intros T r error_code n. apply rxLoop_body_guarded.
  - intros T r error_code n. apply rxLoop_body_guarded.
  - intros T datagram. apply isDatagramValid_unsigned.
Qed.

(** ** The bound on the queue *)

Lemma writeRxDatagramToQueue_appends (d : rxDatagram) (n : UDPNode) :
  writeRxDatagramToQueue d n = (Returns tt, set_rxqueue (_rxqueue n ++ [d]) n, []).
Proof. reflexivity. Qed.

Lemma readRxDatagramFromQueue_cases (n : UDPNode) :
  readRxDatagramFromQueue n =
  match _rxqueue n with
  | [] => (Faults (Undefined EmptyQueueFront), n, [])
  | d :: rest => (Returns d, set_rxqueue rest n, [])
  end.
Proof.
  unfold readRxDatagramFromQueue. rewrite bind_get.
  destruct (_rxqueue n); reflexivity.
Qed.

Lemma rxLoop_body_within_bound (T : target) (r : recv_event) (e : err_code)
    (n : UDPNode) :
  within_bound n -> within_bound (node_after (rxLoop_body T r e n)).
Proof.
  intros Hn.
  destruct (rxLoop_body_node T r e n)
    as [-> | (their_addr & buf & d & _ & _ & Hguard & ->)]; [exact Hn|].
  apply enqueue_guard_spec in Hguard. destruct Hguard as (_ & Hlt & _).
  unfold within_bound in *. cbn [set_rxqueue _rxqueue _maxqueuesize].
  rewrite length_app. cbn [length]. lia.
Qed.

Lemma readRxDatagramFromQueue_within_bound (n : UDPNode) :
  within_bound n -> within_bound (node_after (readRxDatagramFromQueue n)).
Proof.
  intros Hn. rewrite readRxDatagramFromQueue_cases.
  unfold within_bound in *.
  destruct (_rxqueue n) as [|d rest] eqn:Hq; cbn [node_after fst snd].
  - now rewrite Hq.
  - cbn [set_rxqueue _rxqueue _maxqueuesize]. cbn [length] in Hn. lia.
Qed.

Lemma node_after_bind_ret {A : Type} (m : M A) (n : UDPNode) :
  node_after ((m ;; ret tt) n) = node_after (m n).
Proof.
  unfold bind, ret. now destruct (m n) as [[[a|f] n1] t1].
Qed.

Lemma queue_step_within_bound (T : target) (a : queue_action) (n : UDPNode) :
  within_bound n -> within_bound (node_after (queue_step T a n)).
Proof.
  intros Hn. destruct a as [r|]; unfold queue_step; rewrite node_after_bind_ret.
  - now apply rxLoop_body_within_bound.
  - now apply readRxDatagramFromQueue_within_bound.
Qed.

Lemma queue_run_within_bound (T : target) (l : list queue_action) :
  forall n, within_bound n -> within_bound (node_after (queue_run T l n)).
Proof.
  induction l as [|a l IH]; intros n Hn; [exact Hn|].
  cbn [queue_run]. unfold bind.
  pose proof (queue_step_within_bound T a n Hn) as Hstep.
  destruct (queue_step T a n) as [[[[]|f] n1] t1]; cbn [node_after fst snd] in *.
  - specialize (IH n1 Hstep).
    destruct (queue_run T l n1) as [[o n2] t2]. exact IH.
  - exact Hstep.
Qed.

Lemma rxLoop_body_full_queue (T : target) (r : recv_event) (e : err_code)
    (n : UDPNode) :
  _maxqueuesize n <= Z.of_nat (length (_rxqueue n)) ->
  node_after (rxLoop_body T r e n) = n.
Proof.
  intros Hfull.
  destruct (rxLoop_body_node T r e n)
    as [H | (their_addr & buf & d & _ & _ & Hguard & _)]; [exact H|].
  apply enqueue_guard_spec in Hguard. lia.
Qed.

(** C4, as the code has it.  [writeRxDatagramToQueue] appends unconditionally;
    the bound is kept by the guard of the receive loop: a decoded datagram is
    appended exactly when it is not the sentinel, the queue is below
    [_maxqueuesize] and the checksum validates; a pass on a full queue leaves
    the endpoint as it was, so what it dropped cannot be read later; and a
    queue within the bound stays within it under every interleaving of loop
    passes and reads. *)
Theorem rx_queue_bounded_by_loop_guard (T : target) :
  (forall d n,
     writeRxDatagramToQueue d n = (Returns tt, set_rxqueue (_rxqueue n ++ [d]) n, [])) /\
  (forall r e n their_addr buf d,
     recvfrom n r = Returns (Some (their_addr, buf)) ->
     0 < Z.of_nat (length buf) ->
     parseDatagram T their_addr buf (Z.of_nat (length buf)) fresh_datagram
       = Returns (SUCCESS, d) ->
     node_after (rxLoop_body T r e n)
     = if negb (jointhread d)
          && (Z.of_nat (length (_rxqueue n)) <? _maxqueuesize n)
          && isDatagramValid T d
       then set_rxqueue (_rxqueue n ++ [d]) n else n) /\
  (forall r e n,
     _maxqueuesize n <= Z.of_nat (length (_rxqueue n)) ->
     node_after (rxLoop_body T r e n) = n) /\
  (forall l n, within_bound n -> within_bound (node_after (queue_run T l n))).
Proof.
  split; [|split; [|split]].
  - exact writeRxDatagramToQueue_appends.
  - intros r e n their_addr buf d Hrecv Hlen Hparse.
    rewrite rxLoop_body_cases, Hrecv, Hparse.
    apply Z.ltb_lt in Hlen. rewrite Hlen.
    cbn [is_SUCCESS err_code_value Z.eqb node_after fst snd].
    unfold enqueue_guard.
    now destruct (negb (jointhread d)
                  && (Z.of_nat (length (_rxqueue n)) <? _maxqueuesize n)
                  && isDatagramValid T d).
  - intros r e n. apply rxLoop_body_full_queue.
  - intros l n. apply queue_run_within_bound.
Qed.

Lemma rx_queue_bounded_by_loop_guard_witness :
  within_bound
    (node_after
       (queue_run signed_char_target
          [rx_pass (recv_datagram peer (frame_of signed_char_target "one"));
           rx_pass (recv_datagram peer (frame_of signed_char_target "two"));
           rx_pass (recv_datagram peer (frame_of signed_char_target "three"));
           consumer_read]
          small_receiver)).
Proof.
  apply (proj2 (proj2 (proj2 (rx_queue_bounded_by_loop_guard signed_char_target)))).
  unfold within_bound. simpl. lia.
Defined.

(** C4, as the specification has it, fails on either reading of "push":
    [writeRxDatagramToQueue] on a queue that is at capacity appends all the
    same, and the guarded push of the loop refuses a datagram whose checksum
    does not validate although the queue has room. *)
Lemma push_is_not_the_bounded_operation :
  let d := decoded peer 1700000000 (list_ascii_of_string "x") false in
  let full := set_rxqueue [d; d] small_receiver in
  (Z.of_nat (length (_rxqueue full)) = _maxqueuesize full /\
   result_of (writeRxDatagramToQueue d full) = Returns tt /\
   Z.of_nat (length (_rxqueue (node_after (writeRxDatagramToQueue d full)))) = 3) /\
  (let bad := recv_datagram peer (forged_frame "x" 7) in
   Z.of_nat (length (_rxqueue small_receiver)) < _maxqueuesize small_receiver /\
   result_of (rxLoop_body signed_char_target bad SUCCESS small_receiver)
     = Returns (false, SUCCESS) /\
   _rxqueue (node_after (rxLoop_body signed_char_target bad SUCCESS small_receiver)) = []).
Proof. vm_compute. repeat split. Qed.

(** The loop of an endpoint with room for two datagrams, given three: the
    first two are queued in the order of their arrival, the third is dropped
    with a line on [std::cerr], and the loop goes on waiting. *)
Example three_datagrams_into_a_queue_of_two :
  let arrival (m : string) :=
    arrives (recv_datagram peer (frame_of signed_char_target m)) in
  rxLoop signed_char_target
    [arrival "one"%string; arrival "two"%string; arrival "three"%string] small_receiver
  = (Returns blocked,
     set_rxqueue [decoded peer 1700000000 (list_ascii_of_string "one") false;
                  decoded peer 1700000000 (list_ascii_of_string "two") false]
                 small_receiver,
     [cerr "rxloop: Datagram Receive queue is full. Discarding incoming datagrams..."]).
Proof. vm_compute. reflexivity. Qed.

(** ** Reading from the queue *)

(** C5, as the code has it: on a non-empty queue [readRxDatagramFromQueue]
    returns the oldest datagram and removes it (also when a newer one was
    written in between); on an empty queue it is undefined. *)
Theorem readRxDatagramFromQueue_front (n : UDPNode) :
  (forall d rest,
     _rxqueue n = d :: rest ->
     readRxDatagramFromQueue n = (Returns d, set_rxqueue rest n, []) /\
     forall d',
       (writeRxDatagramToQueue d' ;; readRxDatagramFromQueue) n
       = (Returns d, set_rxqueue (rest ++ [d']) n, [])) /\
  (_rxqueue n = [] ->
   readRxDatagramFromQueue n = (Faults (Undefined EmptyQueueFront), n, [])).
Proof.
  split.
  - intros d rest Hq. split.
    + now rewrite readRxDatagramFromQueue_cases, Hq.
    + intros d'. unfold bind at 1. rewrite writeRxDatagramToQueue_appends.
      rewrite readRxDatagramFromQueue_cases.
      cbn [set_rxqueue _rxqueue]. rewrite Hq. cbn [app]. now destruct n.
  - intros Hq. now rewrite readRxDatagramFromQueue_cases, Hq.
Qed.

Lemma readRxDatagramFromQueue_front_witness :
  let first := decoded peer 1700000000 (list_ascii_of_string "one") false in
  let second := decoded peer 1700000001 (list_ascii_of_string "two") false in
  readRxDatagramFromQueue (set_rxqueue [first; second] receiver)
  = (Returns first, set_rxqueue [second] receiver, []).
Proof.
  exact (proj1 (proj1 (readRxDatagramFromQueue_front
                         (set_rxqueue
                            [decoded peer 1700000000 (list_ascii_of_string "one") false;
                             decoded peer 1700000001 (list_ascii_of_string "two") false]
                            receiver))
                      _ _ eq_refl)).
Defined.

(** C5, as the specification has it, fails: reading the empty queue of a
    freshly constructed endpoint is undefined behaviour; no error is
    returned. *)
Lemma read_of_empty_queue_is_undefined :
  result_of (rxDataAvailable receiver) = Returns false /\
  result_of (readRxDatagramFromQueue receiver) = Faults (Undefined EmptyQueueFront).
Proof. split; reflexivity. Qed.

(** ** The transmitter *)

Lemma set_sendsockfd_twice (a b : Z) (n : UDPNode) :
  set_sendsockfd a (set_sendsockfd b n) = set_sendsockfd a n.
Proof. reflexivity. Qed.

Lemma tx_socket_loop_cases (os : syscalls) (candidates : list addrinfo) :
  forall n,
    tx_socket_loop os candidates n =
    (Returns (find (socket_opens os) candidates),
     match candidates, find (socket_opens os) candidates with
     | [], _ => n
     | _ :: _, Some p => set_sendsockfd (socket os p) n
     | _ :: _, None => set_sendsockfd (-1) n
     end,
     socket_attempts os candidates).
Proof.
  induction candidates as [|p rest IH]; intros n; [reflexivity|].
  cbn [tx_socket_loop find socket_attempts].
  rewrite bind_emit, bind_modify.
  destruct (socket_opens os p) eqn:Hopen; unfold socket_opens in Hopen.
  - apply negb_true_iff in Hopen. rewrite Hopen. reflexivity.
  - apply negb_false_iff in Hopen. rewrite Hopen, IH.
    cbn [result_of node_after effects_of fst snd].
    apply Z.eqb_eq in Hopen. rewrite Hopen.
    destruct rest as [|q rest']; [reflexivity|].
    destruct (find (socket_opens os) (q :: rest')); reflexivity.
Qed.

Lemma find_socket_opens (os : syscalls) (candidates : list addrinfo) (p : addrinfo) :
  find (socket_opens os) candidates = Some p -> socket os p <> -1.
Proof.
  intros H. apply find_some in H. destruct H as [_ H].
  unfold socket_opens in H. apply negb_true_iff, Z.eqb_neq in H. exact H.
Qed.

(** What a call of [tx] does, by the results of its system calls. *)
Lemma tx_cases (T : target) (os : syscalls) (destport : Z) (ver : ipFamily)
    (host m : list ascii) (j : bool) (n : UDPNode) :
  tx T os destport ver host m j n =
  match getaddrinfo os (c_str host) destport ver with
  | gai_error rv =>
      (Faults (Undefined IndeterminateValue), n,
       [cerr ("tx: getaddrinfo: " ++ gai_strerror os rv)])
  | gai_ok res =>
      match find (socket_opens os) res with
      | None =>
          (Faults (Undefined NullPointer),
           match res with [] => n | _ :: _ => set_sendsockfd (-1) n end,
           socket_attempts os res ++ [cerr "tx: failed to create socket"])
      | Some p =>
          (Returns (if sendto os (socket os p) (tx_payload T os m j) (ai_addr p) =? -1
                    then SENDTO_FAILED else SUCCESS),
           set_sendsockfd (-1) n,
           socket_attempts os res ++
           [sys_sendto (socket os p) (tx_payload T os m j) (ai_addr p);
            sys_freeaddrinfo; sys_close (socket os p)])
      end
  end.
Proof.
  unfold tx.
  destruct (getaddrinfo os (c_str host) destport ver) as [rv|res].
  - rewrite bind_assoc, bind_emit, bind_ret. reflexivity.
  - rewrite bind_ret. unfold bind at 1. rewrite tx_socket_loop_cases.
    destruct res as [|q res'].
    + cbn [find]. rewrite bind_assoc, bind_emit, bind_ret. reflexivity.
    + destruct (find (socket_opens os) (q :: res')) as [p|] eqn:Hfind.
      * pose proof (find_socket_opens os _ p Hfind) as Hfd.
        apply Z.eqb_neq in Hfd.
        rewrite bind_ret, bind_get. cbn [_sendsockfd set_sendsockfd].
        rewrite bind_emit, bind_emit, bind_get. cbn [_sendsockfd set_sendsockfd].
        rewrite Hfd. cbn [negb when].
        rewrite bind_assoc, bind_emit, bind_modify. unfold tx_payload.
        reflexivity.
      * rewrite bind_assoc, bind_emit, bind_ret. reflexivity.
Qed.

Lemma tx_returns_only_two_codes (T : target) (os : syscalls) (destport : Z)
    (ver : ipFamily) (host m : list ascii) (j : bool) (n n' : UDPNode)
    (e : err_code) (t : list effect) :
  tx T os destport ver host m j n = (Returns e, n', t) ->
  (e = SUCCESS \/ e = SENDTO_FAILED) /\
  n' = set_sendsockfd (-1) n /\
  exists fd pre dest,
    fd <> -1 /\
    t = pre ++ [sys_sendto fd (tx_payload T os m j) dest; sys_freeaddrinfo; sys_close fd].
Proof.
  rewrite tx_cases.
  destruct (getaddrinfo os (c_str host) destport ver) as [rv|res]; [discriminate|].
  destruct (find (socket_opens os) res) as [p|] eqn:Hfind; [|discriminate].
  intros H. injection H as <- <- <-. split; [|split].
  - destruct (sendto os (socket os p) (tx_payload T os m j) (ai_addr p) =? -1); tauto.
  - reflexivity.
  - exists (socket os p), (socket_attempts os res), (ai_addr p).
    split; [|reflexivity]. now apply (find_socket_opens os res).
Qed.

(** C8: where resolving or creating a socket fails, [tx] does not get as far
    as returning the error code it has set: it reads the result list that
    [getaddrinfo] never wrote, or it dereferences the null candidate in the
    call of [sendto].  Only a failing [sendto] is reported, with the socket
    closed before the return. *)
Theorem tx_faults_on_resolution_and_socket_failure :
  tx signed_char_target os_unresolved 3490 ipv4
     (list_ascii_of_string "no.such.host") (list_ascii_of_string "hi") false receiver
  = (Faults (Undefined IndeterminateValue), receiver,
     [cerr "tx: getaddrinfo: Name or service not known"]) /\
  tx signed_char_target os_no_socket 3490 ipv6
     (list_ascii_of_string "::1") (list_ascii_of_string "hi") false receiver
  = (Faults (Undefined NullPointer), receiver,
     [sys_socket loopback (-1); cerr "tx: failed to create socket"]) /\
  tx signed_char_target os_refused 3490 ipv6
     (list_ascii_of_string "::1") (list_ascii_of_string "hi") false receiver
  = (Returns SENDTO_FAILED, receiver,
     [sys_socket loopback 4;
      sys_sendto 4 (tx_payload signed_char_target os_refused (list_ascii_of_string "hi") false)
                 (ai_addr loopback);
      sys_freeaddrinfo; sys_close 4]) /\
  (forall T os destport ver host m j n e n' t,
     tx T os destport ver host m j n = (Returns e, n', t) ->
     e <> GETADDRINFO_FAILED /\ e <> SOCKET_CONN_FAILED).
Proof.
  split; [|split; [|split]]; try (rewrite tx_cases; reflexivity).
  intros T os destport ver host m j n e n' t H.
  apply tx_returns_only_two_codes in H.
  destruct H as [[-> | ->] _]; split; discriminate.
Qed.

(** ** Starting and stopping the receive thread *)

Lemma startRxLoop_cases (n : UDPNode) :
  startRxLoop n =
  match _rxthread n with
  | joinable => (Faults Terminate, set_stoprecvthread false n, [thread_spawn])
  | not_joinable =>
      (Returns tt, set_rxthread joinable (set_stoprecvthread false n), [thread_spawn])
  end.
Proof.
  unfold startRxLoop. rewrite bind_modify, bind_emit, bind_get.
  cbn [_rxthread set_stoprecvthread]. destruct (_rxthread n); reflexivity.
Qed.

Lemma endRxLoop_cases (T : target) (os : syscalls) (n : UDPNode) :
  endRxLoop T os n =
  match tx T os (_listenport n) (_listenipver n) (list_ascii_of_string "localhost")
           (list_ascii_of_string "Goodbye") true (set_stoprecvthread true n) with
  | (Returns _, n1, t1) => (Returns tt, after_tx n1, t1 ++ after_tx_effects n1)
  | (Faults f, n1, t1) => (Faults f, n1, t1)
  end.
Proof.
  unfold endRxLoop. rewrite bind_modify, bind_get.
  cbn [_listenport _listenipver set_stoprecvthread].
  unfold bind at 1.
  destruct (tx T os (_listenport n) (_listenipver n) (list_ascii_of_string "localhost")
              (list_ascii_of_string "Goodbye") true (set_stoprecvthread true n))
    as [[[e|f] n1] t1]; [|reflexivity].
  rewrite bind_get. unfold after_tx, after_tx_effects.
  destruct (_rxthread n1) eqn:Hthread; cbn [is_joinable when].
  - rewrite bind_ret, bind_get.
    destruct (_listensockfd n1 =? -1) eqn:Hfd; cbn [negb when]; [reflexivity|].
    rewrite bind_emit. reflexivity.
  - rewrite bind_assoc, bind_emit, bind_modify, bind_get.
    cbn [_listensockfd set_rxthread].
    destruct (_listensockfd n1 =? -1) eqn:Hfd; cbn [negb when]; [reflexivity|].
    rewrite bind_emit. reflexivity.
Qed.

Lemma rxLoop_on_closed_socket (T : target) (n : UDPNode) (r : recv_event)
    (rest : list rx_input) :
  _listensockfd n = -1 -> _stoprecvthread n = false ->
  rxLoop T (arrives r :: rest) n
  = (Returns (exited RECVFROM_FAILED), n, [cerr (errorMsg RECVFROM_FAILED)]).
Proof.
  intros Hfd Hstop. unfold rxLoop.
  rewrite rxLoop_from_cons by (now right).
  unfold bind. rewrite rxLoop_body_cases. unfold recvfrom. rewrite Hfd.
  reflexivity.
Qed.

(** C6, as the code has it.  [startRxLoop] on an endpoint whose receive thread
    is still joinable launches a second loop and then calls [std::terminate].
    When [endRxLoop] has returned, the thread is joined and the listening
    socket is closed; a following [startRxLoop] returns and launches a new
    loop, whose first [recvfrom], on the closed descriptor, fails, so that the
    loop ends with [RECVFROM_FAILED] whatever arrives. *)
Theorem startRxLoop_aborts_when_running_and_restart_cannot_receive :
  (forall n,
     _rxthread n = joinable ->
     startRxLoop n = (Faults Terminate, set_stoprecvthread false n, [thread_spawn])) /\
  (forall T os n n' t,
     endRxLoop T os n = (Returns tt, n', t) ->
     _rxthread n' = not_joinable /\
     _listensockfd n' = -1 /\
     startRxLoop n'
     = (Returns tt, set_rxthread joinable (set_stoprecvthread false n'), [thread_spawn]) /\
     forall T' r rest,
       rxLoop T' (arrives r :: rest) (node_after (startRxLoop n'))
       = (Returns (exited RECVFROM_FAILED), node_after (startRxLoop n'),
          [cerr (errorMsg RECVFROM_FAILED)])).
Proof.
  split.
  - intros n Hn. now rewrite startRxLoop_cases, Hn.
  - intros T os n n' t. rewrite endRxLoop_cases.
    destruct (tx T os (_listenport n) (_listenipver n) (list_ascii_of_string "localhost")
                (list_ascii_of_string "Goodbye") true (set_stoprecvthread true n))
      as [[[e|f] n1] t1]; [|discriminate].
    intros H. injection H as <- _.
    assert (_rxthread (after_tx n1) = not_joinable) as Hthread.
    { unfold after_tx. destruct (_rxthread n1) eqn:E; cbn [is_joinable];
        destruct (_listensockfd _ =? -1); cbn; (exact E || reflexivity). }
    assert (_listensockfd (after_tx n1) = -1) as Hfd.
    { unfold after_tx.
      destruct (_listensockfd (if is_joinable (_rxthread n1)
                               then set_rxthread not_joinable n1 else n1) =? -1) eqn:E;
        [now apply Z.eqb_eq in E|reflexivity]. }
    assert (startRxLoop (after_tx n1)
            = (Returns tt, set_rxthread joinable (set_stoprecvthread false (after_tx n1)),
               [thread_spawn])) as Hstart
      by (now rewrite startRxLoop_cases, Hthread).
    repeat split; try assumption.
    intros T' r rest. rewrite Hstart. cbn [node_after fst snd].
    apply rxLoop_on_closed_socket; [exact Hfd|reflexivity].
Qed.

Lemma startRxLoop_aborts_when_running_and_restart_cannot_receive_witness :
  let stopped := node_after (endRxLoop signed_char_target os_ok small_receiver) in
  _rxthread stopped = not_joinable /\
  _listensockfd stopped = -1 /\
  startRxLoop stopped
  = (Returns tt, set_rxthread joinable (set_stoprecvthread false stopped), [thread_spawn]).
Proof.
  pose proof (proj2 startRxLoop_aborts_when_running_and_restart_cannot_receive
                signed_char_target os_ok small_receiver
                (node_after (endRxLoop signed_char_target os_ok small_receiver))
                (effects_of (endRxLoop signed_char_target os_ok small_receiver))
                eq_refl) as H.
  exact (conj (proj1 H) (conj (proj1 (proj2 H)) (proj1 (proj2 (proj2 H))))).
Defined.

(** C6, as the specification has it, fails twice.  A second [startRxLoop] on
    the running endpoint is no no-op: a second loop is launched and the
    program is terminated.  And after a stop a restarted loop does not
    receive: given a well-formed datagram it ends with [RECVFROM_FAILED] and an
    empty queue. *)
Lemma second_start_terminates_and_restart_fails :
  let running := node_after (startRxLoop receiver) in
  let restarted :=
    node_after (startRxLoop (node_after (endRxLoop signed_char_target os_ok running))) in
  _rxthread running = joinable /\
  startRxLoop running = (Faults Terminate, running, [thread_spawn]) /\
  result_of (endRxLoop signed_char_target os_ok running) = Returns tt /\
  rxLoop signed_char_target
    [arrives (recv_datagram peer (frame_of signed_char_target "one"))] restarted
  = (Returns (exited RECVFROM_FAILED), restarted, [cerr (errorMsg RECVFROM_FAILED)]) /\
  _rxqueue restarted = [].
Proof. vm_compute. repeat split. Qed.

(** ** Stopping an idle endpoint *)





(** ** The round trip through the codec *)

(** C1, as the code has it: a message without a NUL byte comes back from
    [serialize] and [parseDatagram] as it was, with the checksum of the
    specification and no shutdown flag, for a sender whose address text fits
    the 32 bytes [parseDatagram] reserves for it. *)
Theorem roundtrip_of_NUL_free_message (T : target) (their_addr : sockaddr_storage)
    (now numbytes : Z) (d0 : rxDatagram) (m : list ascii) :
  ~ In NUL m ->
  Z.of_nat (length (presentation their_addr)) < 32 ->
  exists d,
    parseDatagram T their_addr (GetString (serialize T now m false)) numbytes d0
    = Returns (SUCCESS, d) /\
    msg d = m /\ crc_checksum d = xorFold m /\ jointhread d = false.
Proof.
  intros Hm Haddr. exists (decoded their_addr now m false).
  split; [now apply parseDatagram_serialize|].
  unfold decoded. cbn [msg crc_checksum jointhread].
  now rewrite (c_str_no_NUL m Hm).
Qed.

Lemma roundtrip_of_NUL_free_message_witness :
  exists d,
    parseDatagram signed_char_target peer
      (GetString (serialize signed_char_target 1700000000
                    (list_ascii_of_string "Today is a good day to try") false))
      60 fresh_datagram
    = Returns (SUCCESS, d) /\
    msg d = list_ascii_of_string "Today is a good day to try" /\
    crc_checksum d = xorFold (list_ascii_of_string "Today is a good day to try") /\
    jointhread d = false.
Proof.
  apply (roundtrip_of_NUL_free_message signed_char_target peer 1700000000 60
           fresh_datagram (list_ascii_of_string "Today is a good day to try")).
  - apply clean_spec. reflexivity.
  - simpl. lia.
Defined.

(** C1, as the specification has it, fails: a three-byte message with a NUL
    in the middle is decoded as its first byte; and the frame of any message,
    received from a peer whose address text is longer than 31 characters, is
    not decoded at all. *)
Lemma roundtrip_loses_bytes_after_NUL :
  let m := ["a"%char; NUL; "b"%char] in
  Z.of_nat (length m) < 1024 /\
  (exists d,
     parseDatagram signed_char_target peer
       (GetString (serialize signed_char_target 1700000000 m false)) 40 fresh_datagram
     = Returns (SUCCESS, d) /\
     msg d = ["a"%char] /\ msg d <> m /\ crc_checksum d <> xorFold m) /\
  parseDatagram signed_char_target distant_peer (frame_of signed_char_target "hi") 40
    fresh_datagram
  = Faults (Undefined NullString).
Proof.
  split; [reflexivity|]. split.
  - eexists. split; [vm_compute; reflexivity|]. repeat split; discriminate.
  - vm_compute. reflexivity.
Qed.

(** ** Checksum validation and the sign of [char] *)

(** C2: where [char] is signed, [isDatagramValid] does not compare the
    unsigned fold.  The datagram that [serialize] and [parseDatagram] make of
    the one-byte message 0xFF carries the checksum 255 of the specification
    and is rejected; with 4294967295 in its place it would be accepted.  The
    same holds of the three bytes E2 82 AC, the euro sign in UTF-8.  Where
    [char] is unsigned both datagrams are accepted. *)
Theorem isDatagramValid_sign_extends :
  let m := ["255"%char] in
  let d := decoded peer 1700000000 m false in
  let euro := decoded peer 1700000000 ["226"%char; "130"%char; "172"%char] false in
  parseDatagram signed_char_target peer
    (GetString (serialize signed_char_target 1700000000 m false)) 40 fresh_datagram
  = Returns (SUCCESS, d) /\
  crc_checksum d = 255 /\ xorFold (msg d) = crc_checksum d /\
  isDatagramValid signed_char_target d = false /\
  isDatagramValid signed_char_target
    {| srcport := srcport d; srcipaddr := srcipaddr d; time_stamp := time_stamp d;
       msg := m; crc_checksum := 4294967295; jointhread := false |} = true /\
  xorFold (msg euro) = crc_checksum euro /\
  isDatagramValid signed_char_target euro = false /\
  isDatagramValid unsigned_char_target d = true /\
  isDatagramValid unsigned_char_target euro = true.
Proof. vm_compute. repeat split. Qed.

(** ** Truncation at NUL on encode *)

(** C10: the frame [serialize] writes carries, as [Msg], the bytes of the
    message before its first NUL, and as [CRC] their XOR; that is the whole
    message when it holds no NUL. *)
Theorem serialize_stops_at_first_NUL (T : target) (now : Z) (m : list ascii) (j : bool) :
  let document := Parse T (GetString (serialize T now m j)) in
  member document "Msg" = Returns (kString (c_str m)) /\
  member document "CRC" = Returns (kNumber (Integer (xorFold (c_str m)))) /\
  (forall p rest, m = p ++ NUL :: rest -> ~ In NUL p -> c_str m = p) /\
  (~ In NUL m -> c_str m = m).
Proof.
  cbv zeta. rewrite Parse_serialize. unfold frame_members.
  rewrite serialize_crc_xorFold.
  split; [reflexivity|]. split; [reflexivity|]. split.
  - intros p rest -> Hp. now apply c_str_app_NUL.
  - apply c_str_no_NUL.
Qed.

Lemma serialize_stops_at_first_NUL_witness :
  member (Parse signed_char_target
            (GetString (serialize signed_char_target 1700000000
                          ["a"%char; NUL; "b"%char] false))) "Msg"
  = Returns (kString ["a"%char]).
Proof.
  exact (proj1 (serialize_stops_at_first_NUL signed_char_target 1700000000
                  ["a"%char; NUL; "b"%char] false)).
Defined.

(** ** The checksum test and the bytes above 0x7F *)

Lemma xorFold_from (l : list ascii) (acc : Z) :
  fold_left (fun acc c => Z.lxor acc (uchar c)) l acc = Z.lxor acc (xorFold l).
Proof.
  revert acc. unfold xorFold. induction l as [|c l IH]; intros acc.
  - cbn [fold_left]. now rewrite Z.lxor_0_r.
  - cbn [fold_left]. rewrite IH, (IH (Z.lxor 0 (uchar c))).
    now rewrite Z.lxor_0_l, Z.lxor_assoc.
Qed.

(** A [char] converted to [unsigned int]: its byte, with the sign bits set
    when the [char] is negative. *)
Lemma to_uint_char_to_int (T : target) (c : ascii) :
  to_uint (char_to_int T c)
  = Z.lxor (uchar c) (if char_is_signed T && (128 <=? uchar c) then sign_bits else 0).
Proof.
  unfold char_to_int, to_uint, sign_bits.
  destruct (char_is_signed T); each_char c; vm_compute; reflexivity.
Qed.

Lemma lxor_shuffle (a u s x g : Z) :
  Z.lxor (Z.lxor a (Z.lxor u s)) (Z.lxor x g)
  = Z.lxor a (Z.lxor (Z.lxor u x) (Z.lxor s g)).
Proof.
  apply Z.bits_inj'. intros i _. rewrite !Z.lxor_spec.
  destruct (Z.testbit a i), (Z.testbit u i), (Z.testbit s i), (Z.testbit x i),
    (Z.testbit g i); reflexivity.
Qed.

Lemma high_bytes_cons (c : ascii) (l : list ascii) :
  high_bytes (c :: l) = if 128 <=? uchar c then S (high_bytes l) else high_bytes l.
Proof. unfold high_bytes. cbn [filter]. now destruct (128 <=? uchar c). Qed.

Lemma isDatagramValid_fold (T : target) (l : list ascii) :
  forall acc,
    fold_left (fun crc c => Z.lxor crc (to_uint (char_to_int T c))) l acc
    = Z.lxor acc (Z.lxor (xorFold l)
                         (if char_is_signed T && Nat.odd (high_bytes l)
                          then sign_bits else 0)).
Proof.
  induction l as [|c l IH]; intros acc.
  - cbn [fold_left]. rewrite andb_false_r. now rewrite !Z.lxor_0_r.
  - cbn [fold_left]. rewrite IH, to_uint_char_to_int, lxor_shuffle.
    f_equal. f_equal.
    + unfold xorFold at 2. cbn [fold_left]. now rewrite xorFold_from, Z.lxor_0_l.
    + rewrite high_bytes_cons.
      destruct (char_is_signed T); [|reflexivity]. cbn [andb].
      destruct (128 <=? uchar c); [|reflexivity].
      rewrite Nat.odd_succ, <- Nat.negb_odd.
      destruct (Nat.odd (high_bytes l)); reflexivity.
Qed.

Lemma lxor_sign_bits (x : Z) : Z.lxor x sign_bits <> x.
Proof.
  intros H.
  assert (Z.lxor x (Z.lxor x sign_bits) = Z.lxor x x) as E by (now rewrite H).
  rewrite <- Z.lxor_assoc, Z.lxor_nilpotent, Z.lxor_0_l in E. discriminate E.
Qed.

Lemma isDatagramValid_sign_fold (T : target) (d : rxDatagram) :
  isDatagramValid T d
  = (Z.lxor (xorFold (msg d))
            (if char_is_signed T && Nat.odd (high_bytes (msg d)) then sign_bits else 0)
     =? crc_checksum d).
Proof.
  unfold isDatagramValid. cbv zeta. now rewrite isDatagramValid_fold, Z.lxor_0_l.
Qed.

Lemma isDatagramValid_parity (T : target) (d : rxDatagram) :
  crc_checksum d = xorFold (msg d) ->
  isDatagramValid T d = negb (char_is_signed T && Nat.odd (high_bytes (msg d))).
Proof.
  intros Hcrc. rewrite isDatagramValid_sign_fold, Hcrc.
  destruct (char_is_signed T && Nat.odd (high_bytes (msg d))); cbn [negb].
  - apply Z.eqb_neq, lxor_sign_bits.
  - rewrite Z.lxor_0_r. apply Z.eqb_refl.
Qed.

Lemma isDatagramValid_decoded (T : target) (a : sockaddr_storage) (now : Z)
    (m : list ascii) (j : bool) :
  isDatagramValid T (decoded a now m j)
  = negb (char_is_signed T && Nat.odd (high_bytes (c_str m))).
Proof. now apply isDatagramValid_parity. Qed.

(** X1: what [isDatagramValid] computes, for every message and either
    signedness of [char]: the XOR of the bytes, with the bits 0xFFFFFF00 set
    when [char] is signed and the message has an odd number of bytes above
    0x7F.  A datagram that carries the XOR of its bytes as checksum is
    therefore accepted exactly when [char] is unsigned or that number is
    even. *)
Theorem isDatagramValid_counts_high_bytes (T : target) (d : rxDatagram) :
  isDatagramValid T d
  = (Z.lxor (xorFold (msg d))
            (if char_is_signed T && Nat.odd (high_bytes (msg d)) then sign_bits else 0)
     =? crc_checksum d) /\
  (crc_checksum d = xorFold (msg d) ->
   isDatagramValid T d = negb (char_is_signed T && Nat.odd (high_bytes (msg d)))).
Proof.
  split; [apply isDatagramValid_sign_fold|apply isDatagramValid_parity].
Qed.

Lemma isDatagramValid_counts_high_bytes_witness :
  let two_byte := decoded peer 1700000000 ["195"%char; "169"%char] false in
  isDatagramValid signed_char_target two_byte = true.
Proof.
  exact (proj2 (isDatagramValid_counts_high_bytes signed_char_target
                  (decoded peer 1700000000 ["195"%char; "169"%char] false))
               eq_refl).
Defined.

(** ** The frame as text *)

Lemma tx_payload_whole (T : target) (os : syscalls) (m : list ascii) (j : bool) :
  tx_payload T os m j = GetString (serialize T (time_ os) m j).
Proof. unfold tx_payload. apply c_str_no_NUL, clean_spec, clean_serialize. Qed.

Lemma WriteEscaped_length (c : ascii) :
  (1 <= length (WriteEscaped c) <= 6)%nat.
Proof. each_char c; vm_compute; lia. Qed.

Lemma WriteString_length (s : list ascii) :
  (length s <= length (flat_map WriteEscaped s) <= 6 * length s)%nat.
Proof.
  induction s as [|c s IH]; [simpl; lia|].
  cbn [flat_map]. rewrite length_app.
  pose proof (WriteEscaped_length c). cbn [length]. lia.
Qed.

Lemma utoa_rec_length (fuel : nat) :
  forall (k : nat) (n : Z) (acc : list ascii),
    0 <= n < 10 ^ Z.of_nat k -> (1 <= k <= fuel)%nat ->
    (1 + length acc <= length (utoa_rec fuel n acc) <= k + length acc)%nat.
Proof.
  induction fuel as [|fuel IH]; intros k n acc Hn Hk; [lia|].
  cbn [utoa_rec].
  destruct (Z.eqb_spec (n / 10) 0) as [Hq|Hq].
  - cbn [length]. lia.
  - assert (10 <= n) as Hten.
    { destruct (Z_lt_le_dec n 10) as [Hlt|Hge]; [|exact Hge].
      exfalso. apply Hq. apply Z.div_small. lia. }
    destruct k as [|k]; [lia|].
    destruct k as [|k].
    { simpl in Hn. lia. }
    assert (0 <= n / 10 < 10 ^ Z.of_nat (S k)) as Hn'.
    { split; [apply Z.div_pos; lia|].
      apply Z.div_lt_upper_bound; [lia|].
      replace (10 ^ Z.of_nat (S (S k))) with (10 * 10 ^ Z.of_nat (S k)) in Hn; [lia|].
      rewrite (Nat2Z.inj_succ (S k)), Z.pow_succ_r; lia. }
    specialize (IH (S k) (n / 10) (digit_char (n mod 10) :: acc) Hn' ltac:(lia)).
    cbn [length] in IH. lia.
Qed.

Lemma utoa_length (k : nat) (n : Z) :
  0 <= n < 10 ^ Z.of_nat k -> (1 <= k <= 20)%nat ->
  (1 <= length (utoa n) <= k)%nat.
Proof.
  intros Hn Hk. pose proof (utoa_rec_length 20 k n [] Hn Hk) as H.
  cbn [length] in H. unfold utoa. lia.
Qed.

Lemma serialize_length (T : target) (now : Z) (m : list ascii) (j : bool) :
  (strlen m + 27 + (if j then 16 else 0)
   <= length (GetString (serialize T now m j))
   <= 6 * strlen m + 48 + (if j then 16 else 0))%nat.
Proof.
  pose proof (to_uint64_range now) as Hnow.
  pose proof (serialize_crc_range T m) as Hcrc.
  pose proof (utoa_length 20 (to_uint64 now) ltac:(simpl; lia) ltac:(lia)) as Ht.
  pose proof (utoa_length 3 (serialize_crc T m) ltac:(simpl; lia) ltac:(lia)) as Hc.
  pose proof (WriteString_length (c_str m)) as Hm.
  rewrite serialize_text. unfold key, strlen.
  destruct j;
    repeat (cbn [length list_ascii_of_string app]; rewrite ?length_app);
    cbn [length list_ascii_of_string app]; lia.
Qed.

(** X2: the frame [serialize] builds holds no NUL byte, whatever the message.
    So the [strlen] by which [tx] measures the frame is its whole length:
    [tx] hands the whole frame to [sendto], and the frame parses to the
    members [serialize] wrote. *)
Theorem tx_hands_over_the_whole_frame (T : target) (os : syscalls) (m : list ascii)
    (j : bool) :
  ~ In NUL (GetString (serialize T (time_ os) m j)) /\
  tx_payload T os m j = GetString (serialize T (time_ os) m j) /\
  Parse T (tx_payload T os m j) = kObject (frame_members T (time_ os) m j).
Proof.
  split; [apply clean_spec, clean_serialize|].
  split; [apply tx_payload_whole|].
  rewrite tx_payload_whole. apply Parse_serialize.
Qed.

(** X3: the size of a frame, by the length [L] of the message up to its first
    NUL: between [L + 27] and [6 L + 48] bytes, and 16 more with the join
    flag (an escaped byte takes up to six characters, the time stamp up to
    twenty digits, the checksum up to three). *)
Theorem frame_length_bounds (T : target) (now : Z) (m : list ascii) (j : bool) :
  (strlen m + 27 + (if j then 16 else 0)
   <= length (GetString (serialize T now m j))
   <= 6 * strlen m + 48 + (if j then 16 else 0))%nat.
Proof. apply serialize_length. Qed.

(** ** What a frame carries besides the message *)

(** X4: the datagram decoded from a frame carries the sender's clock reading,
    for every value of [time_t], and the join flag as it was given.  Its
    [srcipaddr] is the text of the peer's address; its [srcport] is the member
    [sin_port] of the peer's address as it is stored, that is in network byte
    order: [getInPort] applies no [ntohs], so that on a little-endian host
    [srcport] is not the number of the peer's port. *)
Theorem frame_carries_time_and_flag (T : target) (a : sockaddr_storage)
    (now numbytes : Z) (d0 : rxDatagram) (m : list ascii) (j : bool) :
  Z.of_nat (length (presentation a)) < 32 ->
  - 2 ^ 63 <= now < 2 ^ 63 ->
  exists d,
    parseDatagram T a (GetString (serialize T now m j)) numbytes d0
    = Returns (SUCCESS, d) /\
    time_stamp d = now /\ jointhread d = j /\
    srcport d = sin_port a /\ srcipaddr d = presentation a.
Proof.
  intros Haddr Hnow. exists (decoded a now m j).
  split; [now apply parseDatagram_serialize|].
  unfold decoded. cbn [time_stamp jointhread srcport srcipaddr].
  rewrite to_time_t_to_uint64 by exact Hnow. auto.
Qed.

Lemma frame_carries_time_and_flag_witness :
  exists d,
    parseDatagram signed_char_target peer
      (GetString (serialize signed_char_target (-1) (list_ascii_of_string "Goodbye") true))
      60 fresh_datagram
    = Returns (SUCCESS, d) /\
    time_stamp d = -1 /\ jointhread d = true /\
    srcport d = sin_port peer /\ srcipaddr d = presentation peer.
Proof.
  apply (frame_carries_time_and_flag signed_char_target peer (-1) 60 fresh_datagram
           (list_ascii_of_string "Goodbye") true).
  - simpl. lia.
  - lia.
Defined.

(** ** From [tx] to the queue of the receiver *)

(** A datagram shorter than the buffer is received whole. *)
Lemma recvfrom_whole (n : UDPNode) (a : sockaddr_storage) (payload : list ascii) :
  _listensockfd n <> -1 ->
  1 <= _maxmessagesize n < 2 ^ 32 ->
  Z.of_nat (length payload) < _maxmessagesize n ->
  recvfrom n (recv_datagram a payload) = Returns (Some (a, payload)).
Proof.
  intros Hfd Hmax Hlen. unfold recvfrom.
  apply Z.eqb_neq in Hfd. rewrite Hfd.
  unfold to_uint. rewrite Z.mod_small by lia.
  rewrite firstn_all2 by lia.
  destruct (Z.leb_spec (Z.of_nat (length payload)) (_maxmessagesize n)); [reflexivity|lia].
Qed.

(** A pass of the loop over a frame of [serialize] that arrives whole. *)
Lemma rxLoop_body_frame (T : target) (os : syscalls) (a : sockaddr_storage)
    (m : list ascii) (j : bool) (e : err_code) (n : UDPNode) :
  _listensockfd n <> -1 ->
  1 <= _maxmessagesize n < 2 ^ 32 ->
  Z.of_nat (length (tx_payload T os m j)) < _maxmessagesize n ->
  Z.of_nat (length (presentation a)) < 32 ->
  rxLoop_body T (recv_datagram a (tx_payload T os m j)) e n
  = (Returns (false, SUCCESS),
     (if enqueue_guard T n (decoded a (time_ os) m j)
      then set_rxqueue (_rxqueue n ++ [decoded a (time_ os) m j]) n else n),
     pass_log T n (decoded a (time_ os) m j)).
Proof.
  intros Hfd Hmax Hlen Haddr.
  rewrite rxLoop_body_cases, (recvfrom_whole n a _ Hfd Hmax Hlen).
  rewrite tx_payload_whole.
  pose proof (length_serialize T (time_ os) m j) as Hsix.
  destruct (Z.ltb_spec 0 (Z.of_nat (length (GetString (serialize T (time_ os) m j)))));
    [|lia].
  now rewrite (parseDatagram_serialize T a (time_ os) m j _ _ Haddr).
Qed.

(** X5: what the receive loop does with a frame that [tx] sent and that
    arrives whole.  The pass does not end the loop.  The decoded datagram is
    appended to the queue when the queue has room and [char] is unsigned or
    the message has an even number of bytes above 0x7F; otherwise the endpoint
    is left as it was.  A rejected checksum and a full queue are each logged
    with one line. *)
Theorem sent_frame_is_queued_or_dropped (T : target) (os : syscalls)
    (a : sockaddr_storage) (m : list ascii) (e : err_code) (n : UDPNode) :
  _listensockfd n <> -1 ->
  1 <= _maxmessagesize n < 2 ^ 32 ->
  Z.of_nat (length (tx_payload T os m false)) < _maxmessagesize n ->
  Z.of_nat (length (presentation a)) < 32 ->
  let valid := negb (char_is_signed T && Nat.odd (high_bytes (c_str m))) in
  let room := Z.of_nat (length (_rxqueue n)) <? _maxqueuesize n in
  rxLoop_body T (recv_datagram a (tx_payload T os m false)) e n
  = (Returns (false, SUCCESS),
     (if room && valid
      then set_rxqueue (_rxqueue n ++ [decoded a (time_ os) m false]) n else n),
     (if valid then [] else [cerr "rxloop: CRC Checksum invalid. Discarding... "]) ++
     (if _maxqueuesize n <=? to_uint (to_int (Z.of_nat (length (_rxqueue n))))
      then [cerr "rxloop: Datagram Receive queue is full. Discarding incoming datagrams..."]
      else [])).
Proof.
  intros Hfd Hmax Hlen Haddr. cbv zeta.
  rewrite rxLoop_body_frame by assumption.
  unfold enqueue_guard, pass_log. rewrite isDatagramValid_decoded.
  cbn [jointhread decoded negb andb].
  reflexivity.
Qed.

Lemma sent_frame_is_queued_or_dropped_witness :
  let euro := ["226"%char; "130"%char; "172"%char] in
  rxLoop_body signed_char_target
    (recv_datagram peer (tx_payload signed_char_target os_ok euro false)) SUCCESS receiver
  = (Returns (false, SUCCESS), receiver,
     [cerr "rxloop: CRC Checksum invalid. Discarding... "]) /\
  rxLoop_body unsigned_char_target
    (recv_datagram peer (tx_payload unsigned_char_target os_ok euro false)) SUCCESS receiver
  = (Returns (false, SUCCESS),
     set_rxqueue [decoded peer 1700000000 euro false] receiver, []).
Proof.
  split.
  - rewrite (sent_frame_is_queued_or_dropped signed_char_target os_ok peer
               ["226"%char; "130"%char; "172"%char] SUCCESS receiver).
    + reflexivity.
    + discriminate.
    + simpl. lia.
    + vm_compute. reflexivity.
    + simpl. lia.
  - rewrite (sent_frame_is_queued_or_dropped unsigned_char_target os_ok peer
               ["226"%char; "130"%char; "172"%char] SUCCESS receiver).
    + reflexivity.
    + discriminate.
    + simpl. lia.
    + vm_compute. reflexivity.
    + simpl. lia.
Defined.

(** ** Datagrams that are not frames *)

Lemma Consume_value (word : string) (v v' : Value) (inp rest : list ascii) :
  Consume word v inp = Some (v', rest) -> v' = v.
Proof.
  unfold Consume. destruct (bytes_eqb _ _); [|discriminate].
  intros H. now injection H as <- _.
Qed.

Lemma ParseNumber_kNumber (T : target) (inp rest : list ascii) (v : Value) :
  ParseNumber T inp = Some (v, rest) -> exists n, v = kNumber n.
Proof.
  unfold ParseNumber. destruct (ParseSign inp) as [minus inp1].
  destruct (ParseInt inp1) as [[int_part inp2]|]; [|discriminate].
  destruct (ParseFrac inp2) as [[frac_part inp3]|]; [|discriminate].
  destruct (ParseExp inp3) as [[exp_part rest']|]; [|discriminate].
  cbv zeta.
  match goal with |- context [if ?b then Some _ else _] => destruct b end.
  - intros H. injection H as <- _. eauto.
  - destruct (double_in_range T _); [|discriminate].
    intros H. injection H as <- _. eauto.
Qed.

(** Only a text that begins with a brace is read as an object. *)
Lemma ParseValue_kObject (T : target) (fuel : nat) (inp rest : list ascii)
    (ms : list (list ascii * Value)) :
  ParseValue T fuel inp = Some (kObject ms, rest) -> Peek inp = "{"%char.
Proof.
  destruct fuel as [|fuel]; [discriminate|].
  cbn [ParseValue].
  destruct (Ascii.eqb (Peek inp) "n").
  { intros H. apply Consume_value in H. discriminate. }
  destruct (Ascii.eqb (Peek inp) "t").
  { intros H. apply Consume_value in H. discriminate. }
  destruct (Ascii.eqb (Peek inp) "f").
  { intros H. apply Consume_value in H. discriminate. }
  destruct (Ascii.eqb (Peek inp) dquote).
  { destruct (ParseStringToStream _) as [[s r]|]; discriminate. }
  destruct (Ascii.eqb_spec (Peek inp) "{") as [E|_]; [intros _; exact E|].
  destruct (Ascii.eqb (Peek inp) "[").
  { destruct (Ascii.eqb _ "]"); [discriminate|].
    destruct (ParseElements _ _ _) as [[es r]|]; discriminate. }
  intros H. apply ParseNumber_kNumber in H. destruct H as [n H]. discriminate.
Qed.

Lemma Parse_kObject (T : target) (buf : list ascii) (ms : list (list ascii * Value)) :
  Parse T buf = kObject ms -> Peek (SkipWhitespace (c_str buf)) = "{"%char.
Proof.
  unfold Parse. cbv zeta.
  destruct (ParseValue T _ _) as [[v rest]|] eqn:E; [|discriminate].
  destruct (SkipWhitespace rest); [|discriminate].
  intros ->. now apply ParseValue_kObject in E.
Qed.

Lemma HasMember_non_object (d : Value) (name : string) :
  (forall ms, d <> kObject ms) -> HasMember d name = Faults AssertionFailure.
Proof. intros H. destruct d; try reflexivity. now destruct (H members). Qed.

Lemma parseDatagram_non_object (T : target) (a : sockaddr_storage) (buf : list ascii)
    (nb : Z) (d0 : rxDatagram) :
  Z.of_nat (length (presentation a)) < 32 ->
  (forall ms, Parse T buf <> kObject ms) ->
  parseDatagram T a buf nb d0 = Faults AssertionFailure.
Proof.
  intros Haddr Hobj. unfold parseDatagram, inet_ntop.
  destruct (Z.leb_spec (Z.of_nat (length (presentation a)) + 1) 32); [|lia].
  cbn [obind]. now rewrite HasMember_non_object.
Qed.

(** X6: a datagram whose text does not begin, after white space, with an
    opening brace (plain text, a JSON array or number, an empty text) is not
    answered with a [PARSE_*] code: the document is no object and the first
    [HasMember] of [parseDatagram] fails its assertion, in the receive loop as
    well. *)
Theorem datagram_that_is_no_object_asserts (T : target) (a : sockaddr_storage)
    (buf : list ascii) (nb : Z) (d0 : rxDatagram) :
  Z.of_nat (length (presentation a)) < 32 ->
  Peek (SkipWhitespace (c_str buf)) <> "{"%char ->
  parseDatagram T a buf nb d0 = Faults AssertionFailure /\
  forall n r e,
    recvfrom n r = Returns (Some (a, buf)) ->
    0 < Z.of_nat (length buf) ->
    rxLoop_body T r e n = (Faults AssertionFailure, n, []).
Proof.
  intros Haddr Hbrace.
  assert (forall nb' d0', parseDatagram T a buf nb' d0' = Faults AssertionFailure) as H.
  { intros nb' d0'. apply parseDatagram_non_object; [exact Haddr|].
    intros ms Hms. apply Hbrace. now apply Parse_kObject in Hms. }
  split; [apply H|].
  intros n r e Hrecv Hlen. rewrite rxLoop_body_cases, Hrecv.
  apply Z.ltb_lt in Hlen. now rewrite Hlen, H.
Qed.

Lemma datagram_that_is_no_object_asserts_witness :
  rxLoop_body signed_char_target (recv_datagram peer (list_ascii_of_string "hello"))
    SUCCESS receiver
  = (Faults AssertionFailure, receiver, []).
Proof.
  apply (proj2 (datagram_that_is_no_object_asserts signed_char_target peer
                  (list_ascii_of_string "hello") 5 fresh_datagram
                  ltac:(simpl; lia) ltac:(discriminate))).
  - reflexivity.
  - simpl. lia.
Defined.

(** X7: when [parseDatagram] returns at all.  It does exactly when the text of
    the peer's address fits the 32 bytes reserved for it, the buffer parses to
    a JSON object, and each of the members [Time], [Msg], [CRC] and [Join_thr]
    is absent or of the type its accessor asserts (an unsigned 64-bit
    integer, a string, an unsigned 32-bit integer, a boolean). *)
Theorem parseDatagram_returns_iff_members_typed (T : target) (a : sockaddr_storage)
    (buf : list ascii) (nb : Z) (d0 : rxDatagram) :
  answers (parseDatagram T a buf nb d0)
  = (Z.of_nat (length (presentation a)) + 1 <=? 32) &&
    match Parse T buf with
    | kObject ms =>
        member_ok ms "Time" GetUint64 && member_ok ms "Msg" GetString_ &&
        member_ok ms "CRC" GetUint && member_ok ms "Join_thr" GetBool
    | _ => false
    end.
Proof.
  unfold parseDatagram, inet_ntop.
  destruct (Z.of_nat (length (presentation a)) + 1 <=? 32); [|reflexivity].
  cbn [obind andb].
  destruct (Parse T buf) as [| | |ms| | |]; try reflexivity.
  unfold member_ok, HasMember, member.
  destruct (FindMember ms (list_ascii_of_string "Time")) as [v1|]; cbn [obind].
  1: destruct (GetUint64 v1); cbn [obind answers andb]; [|reflexivity].
  all: destruct (FindMember ms (list_ascii_of_string "Msg")) as [v2|]; cbn [obind].
  all: try (destruct (GetString_ v2); cbn [obind answers andb]; [|reflexivity]).
  all: destruct (FindMember ms (list_ascii_of_string "CRC")) as [v3|]; cbn [obind].
  all: try (destruct (GetUint v3); cbn [obind answers andb]; [|reflexivity]).
  all: destruct (FindMember ms (list_ascii_of_string "Join_thr")) as [v4|]; cbn [obind].
  all: try (destruct (GetBool v4); cbn [obind answers andb]; reflexivity).
  all: reflexivity.
Qed.

Lemma parseDatagram_fields (T : target) (a : sockaddr_storage) (buf : list ascii)
    (nb : Z) (d0 d : rxDatagram) (e : err_code) :
  parseDatagram T a buf nb d0 = Returns (e, d) ->
  exists t m c j,
    HasMember (Parse T buf) "Time" = Returns t /\
    HasMember (Parse T buf) "Msg" = Returns m /\
    HasMember (Parse T buf) "CRC" = Returns c /\
    HasMember (Parse T buf) "Join_thr" = Returns j /\
    e = (if c : bool then
           if m : bool then if t : bool then SUCCESS else PARSE_TIME_FAILED
           else PARSE_MSG_FAILED
         else PARSE_CRC_FAILED) /\
    (t = false -> time_stamp d = time_stamp d0) /\
    (m = false -> msg d = msg d0) /\
    (c = false -> crc_checksum d = crc_checksum d0) /\
    (j = false -> jointhread d = false) /\
    srcport d = sin_port a /\ srcipaddr d = presentation a.
Proof.
  unfold parseDatagram, inet_ntop, getInPort.
  destruct (Z.of_nat (length (presentation a)) + 1 <=? 32); [|discriminate].
  cbn [obind].
  destruct (Parse T buf) as [| | |ms| | |]; try discriminate.
  unfold HasMember, member.
  destruct (FindMember ms (list_ascii_of_string "Time")) as [v1|]; cbn [obind].
  1: destruct (GetUint64 v1); cbn [obind]; [|discriminate].
  all: destruct (FindMember ms (list_ascii_of_string "Msg")) as [v2|]; cbn [obind].
  all: try (destruct (GetString_ v2); cbn [obind]; [|discriminate]).
  all: destruct (FindMember ms (list_ascii_of_string "CRC")) as [v3|]; cbn [obind].
  all: try (destruct (GetUint v3); cbn [obind]; [|discriminate]).
  all: destruct (FindMember ms (list_ascii_of_string "Join_thr")) as [v4|]; cbn [obind].
  all: try (destruct (GetBool v4); cbn [obind]; [|discriminate]).
  all: intros H; injection H as <- <-;
    do 4 eexists; (repeat (split; [reflexivity|]));
    cbn [time_stamp msg crc_checksum jointhread srcport srcipaddr];
    repeat split; try reflexivity; try discriminate; intros; try reflexivity.
Qed.

(** X8: the code [parseDatagram] returns is that of the last of its three
    checks that failed: a missing [CRC] hides a missing [Msg], which hides a
    missing [Time].  The members of the datagram that correspond to missing
    keys are left as they were and an absent [Join_thr] reads as false;
    [srcipaddr] is the text of the peer's address and [srcport] the member
    [sin_port] of that address as stored (network byte order, no [ntohs]). *)
Theorem parseDatagram_reports_last_missing_key (T : target) (a : sockaddr_storage)
    (buf : list ascii) (nb : Z) (d0 d : rxDatagram) (e : err_code) :
  parseDatagram T a buf nb d0 = Returns (e, d) ->
  exists t m c j,
    HasMember (Parse T buf) "Time" = Returns t /\
    HasMember (Parse T buf) "Msg" = Returns m /\
    HasMember (Parse T buf) "CRC" = Returns c /\
    HasMember (Parse T buf) "Join_thr" = Returns j /\
    e = (if c : bool then
           if m : bool then if t : bool then SUCCESS else PARSE_TIME_FAILED
           else PARSE_MSG_FAILED
         else PARSE_CRC_FAILED) /\
    (t = false -> time_stamp d = time_stamp d0) /\
    (m = false -> msg d = msg d0) /\
    (c = false -> crc_checksum d = crc_checksum d0) /\
    (j = false -> jointhread d = false) /\
    srcport d = sin_port a /\ srcipaddr d = presentation a.
Proof. apply parseDatagram_fields. Qed.

Lemma parseDatagram_reports_last_missing_key_witness :
  exists t m c j,
    HasMember (Parse signed_char_target (list_ascii_of_string "{}")) "Time" = Returns t /\
    HasMember (Parse signed_char_target (list_ascii_of_string "{}")) "Msg" = Returns m /\
    HasMember (Parse signed_char_target (list_ascii_of_string "{}")) "CRC" = Returns c /\
    HasMember (Parse signed_char_target (list_ascii_of_string "{}")) "Join_thr"
      = Returns j /\
    PARSE_CRC_FAILED
    = (if c : bool then
         if m : bool then if t : bool then SUCCESS else PARSE_TIME_FAILED
         else PARSE_MSG_FAILED
       else PARSE_CRC_FAILED) /\
    (t = false -> time_stamp fresh_datagram = time_stamp fresh_datagram) /\
    (m = false -> msg fresh_datagram = msg fresh_datagram) /\
    (c = false -> crc_checksum fresh_datagram = crc_checksum fresh_datagram) /\
    (j = false -> jointhread fresh_datagram = false) /\
    5590 = sin_port peer /\ list_ascii_of_string "::1" = presentation peer.
Proof.
  exact (parseDatagram_reports_last_missing_key signed_char_target peer
           (list_ascii_of_string "{}") 2 fresh_datagram
           {| srcport := 5590; srcipaddr := list_ascii_of_string "::1";
              time_stamp := 0; msg := []; crc_checksum := 0; jointhread := false |}
           PARSE_CRC_FAILED eq_refl).
Defined.

Lemma Parse_c_str (T : target) (buf : list ascii) : Parse T (c_str buf) = Parse T buf.
Proof. unfold Parse. now rewrite c_str_idempotent. Qed.

Lemma parseDatagram_c_str (T : target) (a : sockaddr_storage) (buf : list ascii)
    (nb nb' : Z) (d0 : rxDatagram) :
  parseDatagram T a buf nb d0 = parseDatagram T a (c_str buf) nb' d0.
Proof. unfold parseDatagram. now rewrite Parse_c_str. Qed.

(** X9: [parseDatagram] reads its buffer as a C string and never looks at
    [numbytes]: what follows the first NUL of a datagram is ignored, so a
    frame followed by a NUL and anything else is decoded as the frame. *)
Theorem parseDatagram_ignores_bytes_after_NUL (T : target) (a : sockaddr_storage)
    (p tail : list ascii) (nb nb' : Z) (d0 : rxDatagram) :
  ~ In NUL p ->
  parseDatagram T a (p ++ NUL :: tail) nb d0 = parseDatagram T a p nb' d0.
Proof.
  intros Hp.
  rewrite (parseDatagram_c_str T a (p ++ NUL :: tail) nb nb').
  rewrite (parseDatagram_c_str T a p nb' nb').
  now rewrite c_str_app_NUL, c_str_no_NUL.
Qed.

Lemma parseDatagram_ignores_bytes_after_NUL_witness :
  parseDatagram signed_char_target peer
    (frame_of signed_char_target "hi" ++ NUL :: list_ascii_of_string "anything") 40
    fresh_datagram
  = parseDatagram signed_char_target peer (frame_of signed_char_target "hi") 31
      fresh_datagram.
Proof.
  apply (parseDatagram_ignores_bytes_after_NUL signed_char_target peer
           (frame_of signed_char_target "hi") (list_ascii_of_string "anything") 40 31
           fresh_datagram).
  apply clean_spec. reflexivity.
Defined.

(** ** The receive buffer *)

Lemma recvfrom_stored (n : UDPNode) (r : recv_event) (a : sockaddr_storage)
    (buf : list ascii) :
  1 <= _maxmessagesize n < 2 ^ 32 ->
  recvfrom n r = Returns (Some (a, buf)) ->
  Z.of_nat (length buf) < _maxmessagesize n /\
  exists payload,
    r = recv_datagram a payload /\
    buf = firstn (Z.to_nat (_maxmessagesize n - 1)) payload.
Proof.
  intros Hmax. unfold recvfrom.
  destruct (_listensockfd n =? -1); [discriminate|].
  destruct r as [|a' payload]; [discriminate|].
  unfold to_uint. rewrite Z.mod_small by lia.
  destruct (_ <=? _); [|discriminate].
  intros H. injection H as <- <-. split.
  - rewrite length_firstn. lia.
  - now exists payload.
Qed.

Lemma recvfrom_no_fault (n : UDPNode) (r : recv_event) (f : fault) :
  1 <= _maxmessagesize n < 2 ^ 32 -> recvfrom n r <> Faults f.
Proof.
  intros Hmax. unfold recvfrom.
  destruct (_listensockfd n =? -1); [discriminate|].
  destruct r as [|a payload]; [discriminate|].
  unfold to_uint. rewrite Z.mod_small by lia.
  destruct (Z.leb_spec (Z.of_nat (length (firstn (Z.to_nat (_maxmessagesize n - 1)) payload)))
              (_maxmessagesize n)) as [_|H]; [discriminate|].
  rewrite length_firstn in H. lia.
Qed.

Lemma asserts_Returns {A : Type} (a : A) : asserts (Returns a).
Proof. intros f H. discriminate. Qed.

Lemma asserts_obind {A B : Type} (o : outcome A) (k : A -> outcome B) :
  asserts o -> (forall a, asserts (k a)) -> asserts (obind o k).
Proof.
  intros Ho Hk f. destruct o as [a|g]; cbn [obind].
  - apply Hk.
  - intros H. injection H as <-. now apply Ho.
Qed.

Lemma asserts_HasMember (d : Value) (name : string) : asserts (HasMember d name).
Proof. intros f. destruct d; cbn; congruence. Qed.

Lemma asserts_member (d : Value) (name : string) : asserts (member d name).
Proof.
  intros f. destruct d; cbn; try congruence.
  destruct (FindMember _ _); congruence.
Qed.

Lemma asserts_GetUint64 (v : Value) : asserts (GetUint64 v).
Proof.
  intros f. destruct v as [| | | | | |[z|l]]; cbn -[Z.pow]; try congruence.
  destruct (_ && _); congruence.
Qed.

Lemma asserts_GetUint (v : Value) : asserts (GetUint v).
Proof.
  intros f. destruct v as [| | | | | |[z|l]]; cbn -[Z.pow]; try congruence.
  destruct (_ && _); congruence.
Qed.

Lemma asserts_GetString (v : Value) : asserts (GetString_ v).
Proof. intros f. destruct v; cbn; congruence. Qed.

Lemma asserts_GetBool (v : Value) : asserts (GetBool v).
Proof. intros f. destruct v; cbn; congruence. Qed.

(** The two ways in which [parseDatagram] does not return. *)
Lemma parseDatagram_faults (T : target) (a : sockaddr_storage) (buf : list ascii)
    (nb : Z) (d0 : rxDatagram) (f : fault) :
  parseDatagram T a buf nb d0 = Faults f ->
  f = AssertionFailure \/ f = Undefined NullString.
Proof.
  unfold parseDatagram.
  destruct (inet_ntop a 32) as [s|]; cbn [obind].
  2:{ intros H. injection H as <-. now right. }
  intros H. left. revert f H.
  match goal with |- forall f, ?o = Faults f -> _ => change (asserts o) end.
  repeat first
    [ apply asserts_Returns | apply asserts_HasMember | apply asserts_member
    | apply asserts_GetUint64 | apply asserts_GetUint | apply asserts_GetString
    | apply asserts_GetBool
    | apply asserts_obind
    | intros []
    | intros ? ].
Qed.

Lemma rxLoop_body_faults (T : target) (r : recv_event) (e : err_code) (n : UDPNode)
    (f : fault) :
  result_of (rxLoop_body T r e n) = Faults f ->
  f = AssertionFailure \/ f = Undefined NullString \/ f = Undefined BufferOverrun.
Proof.
  rewrite rxLoop_body_cases.
  destruct (recvfrom n r) as [[[a buf]|]|g] eqn:Hrecv.
  - destruct (0 <? Z.of_nat (length buf)); [|discriminate].
    destruct (parseDatagram T a buf _ fresh_datagram) as [[e' d]|g] eqn:Hparse.
    + destruct (is_SUCCESS e'); discriminate.
    + cbn [result_of fst]. intros H. injection H as <-.
      apply parseDatagram_faults in Hparse. tauto.
  - discriminate.
  - cbn [result_of fst]. intros H. injection H as <-.
    unfold recvfrom in Hrecv.
    destruct (_listensockfd n =? -1); [discriminate|].
    destruct r as [|a payload]; [discriminate|].
    destruct (_ <=? _); [discriminate|]. injection Hrecv as <-. tauto.
Qed.

Lemma rxLoop_body_no_overrun (T : target) (r : recv_event) (e : err_code) (n : UDPNode) :
  1 <= _maxmessagesize n < 2 ^ 32 ->
  result_of (rxLoop_body T r e n) <> Faults (Undefined BufferOverrun).
Proof.
  intros Hmax. rewrite rxLoop_body_cases.
  destruct (recvfrom n r) as [[[a buf]|]|g] eqn:Hrecv.
  - destruct (0 <? Z.of_nat (length buf)); [|discriminate].
    destruct (parseDatagram T a buf _ fresh_datagram) as [[e' d]|g] eqn:Hparse.
    + destruct (is_SUCCESS e'); discriminate.
    + cbn [result_of fst]. intros H. injection H as ->.
      apply parseDatagram_faults in Hparse. destruct Hparse; discriminate.
  - discriminate.
  - now apply recvfrom_no_fault in Hrecv.
Qed.

Lemma rxLoop_body_zero_buffer (T : target) (a : sockaddr_storage) (c : ascii)
    (payload : list ascii) (e : err_code) (n : UDPNode) :
  _maxmessagesize n = 0 -> _listensockfd n <> -1 ->
  rxLoop_body T (recv_datagram a (c :: payload)) e n
  = (Faults (Undefined BufferOverrun), n, []).
Proof.
  intros Hmax Hfd. rewrite rxLoop_body_cases. unfold recvfrom.
  apply Z.eqb_neq in Hfd. rewrite Hfd, Hmax.
  destruct (Z.to_nat (to_uint (0 - 1))) as [|k] eqn:Hk.
  - exfalso. assert (to_uint (0 - 1) = 4294967295) as E by reflexivity. lia.
  - cbn [firstn length]. rewrite Nat2Z.inj_succ.
    destruct (Z.leb_spec (Z.succ (Z.of_nat (length (firstn k payload)))) 0) as [H|_];
      [lia|reflexivity].
Qed.

(** X10: the receive buffer.  With a message size of at least one, what
    [recvfrom] stores is a prefix of the datagram of at most
    [_maxmessagesize - 1] bytes, which leaves room for the terminator the loop
    writes after it, and no pass of the loop writes past the buffer.  With a
    message size of zero the length asked for wraps to 4294967295 and any
    datagram that is not empty overruns the (empty) buffer. *)
Theorem receive_buffer_is_overrun_only_when_empty (T : target) :
  (forall n r e,
     1 <= _maxmessagesize n < 2 ^ 32 ->
     result_of (rxLoop_body T r e n) <> Faults (Undefined BufferOverrun) /\
     forall a buf,
       recvfrom n r = Returns (Some (a, buf)) ->
       Z.of_nat (length buf) < _maxmessagesize n /\
       exists payload,
         r = recv_datagram a payload /\
         buf = firstn (Z.to_nat (_maxmessagesize n - 1)) payload) /\
  (forall n a c payload e,
     _maxmessagesize n = 0 -> _listensockfd n <> -1 ->
     rxLoop_body T (recv_datagram a (c :: payload)) e n
     = (Faults (Undefined BufferOverrun), n, [])).
Proof.
  split.
  - intros n r e Hmax. split; [now apply rxLoop_body_no_overrun|].
    intros a buf. now apply recvfrom_stored.
  - intros n a c payload e. apply rxLoop_body_zero_buffer.
Qed.

Lemma receive_buffer_is_overrun_only_when_empty_witness :
  result_of (rxLoop_body signed_char_target
               (recv_datagram peer (frame_of signed_char_target "hi")) SUCCESS receiver)
    <> Faults (Undefined BufferOverrun) /\
  rxLoop_body signed_char_target (recv_datagram peer (frame_of signed_char_target "hi"))
    SUCCESS bufferless_receiver
  = (Faults (Undefined BufferOverrun), bufferless_receiver, []).
Proof.
  split.
  - apply (proj1 (receive_buffer_is_overrun_only_when_empty signed_char_target)
             receiver). simpl. lia.
  - apply (proj2 (receive_buffer_is_overrun_only_when_empty signed_char_target)
             bufferless_receiver peer "{"%char);
      [reflexivity|discriminate].
Defined.

(** ** Stopping a loop that waits in [recvfrom] *)

Lemma enqueue_guard_deliverable (T : target) (n : UDPNode) (d : rxDatagram) :
  enqueue_guard T n d = true -> deliverable T d = true.
Proof.
  unfold enqueue_guard, deliverable. rewrite !andb_true_iff. tauto.
Qed.

(** A pass appends at most one datagram, one that the guard let through. *)
Lemma rxLoop_body_appends (T : target) (r : recv_event) (e : err_code) (n : UDPNode) :
  exists added,
    node_after (rxLoop_body T r e n) = set_rxqueue (_rxqueue n ++ added) n /\
    (length added <= 1)%nat /\
    forallb (deliverable T) added = true.
Proof.
  destruct (rxLoop_body_node T r e n) as [H | (a & buf & d & _ & _ & Hguard & H)].
  - exists []. rewrite H, app_nil_r, set_rxqueue_same. repeat split. simpl. lia.
  - exists [d]. rewrite H. repeat split; [simpl; lia|].
    cbn [forallb]. now rewrite (enqueue_guard_deliverable T n d Hguard).
Qed.

Lemma rxLoop_body_keeps_flag (T : target) (r : recv_event) (e : err_code) (n : UDPNode) :
  _stoprecvthread (node_after (rxLoop_body T r e n)) = _stoprecvthread n.
Proof.
  destruct (rxLoop_body_appends T r e n) as (added & -> & _). reflexivity.
Qed.

Lemma rxLoop_from_stopped (T : target) (inputs : list rx_input) (e : err_code)
    (n : UDPNode) :
  _stoprecvthread n = true ->
  rxLoop_from T inputs false e n = rxLoop_epilogue e n.
Proof.
  intros Hstop. destruct inputs as [|[r|] rest]; cbn [rxLoop_from];
    rewrite bind_get, Hstop; reflexivity.
Qed.

Lemma rxLoop_stop_alone (T : target) (n : UDPNode) :
  _stoprecvthread n = false ->
  rxLoop T [stop_requested] n = (Returns blocked, set_stoprecvthread true n, []).
Proof.
  intros Hstop. unfold rxLoop. cbn [rxLoop_from]. rewrite bind_get, Hstop.
  cbn [negb andb]. rewrite bind_modify. cbn [rxLoop_from]. now rewrite bind_get.
Qed.

Lemma rxLoop_stop_then_arrival (T : target) (r : recv_event) (rest : list rx_input)
    (n : UDPNode) :
  _stoprecvthread n = false ->
  rxLoop T (stop_requested :: arrives r :: rest) n
  = (pass <- rxLoop_body T r SUCCESS ;; rxLoop_epilogue (snd pass))
      (set_stoprecvthread true n).
Proof.
  intros Hstop. unfold rxLoop.
  change (rxLoop_from T (stop_requested :: arrives r :: rest) false SUCCESS)
    with (n0 <- get ;;
          if negb false && _stoprecvthread n0 then rxLoop_epilogue SUCCESS
          else modify (set_stoprecvthread true) ;;
               rxLoop_from T (arrives r :: rest) true SUCCESS).
  rewrite bind_get, Hstop. cbn [negb andb]. rewrite bind_modify.
  rewrite rxLoop_from_cons by (now left).
  unfold bind.
  pose proof (rxLoop_body_keeps_flag T r SUCCESS (set_stoprecvthread true n)) as Hflag.
  destruct (rxLoop_body T r SUCCESS (set_stoprecvthread true n)) as [[[[brk e]|f] n1] t1];
    [|reflexivity].
  cbn [node_after fst snd _stoprecvthread set_stoprecvthread] in Hflag.
  cbn [snd]. destruct brk; [reflexivity|].
  now rewrite rxLoop_from_stopped.
Qed.

(** X11: the stop flag is read between two datagrams only.  A loop that waits
    in [recvfrom] when the flag is set goes on waiting; the next datagram is
    handled by a pass like any other (and queued, if the guard lets it
    through), and then the loop ends with the code that pass left, whatever
    would arrive later. *)
Theorem stop_is_noticed_at_the_next_datagram (T : target) (n : UDPNode)
    (r : recv_event) (rest : list rx_input) :
  _stoprecvthread n = false ->
  rxLoop T [stop_requested] n = (Returns blocked, set_stoprecvthread true n, []) /\
  rxLoop T (stop_requested :: arrives r :: rest) n
  = (pass <- rxLoop_body T r SUCCESS ;; rxLoop_epilogue (snd pass))
      (set_stoprecvthread true n).
Proof.
  intros Hstop. split; [now apply rxLoop_stop_alone|now apply rxLoop_stop_then_arrival].
Qed.

Lemma stop_is_noticed_at_the_next_datagram_witness :
  let last := recv_datagram peer (frame_of signed_char_target "last") in
  let late := arrives (recv_datagram peer (frame_of signed_char_target "late")) in
  rxLoop signed_char_target [stop_requested; arrives last; late] small_receiver
  = (Returns (exited SUCCESS),
     set_rxqueue [decoded peer 1700000000 (list_ascii_of_string "last") false]
                 (set_stoprecvthread true small_receiver),
     []).
Proof.
  cbv zeta.
  rewrite (proj2 (stop_is_noticed_at_the_next_datagram signed_char_target small_receiver
                    (recv_datagram peer (frame_of signed_char_target "last"))
                    [arrives (recv_datagram peer (frame_of signed_char_target "late"))]
                    eq_refl)).
  vm_compute. reflexivity.
Defined.

(** X12: the frame [endRxLoop] sends to its own port ends a loop that waits
    with the stop flag set: the loop returns without an error and the frame is
    not queued.  Nothing is logged, unless the queue is full. *)
Theorem sentinel_ends_the_loop_unqueued (T : target) (os : syscalls)
    (a : sockaddr_storage) (rest : list rx_input) (n : UDPNode) :
  _stoprecvthread n = false ->
  _listensockfd n <> -1 ->
  1 <= _maxmessagesize n < 2 ^ 32 ->
  Z.of_nat (length (sentinel T os)) < _maxmessagesize n ->
  Z.of_nat (length (presentation a)) < 32 ->
  rxLoop T (stop_requested :: arrives (recv_datagram a (sentinel T os)) :: rest) n
  = (Returns (exited SUCCESS), set_stoprecvthread true n,
     if _maxqueuesize n <=? to_uint (to_int (Z.of_nat (length (_rxqueue n))))
     then [cerr "rxloop: Datagram Receive queue is full. Discarding incoming datagrams..."]
     else []).
Proof.
  intros Hstop Hfd Hmax Hlen Haddr.
  rewrite rxLoop_stop_then_arrival by exact Hstop.
  unfold bind, sentinel in *.
  rewrite rxLoop_body_frame; try assumption.
  unfold enqueue_guard, pass_log. cbn [jointhread decoded negb andb snd].
  rewrite isDatagramValid_parity by reflexivity.
  assert (high_bytes (msg (decoded a (time_ os) (list_ascii_of_string "Goodbye") true)) = 0%nat)
    as -> by reflexivity.
  cbn [Nat.odd Nat.even]. rewrite andb_false_r. cbn [negb app].
  cbn [_maxqueuesize _rxqueue set_stoprecvthread].
  unfold rxLoop_epilogue. cbn [is_SUCCESS err_code_value Z.eqb negb when].
  rewrite bind_ret. cbn [ret]. now rewrite app_nil_r.
Qed.

Lemma sentinel_ends_the_loop_unqueued_witness :
  rxLoop signed_char_target
    [stop_requested; arrives (recv_datagram peer (sentinel signed_char_target os_ok))]
    small_receiver
  = (Returns (exited SUCCESS), set_stoprecvthread true small_receiver, []).
Proof.
  rewrite (sentinel_ends_the_loop_unqueued signed_char_target os_ok peer []
             small_receiver).
  - reflexivity.
  - reflexivity.
  - discriminate.
  - simpl. lia.
  - vm_compute. reflexivity.
  - simpl. lia.
Defined.

(** ** What a consumer reads *)

Lemma queue_reads_conserves (T : target) (l : list queue_action) :
  forall n ds n' t,
    queue_reads T l n = (Returns ds, n', t) ->
    exists accepted,
      ds ++ _rxqueue n' = _rxqueue n ++ accepted /\
      (length accepted <= passes_in l)%nat /\
      forallb (deliverable T) accepted = true.
Proof.
  induction l as [|[r|] l IH]; intros n ds n' t.
  - intros H. injection H as <- <- <-. exists []. now rewrite app_nil_r.
  - cbn [queue_reads passes_in]. unfold bind.
    destruct (rxLoop_body_appends T r SUCCESS n) as (added & Hn1 & Hlen & Hadd).
    destruct (rxLoop_body T r SUCCESS n) as [[[x|f] n1] t1]; [|discriminate].
    cbn [node_after fst snd] in Hn1.
    destruct (queue_reads T l n1) as [[res n2] t2] eqn:Hrun.
    intros H. injection H as -> <- <-.
    destruct (IH _ _ _ _ Hrun) as (accepted & Heq & Hlen' & Hall).
    exists (added ++ accepted). split; [|split].
    + rewrite Heq, Hn1. cbn [_rxqueue set_rxqueue]. now rewrite app_assoc.
    + rewrite length_app. lia.
    + now rewrite forallb_app, Hadd, Hall.
  - cbn [queue_reads passes_in]. unfold bind.
    rewrite readRxDatagramFromQueue_cases.
    destruct (_rxqueue n) as [|d rest] eqn:Hq; [discriminate|].
    destruct (queue_reads T l (set_rxqueue rest n)) as [[[ds'|f] n2] t2] eqn:Hrun;
      [|discriminate].
    cbn [ret]. intros H. injection H as <- <- <-.
    destruct (IH _ _ _ _ Hrun) as (accepted & Heq & Hlen' & Hall).
    exists accepted. split; [|split]; [|exact Hlen'|exact Hall].
    cbn [_rxqueue set_rxqueue] in Heq. cbn [app]. now rewrite Heq.
Qed.

Lemma printDatagram_verdict (T : target) (d : rxDatagram) :
  isDatagramValid T d = true ->
  exists head,
    printDatagram T d
    = head ++ list_ascii_of_string "CRC checksum valid" ++ endl ++ endl.
Proof.
  intros H. unfold printDatagram. rewrite H.
  exists (list_ascii_of_string "Source Port: " ++ utoa (srcport d) ++ endl ++
          list_ascii_of_string "Source IP Address: " ++ srcipaddr d ++ endl ++
          list_ascii_of_string "Time Stamp: " ++ itoa (time_stamp d) ++ endl ++
          list_ascii_of_string "Message: " ++ msg d ++ endl ++
          list_ascii_of_string "CRC Checksum: " ++ utoa (crc_checksum d) ++ endl ++
          list_ascii_of_string "Join Thread: " ++
          list_ascii_of_string (if jointhread d then "true" else "false") ++ endl).
  repeat rewrite <- app_assoc. reflexivity.
Qed.

(** X13: the datagrams a consumer reads come in the order in which they were
    queued, none lost and none twice, under every interleaving of loop passes
    and reads: what was read, followed by what is left in the queue, is what
    the queue held at first followed by what the passes appended, at most one
    datagram a pass. *)
Theorem reads_come_in_arrival_order (T : target) (l : list queue_action)
    (n n' : UDPNode) (ds : list rxDatagram) (t : list effect) :
  queue_reads T l n = (Returns ds, n', t) ->
  exists accepted,
    ds ++ _rxqueue n' = _rxqueue n ++ accepted /\
    (length accepted <= passes_in l)%nat.
Proof.
  intros H. destruct (queue_reads_conserves T l _ _ _ _ H) as (accepted & Heq & Hlen & _).
  now exists accepted.
Qed.

Lemma reads_come_in_arrival_order_witness :
  let one := decoded peer 1700000000 (list_ascii_of_string "one") false in
  let two := decoded peer 1700000000 (list_ascii_of_string "two") false in
  let three := decoded peer 1700000000 (list_ascii_of_string "three") false in
  exists accepted,
    [one; two] ++ [three] = [] ++ accepted /\ (length accepted <= 3)%nat.
Proof.
  exact (reads_come_in_arrival_order signed_char_target
           [rx_pass (recv_datagram peer (frame_of signed_char_target "one"));
            consumer_read;
            rx_pass (recv_datagram peer (frame_of signed_char_target "two"));
            rx_pass (recv_datagram peer (frame_of signed_char_target "three"));
            consumer_read]
           small_receiver
           (set_rxqueue [decoded peer 1700000000 (list_ascii_of_string "three") false]
              small_receiver)
           [decoded peer 1700000000 (list_ascii_of_string "one") false;
            decoded peer 1700000000 (list_ascii_of_string "two") false]
           [] eq_refl).
Defined.

(** X14: a consumer reads only what the guard of the loop let through.  When
    every datagram in the queue has a checksum that [isDatagramValid] accepts
    and no join flag (as in the empty queue of a new endpoint), so has every
    datagram read later and every datagram left in the queue; and the last
    line [printDatagram] prints for a datagram that was read is always
    [CRC checksum valid]. *)
Theorem reads_return_deliverable_datagrams (T : target) (l : list queue_action)
    (n n' : UDPNode) (ds : list rxDatagram) (t : list effect) :
  forallb (deliverable T) (_rxqueue n) = true ->
  queue_reads T l n = (Returns ds, n', t) ->
  forallb (deliverable T) ds = true /\
  forallb (deliverable T) (_rxqueue n') = true /\
  forall d,
    In d ds ->
    exists head,
      printDatagram T d
      = head ++ list_ascii_of_string "CRC checksum valid" ++ endl ++ endl.
Proof.
  intros Hq H.
  destruct (queue_reads_conserves T l _ _ _ _ H) as (accepted & Heq & _ & Hacc).
  assert (forallb (deliverable T) (ds ++ _rxqueue n') = true) as Hall
    by (now rewrite Heq, forallb_app, Hq, Hacc).
  rewrite forallb_app in Hall. apply andb_true_iff in Hall. destruct Hall as [Hds Hq'].
  split; [exact Hds|]. split; [exact Hq'|].
  intros d Hd. apply printDatagram_verdict.
  rewrite forallb_forall in Hds. specialize (Hds d Hd).
  unfold deliverable in Hds. apply andb_true_iff in Hds. tauto.
Qed.

Lemma reads_return_deliverable_datagrams_witness :
  forallb (deliverable signed_char_target)
    [decoded peer 1700000000 (list_ascii_of_string "one") false] = true.
Proof.
  exact (proj1 (reads_return_deliverable_datagrams signed_char_target
                  [rx_pass (recv_datagram peer (forged_frame "x" 7));
                   rx_pass (recv_datagram peer (frame_of signed_char_target "one"));
                   rx_pass (recv_datagram peer (sentinel signed_char_target os_ok));
                   consumer_read]
                  small_receiver small_receiver
                  [decoded peer 1700000000 (list_ascii_of_string "one") false]
                  [cerr "rxloop: CRC Checksum invalid. Discarding... "]
                  eq_refl eq_refl)).
Defined.

Lemma to_uint_to_int_le (z : Z) : 0 <= z -> to_uint (to_int z) <= z.
Proof.
  intros Hz. unfold to_uint, to_int. cbv zeta.
  pose proof (Z.mod_pos_bound z (2 ^ 32) ltac:(lia)) as Hu.
  pose proof (Z.mod_le z (2 ^ 32) Hz ltac:(lia)) as Hle.
  destruct (z mod 2 ^ 32 <? 2 ^ 31).
  - rewrite Z.mod_mod by lia. exact Hle.
  - replace ((z mod 2 ^ 32 - 2 ^ 32) mod 2 ^ 32) with (z mod 2 ^ 32); [exact Hle|].
    apply Z.mod_unique with (q := -1); lia.
Qed.

Lemma queue_reads_never_empty (T : target) (l : list queue_action) :
  forall n,
    (reads_in l <= length (_rxqueue n))%nat ->
    result_of (queue_reads T l n) <> Faults (Undefined EmptyQueueFront).
Proof.
  induction l as [|[r|] l IH]; intros n Hn.
  - discriminate.
  - cbn [queue_reads reads_in] in *. unfold bind.
    destruct (rxLoop_body_appends T r SUCCESS n) as (added & Hn1 & _ & _).
    pose proof (rxLoop_body_faults T r SUCCESS n) as Hf.
    destruct (rxLoop_body T r SUCCESS n) as [[[x|f] n1] t1].
    + cbn [node_after fst snd] in Hn1.
      assert (reads_in l <= length (_rxqueue n1))%nat as Hn1'.
      { rewrite Hn1. cbn [_rxqueue set_rxqueue]. rewrite length_app. lia. }
      specialize (IH n1 Hn1').
      destruct (queue_reads T l n1) as [[res n2] t2]. exact IH.
    + cbn [result_of fst]. intros H. injection H as ->.
      destruct (Hf _ eq_refl) as [H|[H|H]]; discriminate.
  - cbn [queue_reads reads_in] in *. unfold bind.
    rewrite readRxDatagramFromQueue_cases.
    destruct (_rxqueue n) as [|d rest] eqn:Hq; [simpl in Hn; lia|].
    assert (reads_in l <= length (_rxqueue (set_rxqueue rest n)))%nat as Hn1
      by (cbn [_rxqueue set_rxqueue]; simpl in Hn; lia).
    specialize (IH _ Hn1).
    destruct (queue_reads T l (set_rxqueue rest n)) as [[[ds|f] n2] t2].
    + discriminate.
    + exact IH.
Qed.

(** X15: the way [examples/UDPreceiver/main.cpp] empties the queue is safe.  A
    consumer that takes the size [rxDataQueueSize] returns, as the
    [unsigned int] the program keeps it in, and then reads at most that many
    times never reads an empty queue, whatever passes the receive loop makes
    in between. *)
Theorem counted_reads_never_meet_an_empty_queue (T : target) (l : list queue_action)
    (n : UDPNode) (size : Z) :
  result_of (rxDataQueueSize n) = Returns size ->
  Z.of_nat (reads_in l) <= to_uint size ->
  result_of (queue_reads T l n) <> Faults (Undefined EmptyQueueFront).
Proof.
  unfold rxDataQueueSize. rewrite bind_get. cbn [ret result_of fst].
  intros H. injection H as <-. intros Hreads.
  apply queue_reads_never_empty.
  pose proof (to_uint_to_int_le (Z.of_nat (length (_rxqueue n))) ltac:(lia)). lia.
Qed.

Lemma counted_reads_never_meet_an_empty_queue_witness :
  let one := decoded peer 1700000000 (list_ascii_of_string "one") false in
  let two := decoded peer 1700000000 (list_ascii_of_string "two") false in
  result_of
    (queue_reads signed_char_target
       [consumer_read;
        rx_pass (recv_datagram peer (frame_of signed_char_target "three"));
        consumer_read]
       (set_rxqueue [one; two] receiver))
  <> Faults (Undefined EmptyQueueFront).
Proof.
  apply (counted_reads_never_meet_an_empty_queue signed_char_target
           [consumer_read;
            rx_pass (recv_datagram peer (frame_of signed_char_target "three"));
            consumer_read]
           (set_rxqueue [decoded peer 1700000000 (list_ascii_of_string "one") false;
                         decoded peer 1700000000 (list_ascii_of_string "two") false]
                        receiver)
           2).
  - reflexivity.
  - vm_compute. discriminate.
Defined.

(** ** The listening socket *)

Lemma set_listensockfd_twice (a b : Z) (n : UDPNode) :
  set_listensockfd a (set_listensockfd b n) = set_listensockfd a n.
Proof. reflexivity. Qed.

Lemma createSocketAndBind_loop_cases (os : syscalls) (ls : listen_calls)
    (candidates : list addrinfo) :
  forall e n,
    createSocketAndBind_loop os ls candidates e n =
    (Returns (find (listens os ls) candidates, code_after os ls candidates e),
     match candidates with
     | [] => n
     | _ :: _ =>
         set_listensockfd
           (match find (listens os ls) candidates with
            | Some p => socket os p
            | None => -1
            end) n
     end,
     bind_attempts os ls candidates).
Proof.
  induction candidates as [|p rest IH]; intros e n; [reflexivity|].
  cbn [createSocketAndBind_loop find code_after bind_attempts].
  rewrite bind_emit, bind_modify. unfold listens, failure_code.
  destruct (Z.eqb_spec (socket os p) (-1)) as [Hfd|Hfd]; cbn [negb andb].
  - rewrite IH. cbn [result_of node_after effects_of fst snd].
    rewrite Hfd. destruct rest; reflexivity.
  - destruct (bind_ ls (socket os p) (ai_addr p) =? -1); cbn [negb].
    + rewrite bind_emit, bind_modify, IH.
      cbn [result_of node_after effects_of fst snd].
      rewrite set_listensockfd_twice. destruct rest; reflexivity.
    + reflexivity.
Qed.

(** What a call of [createSocketAndBind] does, by the results of its system
    calls. *)
Lemma createSocketAndBind_cases (os : syscalls) (ls : listen_calls) (n : UDPNode) :
  createSocketAndBind os ls n =
  match getaddrinfo_passive ls (_listenport n) (_listenipver n) with
  | gai_error rv =>
      (Faults (Undefined IndeterminateValue), n,
       [cerr ("getaddrinfo: " ++ gai_strerror os rv)])
  | gai_ok res =>
      (Returns (code_after os ls res SUCCESS),
       match res with
       | [] => n
       | _ :: _ =>
           set_listensockfd
             (match find (listens os ls) res with
              | Some p => socket os p
              | None => -1
              end) n
       end,
       bind_attempts os ls res ++
       match find (listens os ls) res with
       | Some _ => [sys_freeaddrinfo]
       | None => []
       end)
  end.
Proof.
  unfold createSocketAndBind. rewrite bind_get.
  destruct (getaddrinfo_passive ls (_listenport n) (_listenipver n)) as [rv|res].
  - rewrite bind_assoc, bind_emit, bind_ret. reflexivity.
  - rewrite bind_ret. unfold bind at 1. rewrite createSocketAndBind_loop_cases.
    destruct (find (listens os ls) res) as [p|].
    + rewrite bind_emit. reflexivity.
    + reflexivity.
Qed.

Lemma failure_code_cases (os : syscalls) (p : addrinfo) :
  failure_code os p = SOCKET_CONN_FAILED \/ failure_code os p = BIND_FAILED.
Proof. unfold failure_code. destruct (_ =? _); tauto. Qed.

Lemma code_after_failure (os : syscalls) (ls : listen_calls) (l : list addrinfo) :
  forall e,
    e = SOCKET_CONN_FAILED \/ e = BIND_FAILED ->
    code_after os ls l e = SOCKET_CONN_FAILED \/ code_after os ls l e = BIND_FAILED.
Proof.
  induction l as [|p l IH]; intros e He; [exact He|].
  cbn [code_after]. destruct (listens os ls p); [exact He|].
  apply IH, failure_code_cases.
Qed.

Lemma code_after_SUCCESS (os : syscalls) (ls : listen_calls) (l : list addrinfo) :
  code_after os ls l SUCCESS = SUCCESS <->
  match l with
  | [] => True
  | p :: _ => listens os ls p = true
  end.
Proof.
  destruct l as [|p l]; [tauto|].
  cbn [code_after]. destruct (listens os ls p); [tauto|].
  split; [|discriminate].
  intros H. destruct (code_after_failure os ls l _ (failure_code_cases os p));
    congruence.
Qed.

Lemma bind_attempts_split (os : syscalls) (ls : listen_calls) (l : list addrinfo) :
  match find (listens os ls) l with
  | None => bind_attempts os ls l = flat_map (vain_attempt os) l
  | Some p =>
      exists pre post,
        l = pre ++ p :: post /\
        forallb (fun q => negb (listens os ls q)) pre = true /\
        bind_attempts os ls l
        = flat_map (vain_attempt os) pre ++ [sys_socket p (socket os p)]
  end.
Proof.
  induction l as [|q l IH]; [reflexivity|].
  cbn [find bind_attempts flat_map]. unfold listens at 1.
  change (vain_attempt os q)
    with (sys_socket q (socket os q)
          :: (if socket os q =? -1 then [] else [sys_close (socket os q)])).
  destruct (socket os q =? -1) eqn:Hfd; cbn [negb andb app].
  - destruct (find (listens os ls) l) as [p|].
    + destruct IH as (pre & post & -> & Hpre & ->).
      exists (q :: pre), post. split; [reflexivity|]. split.
      * cbn [forallb]. unfold listens at 1. now rewrite Hfd.
      * cbn [flat_map app].
        change (vain_attempt os q)
          with (sys_socket q (socket os q)
                :: (if socket os q =? -1 then [] else [sys_close (socket os q)])).
        now rewrite Hfd.
    + now rewrite IH.
  - destruct (bind_ ls (socket os q) (ai_addr q) =? -1) eqn:Hb; cbn [negb].
    + destruct (find (listens os ls) l) as [p|].
      * destruct IH as (pre & post & -> & Hpre & ->).
        exists (q :: pre), post. split; [reflexivity|]. split.
        -- cbn [forallb]. unfold listens at 1. rewrite Hb.
           now rewrite andb_false_r.
        -- cbn [flat_map app].
           change (vain_attempt os q)
             with (sys_socket q (socket os q)
                   :: (if socket os q =? -1 then [] else [sys_close (socket os q)])).
           now rewrite Hfd.
      * now rewrite IH.
    + exists [], l. repeat split.
Qed.

(** X16: the result of [createSocketAndBind].  When [getaddrinfo] fails, the
    call logs the reason and then reads the list that was never written: it
    does not return [GETADDRINFO_FAILED].  Otherwise it returns [SUCCESS]
    exactly when the list is empty or its first candidate can be opened and
    bound; when an earlier candidate fails and a later one is bound, the code
    of the failure is returned although [_listensockfd] holds the bound
    socket; and when no candidate can be bound, [_listensockfd] is left at
    -1. *)
Theorem createSocketAndBind_succeeds_on_first_candidate_only (os : syscalls)
    (ls : listen_calls) (n : UDPNode) :
  (forall rv,
     getaddrinfo_passive ls (_listenport n) (_listenipver n) = gai_error rv ->
     createSocketAndBind os ls n
     = (Faults (Undefined IndeterminateValue), n,
        [cerr ("getaddrinfo: " ++ gai_strerror os rv)])) /\
  (forall res,
     getaddrinfo_passive ls (_listenport n) (_listenipver n) = gai_ok res ->
     exists e n' t,
       createSocketAndBind os ls n = (Returns e, n', t) /\
       (e = SUCCESS \/ e = SOCKET_CONN_FAILED \/ e = BIND_FAILED) /\
       (e = SUCCESS <->
        match res with
        | [] => True
        | p :: _ => listens os ls p = true
        end) /\
       match find (listens os ls) res with
       | Some p => _listensockfd n' = socket os p /\ socket os p <> -1
       | None => res = [] /\ n' = n \/ _listensockfd n' = -1
       end).
Proof.
  split.
  - intros rv Hrv. now rewrite createSocketAndBind_cases, Hrv.
  - intros res Hres. rewrite createSocketAndBind_cases, Hres.
    do 3 eexists. split; [reflexivity|]. split; [|split].
    + destruct res as [|p res]; [now left|]. cbn [code_after].
      destruct (listens os ls p); [now left|]. right.
      apply code_after_failure, failure_code_cases.
    + apply code_after_SUCCESS.
    + destruct (find (listens os ls) res) as [p|] eqn:Hfind.
      * destruct res as [|q res]; [discriminate|]. split; [reflexivity|].
        apply find_some in Hfind. destruct Hfind as [_ H].
        unfold listens in H. apply andb_true_iff in H. destruct H as [H _].
        now apply negb_true_iff, Z.eqb_neq in H.
      * destruct res; [left|right]; auto.
Qed.

Lemma createSocketAndBind_succeeds_on_first_candidate_only_witness :
  exists e n' t,
    createSocketAndBind os_local ls_in_use receiver = (Returns e, n', t) /\
    (e = SUCCESS \/ e = SOCKET_CONN_FAILED \/ e = BIND_FAILED) /\
    (e = SUCCESS <-> listens os_local ls_in_use (wildcard 3490) = true) /\
    (False /\ n' = receiver \/ _listensockfd n' = -1).
Proof.
  destruct (proj2 (createSocketAndBind_succeeds_on_first_candidate_only
                     os_local ls_in_use receiver)
              [wildcard 3490; wildcard 3490] eq_refl)
    as (e & n' & t & H1 & H2 & H3 & H4).
  exists e, n', t. split; [exact H1|]. split; [exact H2|]. split; [exact H3|].
  destruct H4 as [[H _]|H]; [discriminate H|now right].
Defined.

(** X17: the descriptors of [createSocketAndBind].  Every candidate tried in
    vain leaves a [socket] call in the trace and, when the socket was opened,
    the [close] of it; the call stops at the first candidate that can be
    bound, and only then frees the list.  When no candidate can be bound the
    list is not freed. *)
Theorem createSocketAndBind_closes_what_it_cannot_bind (os : syscalls)
    (ls : listen_calls) (n n' : UDPNode) (e : err_code) (t : list effect)
    (res : list addrinfo) :
  getaddrinfo_passive ls (_listenport n) (_listenipver n) = gai_ok res ->
  createSocketAndBind os ls n = (Returns e, n', t) ->
  match find (listens os ls) res with
  | None => t = flat_map (vain_attempt os) res
  | Some p =>
      exists pre post,
        res = pre ++ p :: post /\
        forallb (fun q => negb (listens os ls q)) pre = true /\
        t = flat_map (vain_attempt os) pre ++ [sys_socket p (socket os p); sys_freeaddrinfo]
  end.
Proof.
  intros Hres. rewrite createSocketAndBind_cases, Hres.
  intros H. injection H as _ _ <-.
  pose proof (bind_attempts_split os ls res) as Hsplit.
  destruct (find (listens os ls) res) as [p|].
  - destruct Hsplit as (pre & post & Hl & Hpre & ->).
    exists pre, post. split; [exact Hl|]. split; [exact Hpre|].
    now rewrite <- app_assoc.
  - now rewrite Hsplit, app_nil_r.
Qed.

Lemma createSocketAndBind_closes_what_it_cannot_bind_witness :
  [sys_socket (wildcard 3490) 3; sys_close 3; sys_socket (wildcard 3490) 3; sys_close 3]
  = flat_map (vain_attempt os_local) [wildcard 3490; wildcard 3490].
Proof.
  exact (createSocketAndBind_closes_what_it_cannot_bind os_local ls_in_use receiver
           (set_listensockfd (-1) receiver) BIND_FAILED
           [sys_socket (wildcard 3490) 3; sys_close 3;
            sys_socket (wildcard 3490) 3; sys_close 3]
           [wildcard 3490; wildcard 3490] eq_refl eq_refl).
Defined.

(** ** Construction and destruction *)

(** X18: how the constructor ends.  When it returns, the five configuration
    members hold the arguments, the queue is empty, the stop flag is clear,
    there is no receive thread, and the first candidate address was opened and
    bound ([_listensockfd] is its descriptor); [_sendsockfd] is never written
    and keeps what the storage held.  It ends in [exit(1)], after the message
    of the failure on [std::cerr], as soon as the first candidate cannot be
    opened or bound, even when a later one was. *)
Theorem constructor_builds_or_exits (os : syscalls) (ls : listen_calls)
    (lport : Z) (ver : ipFamily) (maxmsgsize maxqsize : Z) (debug : bool)
    (raw n' : UDPNode) (c : construction) (t : list effect) :
  UDPNode_constructor os ls lport ver maxmsgsize maxqsize debug raw
    = (Returns c, n', t) ->
  exists res,
    getaddrinfo_passive ls lport ver = gai_ok res /\
    (_listenport n' = lport /\ _listenipver n' = ver /\
     _maxmessagesize n' = maxmsgsize /\ _maxqueuesize n' = maxqsize /\
     _debug n' = debug) /\
    (_rxqueue n' = [] /\ _stoprecvthread n' = false /\ _rxthread n' = not_joinable) /\
    _sendsockfd n' = _sendsockfd raw /\
    match c with
    | built =>
        match res with
        | [] => _listensockfd n' = _listensockfd raw /\ t = []
        | p :: _ =>
            listens os ls p = true /\ _listensockfd n' = socket os p /\
            t = [sys_socket p (socket os p); sys_freeaddrinfo]
        end
    | exit_ status =>
        status = 1 /\
        exists p rest code pre,
          res = p :: rest /\ listens os ls p = false /\
          (code = SOCKET_CONN_FAILED \/ code = BIND_FAILED) /\
          t = pre ++ [cerr (errorMsg code)]
    end.
Proof.
  unfold UDPNode_constructor. rewrite bind_modify, bind_modify.
  unfold bind at 1. rewrite createSocketAndBind_cases.
  cbn [_listenport _listenipver set_stoprecvthread].
  destruct (getaddrinfo_passive ls lport ver) as [rv|res]; [discriminate|].
  destruct res as [|p rest].
  - cbn [code_after find bind_attempts app is_SUCCESS err_code_value Z.eqb negb ret].
    intros H. injection H as <- <- <-. exists []. cbn. tauto.
  - cbn [code_after find bind_attempts].
    destruct (listens os ls p) eqn:Hp.
    + cbn [is_SUCCESS err_code_value Z.eqb negb ret].
      intros H. injection H as <- <- <-. exists (p :: rest).
      unfold listens in Hp. apply andb_true_iff in Hp. destruct Hp as [Hs Hb].
      apply negb_true_iff in Hs. apply negb_true_iff in Hb. rewrite Hs, Hb.
      cbn. repeat split; try reflexivity.
      unfold listens. now rewrite Hs, Hb.
    + assert (exists code,
                code_after os ls rest (failure_code os p) = code /\
                (code = SOCKET_CONN_FAILED \/ code = BIND_FAILED)) as (code & Hc & Hcode)
        by (eexists; split; [reflexivity|];
            apply code_after_failure, failure_code_cases).
      rewrite Hc.
      assert (negb (is_SUCCESS code) = true) as ->
        by (destruct Hcode as [E|E]; rewrite E; reflexivity).
      rewrite bind_emit. cbn [ret result_of node_after effects_of fst snd].
      intros H. injection H as <- <- <-. exists (p :: rest).
      split; [reflexivity|]. split; [cbn; tauto|]. split; [cbn; tauto|].
      split; [reflexivity|]. split; [reflexivity|].
      eexists p, rest, code, (_ :: _). split; [reflexivity|]. split; [exact Hp|].
      split; [exact Hcode|reflexivity].
Qed.

Lemma constructor_builds_or_exits_witness :
  exists res,
    getaddrinfo_passive ls_ok 3490 ipv6 = gai_ok res /\
    (_listenport receiver = 3490 /\ _listenipver receiver = ipv6 /\
     _maxmessagesize receiver = 1024 /\ _maxqueuesize receiver = 5 /\
     _debug receiver = true) /\
    (_rxqueue receiver = [] /\ _stoprecvthread receiver = false /\
     _rxthread receiver = not_joinable) /\
    _sendsockfd receiver = -1 /\
    match res with
    | [] => _listensockfd receiver = 3 /\ [sys_socket (wildcard 3490) 3; sys_freeaddrinfo] = []
    | p :: _ =>
        listens os_local ls_ok p = true /\ _listensockfd receiver = socket os_local p /\
        [sys_socket (wildcard 3490) 3; sys_freeaddrinfo]
        = [sys_socket p (socket os_local p); sys_freeaddrinfo]
    end.
Proof.
  exact (constructor_builds_or_exits os_local ls_ok 3490 ipv6 1024 5 true
           (set_listensockfd 3 (set_sendsockfd (-1) storage)) receiver built
           [sys_socket (wildcard 3490) 3; sys_freeaddrinfo] eq_refl).
Defined.

(** A call of [tx] that returns does the same on every endpoint. *)
Lemma tx_any_node (T : target) (os : syscalls) (destport : Z) (ver : ipFamily)
    (host m : list ascii) (j : bool) (n n' : UDPNode) (e : err_code) (t : list effect) :
  tx T os destport ver host m j n = (Returns e, n', t) ->
  forall n0, tx T os destport ver host m j n0 = (Returns e, set_sendsockfd (-1) n0, t).
Proof.
  rewrite tx_cases. intros H n0. rewrite tx_cases.
  destruct (getaddrinfo os (c_str host) destport ver) as [rv|res]; [discriminate|].
  destruct (find (socket_opens os) res) as [p|]; [|discriminate].
  now injection H as <- _ <-.
Qed.

Lemma stopped_fixed (n : UDPNode) :
  stopped n -> after_tx (set_sendsockfd (-1) (set_stoprecvthread true n)) = n.
Proof.
  intros (Hs & Ht & Hl & Hf). destruct n. cbn in *. subst.
  reflexivity.
Qed.

Lemma endRxLoop_returns (T : target) (os : syscalls) (n n' : UDPNode) (t : list effect) :
  endRxLoop T os n = (Returns tt, n', t) ->
  stopped n' /\
  exists e t_tx,
    (forall n0,
       tx T os (_listenport n) (_listenipver n) (list_ascii_of_string "localhost")
          (list_ascii_of_string "Goodbye") true n0
       = (Returns e, set_sendsockfd (-1) n0, t_tx)) /\
    _listenport n' = _listenport n /\ _listenipver n' = _listenipver n /\
    t = t_tx ++ after_tx_effects n.
Proof.
  rewrite endRxLoop_cases.
  destruct (tx T os (_listenport n) (_listenipver n) (list_ascii_of_string "localhost")
              (list_ascii_of_string "Goodbye") true (set_stoprecvthread true n))
    as [[[e|f] n1] t1] eqn:Htx; [|discriminate].
  pose proof (tx_any_node _ _ _ _ _ _ _ _ _ _ _ Htx) as Hany.
  rewrite Hany in Htx. injection Htx as <-.
  intros H. injection H as <- <-. split.
  - unfold stopped, after_tx.
    cbn [_rxthread _listensockfd set_sendsockfd set_stoprecvthread].
    destruct (_rxthread n) eqn:Hthr; cbn [is_joinable];
      cbn [_rxthread _listensockfd set_sendsockfd set_stoprecvthread set_rxthread];
      destruct (Z.eqb_spec (_listensockfd n) (-1)) as [E|E]; cbn; auto.
  - exists e, t1. split; [exact Hany|].
    unfold after_tx, after_tx_effects.
    cbn [_rxthread _listensockfd set_sendsockfd set_stoprecvthread].
    destruct (_rxthread n); cbn [is_joinable];
      cbn [_rxthread _listensockfd set_sendsockfd set_stoprecvthread set_rxthread];
      destruct (_listensockfd n =? -1); cbn; auto.
Qed.

Lemma endRxLoop_stopped (T : target) (os : syscalls) (n : UDPNode) (e : err_code)
    (t_tx : list effect) :
  stopped n ->
  (forall n0,
     tx T os (_listenport n) (_listenipver n) (list_ascii_of_string "localhost")
        (list_ascii_of_string "Goodbye") true n0
     = (Returns e, set_sendsockfd (-1) n0, t_tx)) ->
  endRxLoop T os n = (Returns tt, n, t_tx).
Proof.
  intros Hn Htx. rewrite endRxLoop_cases, Htx, (stopped_fixed n Hn).
  destruct Hn as (_ & Ht & Hl & _).
  unfold after_tx_effects.
  cbn [_rxthread _listensockfd set_sendsockfd set_stoprecvthread].
  rewrite Ht, Hl. cbn. now rewrite app_nil_r.
Qed.

Lemma UDPNode_destructor_cases (T : target) (os : syscalls) (n : UDPNode) :
  UDPNode_destructor T os n = endRxLoop T os n.
Proof.
  unfold UDPNode_destructor. unfold bind at 1.
  destruct (endRxLoop T os n) as [[[[]|f] n1] t1] eqn:Hend; [|reflexivity].
  apply endRxLoop_returns in Hend. destruct Hend as ((_ & Ht & Hl & Hf) & _).
  rewrite bind_get, Ht. cbn [is_joinable when].
  rewrite bind_ret, bind_get, Hl, Z.eqb_refl. cbn [negb when].
  rewrite bind_ret, bind_get, Hf, Z.eqb_refl. cbn [negb when].
  rewrite bind_ret, bind_get, Ht.
  cbn [ret]. now rewrite app_nil_r.
Qed.

(** X19: the destructor does what [endRxLoop] does and nothing more.  When
    [endRxLoop] has returned, the thread is joined and both descriptors are
    -1, so that the join and the two [close] calls of the destructor's own
    never run, and no thread is left for which the destruction of the members
    would call [std::terminate]; when [endRxLoop] does not return, neither
    does the destructor. *)
Theorem destructor_is_endRxLoop (T : target) (os : syscalls) (n : UDPNode) :
  UDPNode_destructor T os n = endRxLoop T os n /\
  forall n' t, endRxLoop T os n = (Returns tt, n', t) -> stopped n'.
Proof.
  split; [apply UDPNode_destructor_cases|].
  intros n' t H. now apply endRxLoop_returns in H.
Qed.

(** X20: a second [endRxLoop], or the destructor after [endRxLoop] as at the
    end of [examples/UDPreceiver/main.cpp], leaves the endpoint as the first
    call left it, but sends the sentinel frame once more, through a new
    socket, to the port on which nothing listens any longer. *)
Theorem second_endRxLoop_resends_the_sentinel (T : target) (os : syscalls)
    (n n1 : UDPNode) (t1 : list effect) :
  endRxLoop T os n = (Returns tt, n1, t1) ->
  exists fd pre dest,
    fd <> -1 /\
    endRxLoop T os n1
    = (Returns tt, n1,
       pre ++ [sys_sendto fd (sentinel T os) dest; sys_freeaddrinfo; sys_close fd]) /\
    UDPNode_destructor T os n1 = endRxLoop T os n1.
Proof.
  intros H. apply endRxLoop_returns in H.
  destruct H as (Hstopped & e & t_tx & Htx & Hport & Hver & _).
  destruct (tx_returns_only_two_codes _ _ _ _ _ _ _ _ _ _ _ (Htx n))
    as (_ & _ & fd & pre & dest & Hfd & Ht).
  exists fd, pre, dest. split; [exact Hfd|]. split.
  - rewrite (endRxLoop_stopped T os n1 e t_tx Hstopped).
    + now rewrite Ht.
    + rewrite Hport, Hver. exact Htx.
  - apply UDPNode_destructor_cases.
Qed.

Lemma second_endRxLoop_resends_the_sentinel_witness :
  let stopped_receiver := node_after (endRxLoop signed_char_target os_ok receiver) in
  exists fd pre dest,
    fd <> -1 /\
    endRxLoop signed_char_target os_ok stopped_receiver
    = (Returns tt, stopped_receiver,
       pre ++ [sys_sendto fd (sentinel signed_char_target os_ok) dest;
               sys_freeaddrinfo; sys_close fd]) /\
    UDPNode_destructor signed_char_target os_ok stopped_receiver
    = endRxLoop signed_char_target os_ok stopped_receiver.
Proof.
  exact (second_endRxLoop_resends_the_sentinel signed_char_target os_ok receiver
           (node_after (endRxLoop signed_char_target os_ok receiver))
           (effects_of (endRxLoop signed_char_target os_ok receiver)) eq_refl).
Defined.

(** ** The transmitter program *)

(** A call of [tx] for which the first candidate opens. *)
Lemma tx_through (T : target) (os : syscalls) (destport : Z) (ver : ipFamily)
    (host m : list ascii) (j : bool) (p : addrinfo) (rest : list addrinfo)
    (n : UDPNode) :
  getaddrinfo os (c_str host) destport ver = gai_ok (p :: rest) ->
  socket_opens os p = true ->
  exists e,
    tx T os destport ver host m j n
    = (Returns e, set_sendsockfd (-1) n, tx_trace T os p m j).
Proof.
  intros Hres Hopen. rewrite tx_cases, Hres. cbn [find socket_attempts].
  rewrite Hopen. eexists. reflexivity.
Qed.

Lemma bind_tx_through {B : Type} (T : target) (os : syscalls) (destport : Z)
    (ver : ipFamily) (host m : list ascii) (j : bool) (p : addrinfo)
    (rest : list addrinfo) (k : M B) (n : UDPNode) :
  getaddrinfo os (c_str host) destport ver = gai_ok (p :: rest) ->
  socket_opens os p = true ->
  (tx T os destport ver host m j ;; k) n
  = match k (set_sendsockfd (-1) n) with
    | (r, n2, t2) => (r, n2, tx_trace T os p m j ++ t2)
    end.
Proof.
  intros Hres Hopen.
  destruct (tx_through T os destport ver host m j p rest n Hres Hopen) as [e He].
  unfold bind. now rewrite He.
Qed.

Lemma bind_destructor {B : Type} (T : target) (os : syscalls) (k : M B) (n : UDPNode) :
  (UDPNode_destructor T os ;; k) n = (endRxLoop T os ;; k) n.
Proof. unfold bind. now rewrite UDPNode_destructor_cases. Qed.

(** X21: [examples/UDPtransmitter/main.cpp], on a system where the wildcard
    address can be bound and sockets to [::1] and [localhost] can be opened.
    The program binds port 5590, sends its eight messages to port 3490, each
    through a socket of its own that it closes, and then, from the destructor,
    a ninth datagram: the sentinel frame to its own port.  It closes the
    listening socket last and returns 0, whatever [sendto] returned. *)
Theorem transmitter_main_sends_nine_datagrams (T : target) (os : syscalls)
    (ls : listen_calls) (raw : UDPNode) (lp p q : addrinfo)
    (lrest rest qrest : list addrinfo) :
  getaddrinfo_passive ls 5590 ipv6 = gai_ok (lp :: lrest) ->
  listens os ls lp = true ->
  getaddrinfo os (list_ascii_of_string "::1") 3490 ipv6 = gai_ok (p :: rest) ->
  socket_opens os p = true ->
  getaddrinfo os (list_ascii_of_string "localhost") 5590 ipv6 = gai_ok (q :: qrest) ->
  socket_opens os q = true ->
  exists n',
    transmitter_main T os ls raw
    = (Returns 0, n',
       [sys_socket lp (socket os lp); sys_freeaddrinfo] ++
       flat_map (fun m => tx_trace T os p m false) transmitter_messages ++
       tx_trace T os q (list_ascii_of_string "Goodbye") true ++
       [sys_close (socket os lp)]) /\
    stopped n'.
Proof.
  intros Hlisten Hlp Hres Hp Hhome Hq.
  unfold transmitter_main.
  unfold bind at 1. unfold UDPNode_constructor.
  rewrite bind_modify, bind_modify. unfold bind at 1.
  rewrite createSocketAndBind_cases.
  cbn [_listenport _listenipver set_stoprecvthread].
  rewrite Hlisten. cbn [code_after find bind_attempts]. rewrite Hlp.
  unfold listens in Hlp. apply andb_true_iff in Hlp. destruct Hlp as [Hs Hb].
  apply negb_true_iff in Hs. apply negb_true_iff in Hb. rewrite Hs, Hb.
  cbn [is_SUCCESS err_code_value Z.eqb negb ret app].
  do 8 (rewrite (bind_tx_through T os 3490 ipv6 (list_ascii_of_string "::1") _ false
                   p rest _ _ Hres Hp)).
  rewrite bind_destructor. unfold bind at 1. rewrite endRxLoop_cases.
  cbn [_listenport _listenipver set_sendsockfd set_listensockfd set_stoprecvthread].
  match goal with
  | |- context [tx T os 5590 ipv6 ?h ?m true ?n] =>
      destruct (tx_through T os 5590 ipv6 h m true q qrest n Hhome Hq) as [e He];
      rewrite He
  end.
  unfold after_tx, after_tx_effects.
  cbn [_rxthread _listensockfd set_sendsockfd set_listensockfd set_stoprecvthread
       is_joinable].
  rewrite Hs. cbn [ret app flat_map transmitter_messages].
  eexists. split.
  - repeat rewrite <- app_assoc. cbn [app]. reflexivity.
  - unfold stopped. cbn. auto.
Qed.

Lemma transmitter_main_sends_nine_datagrams_witness :
  result_of (transmitter_main signed_char_target os_local ls_ok storage) = Returns 0 /\
  length (effects_of (transmitter_main signed_char_target os_local ls_ok storage))
  = 39%nat.
Proof.
  destruct (transmitter_main_sends_nine_datagrams signed_char_target os_local ls_ok
              storage (wildcard 5590) (local_port 3490) (local_port 5590) [] [] []
              eq_refl eq_refl eq_refl eq_refl eq_refl eq_refl)
    as (n' & -> & _).
  split; reflexivity.
Defined.

(** ** One start and one stop *)

(** A loop that waits in [recvfrom] with the stop flag set: the next datagram
    gets its pass, and the loop ends. *)
Lemma rxLoop_from_pending_stopped (T : target) (r : recv_event) (rest : list rx_input)
    (e : err_code) (n : UDPNode) :
  _stoprecvthread n = true ->
  rxLoop_from T (arrives r :: rest) true e n
  = (pass <- rxLoop_body T r e ;; rxLoop_epilogue (snd pass)) n.
Proof.
  intros Hstop. rewrite rxLoop_from_cons by (now left).
  unfold bind.
  pose proof (rxLoop_body_keeps_flag T r e n) as Hflag.
  destruct (rxLoop_body T r e n) as [[[[brk e']|f] n1] t1]; [|reflexivity].
  cbn [node_after fst snd] in Hflag. rewrite Hstop in Hflag.
  cbn [snd]. destruct brk; [reflexivity|].
  now rewrite rxLoop_from_stopped.
Qed.

(** On an endpoint without a receive thread the two models of [endRxLoop]
    agree. *)
Lemma endRxLoop_joining_idle (T : target) (os : syscalls) (pending : bool)
    (arrivals : list recv_event) (n : UDPNode) :
  _rxthread n = not_joinable ->
  endRxLoop_joining T os pending arrivals n = (endRxLoop T os ;; ret returned) n.
Proof.
  intros Hidle.
  transitivity
    (match tx T os (_listenport n) (_listenipver n) (list_ascii_of_string "localhost")
             (list_ascii_of_string "Goodbye") true (set_stoprecvthread true n) with
     | (Returns _, n1, t1) => (Returns returned, after_tx n1, t1 ++ after_tx_effects n1)
     | (Faults f, n1, t1) => (Faults f, n1, t1)
     end).
  2:{ unfold bind. rewrite endRxLoop_cases.
      destruct (tx T os _ _ _ _ true _) as [[[e|f] n1] t1]; [|reflexivity].
      cbn [ret]. now rewrite app_nil_r. }
  unfold endRxLoop_joining. rewrite bind_modify, bind_get.
  cbn [_listenport _listenipver set_stoprecvthread].
  unfold bind at 1.
  destruct (tx T os (_listenport n) (_listenipver n) (list_ascii_of_string "localhost")
              (list_ascii_of_string "Goodbye") true (set_stoprecvthread true n))
    as [[[e|f] n1] t1] eqn:Htx; [|reflexivity].
  apply tx_returns_only_two_codes in Htx. destruct Htx as (_ & -> & _).
  rewrite bind_get. cbn [_rxthread set_sendsockfd set_stoprecvthread].
  rewrite Hidle. cbn [is_joinable]. rewrite bind_ret, bind_get.
  unfold after_tx, after_tx_effects.
  cbn [_rxthread _listensockfd set_sendsockfd set_stoprecvthread].
  rewrite Hidle. cbn [is_joinable app].
  change (_listensockfd (set_sendsockfd (-1) (set_stoprecvthread true n)))
    with (_listensockfd n).
  destruct (_listensockfd n =? -1); cbn [negb when].
  - rewrite bind_ret. reflexivity.
  - rewrite bind_assoc, bind_emit, bind_modify. reflexivity.
Qed.

(** X22: one start and one stop, on an endpoint that was not started before,
    whose listening socket is open, and from which a socket to [localhost] at
    its own port can be opened.  [startRxLoop] launches the loop, and
    [endRxLoop] sets the flag and sends the sentinel frame.  When the loop
    waits in [recvfrom] and the sentinel is what arrives next, the loop ends
    without queueing it, [join()] returns, the listening socket is closed and
    the endpoint is left stopped with its queue as it was.  When the loop
    waits and nothing arrives (the sentinel was not sent or was lost),
    [endRxLoop] has not returned: the thread is still there and the listening
    socket still open.  When the loop had not yet reached [recvfrom], it ends
    at its next test of the flag, whatever arrives, and [endRxLoop]
    returns. *)
Theorem start_then_stop_returns_when_the_loop_ends (T : target) (os : syscalls)
    (n : UDPNode) (q : addrinfo) (qrest : list addrinfo) (a : sockaddr_storage)
    (later : list recv_event) :
  _rxthread n = not_joinable ->
  _listensockfd n <> -1 ->
  getaddrinfo os (list_ascii_of_string "localhost") (_listenport n) (_listenipver n)
    = gai_ok (q :: qrest) ->
  socket_opens os q = true ->
  1 <= _maxmessagesize n < 2 ^ 32 ->
  Z.of_nat (length (sentinel T os)) < _maxmessagesize n ->
  Z.of_nat (length (presentation a)) < 32 ->
  (exists n',
     (startRxLoop ;;
      endRxLoop_joining T os true (recv_datagram a (sentinel T os) :: later)) n
     = (Returns returned, n',
        thread_spawn :: tx_trace T os q (list_ascii_of_string "Goodbye") true ++
        (if _maxqueuesize n <=? to_uint (to_int (Z.of_nat (length (_rxqueue n))))
         then [cerr "rxloop: Datagram Receive queue is full. Discarding incoming datagrams..."]
         else []) ++
        [thread_join; sys_close (_listensockfd n)]) /\
     stopped n' /\ _rxqueue n' = _rxqueue n) /\
  (exists n',
     (startRxLoop ;; endRxLoop_joining T os true []) n
     = (Returns waiting, n',
        thread_spawn :: tx_trace T os q (list_ascii_of_string "Goodbye") true) /\
     _rxthread n' = joinable /\ _listensockfd n' = _listensockfd n) /\
  (forall arrivals,
     exists n',
       (startRxLoop ;; endRxLoop_joining T os false arrivals) n
       = (Returns returned, n',
          thread_spawn :: tx_trace T os q (list_ascii_of_string "Goodbye") true ++
          [thread_join; sys_close (_listensockfd n)]) /\
       stopped n' /\ _rxqueue n' = _rxqueue n).
Proof.
  intros Hthread Hfd Hhome Hq Hmax Hlen Haddr.
  assert (forall pending arrivals,
            (startRxLoop ;; endRxLoop_joining T os pending arrivals) n
            = match rxLoop_from T (map arrives arrivals) pending SUCCESS
                      (set_sendsockfd (-1)
                         (set_stoprecvthread true
                            (set_rxthread joinable (set_stoprecvthread false n)))) with
              | (Returns (exited _), n2, t2) =>
                  (Returns returned,
                   set_listensockfd (-1) (set_rxthread not_joinable n2),
                   thread_spawn :: tx_trace T os q (list_ascii_of_string "Goodbye") true ++
                   t2 ++ [thread_join] ++
                   (if _listensockfd n2 =? -1 then [] else [sys_close (_listensockfd n2)]))
              | (Returns blocked, n2, t2) =>
                  (Returns waiting, n2,
                   thread_spawn :: tx_trace T os q (list_ascii_of_string "Goodbye") true ++
                   t2)
              | (Faults f, n2, t2) =>
                  (Faults f, n2,
                   thread_spawn :: tx_trace T os q (list_ascii_of_string "Goodbye") true ++
                   t2)
              end) as Hrun.
  { intros pending arrivals.
    unfold bind at 1. rewrite startRxLoop_cases, Hthread.
    unfold endRxLoop_joining. rewrite bind_modify, bind_get.
    cbn [_listenport _listenipver set_rxthread set_stoprecvthread].
    unfold bind at 1.
    match goal with
    | |- context [tx T os ?port ?ver ?h ?m true ?n0] =>
        destruct (tx_through T os port ver h m true q qrest n0 Hhome Hq) as [e He];
        rewrite He
    end.
    rewrite bind_get.
    cbn [_rxthread set_sendsockfd set_rxthread set_stoprecvthread is_joinable].
    rewrite bind_assoc. unfold bind at 1.
    destruct (rxLoop_from T (map arrives arrivals) pending SUCCESS _)
      as [[[[e'|]|f] n2] t2].
    - unfold bind, emit, modify, ret, get, when. cbn [_listensockfd set_rxthread].
      destruct (Z.eqb_spec (_listensockfd n2) (-1)) as [E|E]; cbn [negb app];
        rewrite ?app_nil_r; [|reflexivity].
      f_equal. f_equal. destruct n2. cbn in *. now subst.
    - unfold bind, ret. cbn [app]. now rewrite app_nil_r.
    - reflexivity. }
  split; [|split].
  - rewrite Hrun. cbn [map].
    rewrite rxLoop_from_pending_stopped by reflexivity.
    unfold bind at 1. unfold sentinel in *.
    rewrite rxLoop_body_frame; try assumption.
    unfold enqueue_guard, pass_log. cbn [jointhread decoded negb andb snd].
    rewrite isDatagramValid_parity by reflexivity.
    assert (high_bytes (msg (decoded a (time_ os) (list_ascii_of_string "Goodbye") true))
            = 0%nat) as -> by reflexivity.
    cbn [Nat.odd Nat.even]. rewrite andb_false_r. cbn [negb app].
    cbn [_maxqueuesize _rxqueue _listensockfd set_sendsockfd set_stoprecvthread
         set_rxthread].
    unfold rxLoop_epilogue. cbn [is_SUCCESS err_code_value Z.eqb negb when].
    rewrite bind_ret. cbn [ret].
    cbn [_listensockfd set_sendsockfd set_stoprecvthread set_rxthread].
    apply Z.eqb_neq in Hfd. rewrite Hfd.
    eexists. split; [|split].
    + rewrite app_nil_r. reflexivity.
    + unfold stopped. cbn. auto.
    + reflexivity.
  - rewrite Hrun. cbn [map rxLoop_from]. rewrite bind_get. cbn [negb andb ret].
    eexists. split; [|split].
    + now rewrite app_nil_r.
    + reflexivity.
    + reflexivity.
  - intros arrivals. rewrite Hrun.
    rewrite rxLoop_from_stopped by reflexivity.
    unfold rxLoop_epilogue. cbn [is_SUCCESS err_code_value Z.eqb negb when].
    rewrite bind_ret. cbn [ret].
    cbn [_listensockfd set_sendsockfd set_stoprecvthread set_rxthread].
    apply Z.eqb_neq in Hfd. rewrite Hfd.
    eexists. split; [|split].
    + reflexivity.
    + unfold stopped. cbn. auto.
    + reflexivity.
Qed.

Lemma start_then_stop_returns_when_the_loop_ends_witness :
  (exists n',
     (startRxLoop ;;
      endRxLoop_joining signed_char_target os_local true
        [recv_datagram peer (sentinel signed_char_target os_local)]) receiver
     = (Returns returned, n',
        thread_spawn ::
        tx_trace signed_char_target os_local (local_port 3490)
          (list_ascii_of_string "Goodbye") true ++
        [thread_join; sys_close 3]) /\
     stopped n' /\ _rxqueue n' = []) /\
  (exists n',
     (startRxLoop ;; endRxLoop_joining signed_char_target os_local true []) receiver
     = (Returns waiting, n',
        thread_spawn ::
        tx_trace signed_char_target os_local (local_port 3490)
          (list_ascii_of_string "Goodbye") true) /\
     _rxthread n' = joinable /\ _listensockfd n' = 3).
Proof.
  destruct (start_then_stop_returns_when_the_loop_ends signed_char_target os_local
              receiver (local_port 3490) [] peer []
              eq_refl ltac:(discriminate) eq_refl eq_refl
              ltac:(simpl; lia) ltac:(vm_compute; reflexivity) ltac:(simpl; lia))
    as (H1 & H2 & _).
  split; [exact H1|exact H2].
Defined.

(** ** Asking before reading *)

(** X23: [rxDataAvailable] tells whether a read is defined.  It returns false
    exactly when [readRxDatagramFromQueue] would read the empty queue; and
    once it has returned true, one read is defined whatever passes the receive
    loop makes before it. *)
Theorem rxDataAvailable_licenses_one_read (T : target) (n : UDPNode) :
  (result_of (rxDataAvailable n) = Returns false <->
   result_of (readRxDatagramFromQueue n) = Faults (Undefined EmptyQueueFront)) /\
  (forall l,
     result_of (rxDataAvailable n) = Returns true ->
     (reads_in l <= 1)%nat ->
     result_of (queue_reads T l n) <> Faults (Undefined EmptyQueueFront)).
Proof.
  unfold rxDataAvailable. rewrite bind_get, readRxDatagramFromQueue_cases.
  destruct (_rxqueue n) as [|d rest] eqn:Hq; cbn [ret result_of fst].
  - split; [tauto|]. intros l H. discriminate.
  - split; [split; discriminate|].
    intros l _ Hl. apply queue_reads_never_empty. rewrite Hq. simpl. lia.
Qed.

Lemma rxDataAvailable_licenses_one_read_witness :
  let one := decoded peer 1700000000 (list_ascii_of_string "one") false in
  result_of
    (queue_reads signed_char_target
       [rx_pass (recv_datagram peer (frame_of signed_char_target "two")); consumer_read]
       (set_rxqueue [one] receiver))
  <> Faults (Undefined EmptyQueueFront).
Proof.
  apply (proj2 (rxDataAvailable_licenses_one_read signed_char_target
                  (set_rxqueue [decoded peer 1700000000 (list_ascii_of_string "one") false]
                               receiver))).
  - reflexivity.
  - simpl. lia.
Defined.

(** ** A burst of frames *)

Lemma to_uint_to_int_small (z : Z) : 0 <= z < 2 ^ 31 -> to_uint (to_int z) = z.
Proof.
  intros Hz. unfold to_uint, to_int. cbv zeta.
  rewrite (Z.mod_small z) by lia.
  destruct (Z.ltb_spec z (2 ^ 31)); [|lia].
  apply Z.mod_small. lia.
Qed.

(** The loop over frames of [tx] that all arrive whole and pass the checksum
    test, from any state of the queue. *)
Lemma rxLoop_from_frames (T : target) (os : syscalls) (a : sockaddr_storage)
    (ms : list (list ascii)) :
  forall n,
    _stoprecvthread n = false ->
    _listensockfd n <> -1 ->
    1 <= _maxmessagesize n < 2 ^ 32 ->
    Z.of_nat (length (presentation a)) < 32 ->
    Z.of_nat (length (_rxqueue n)) <= _maxqueuesize n < 2 ^ 31 ->
    Forall (fun m =>
              negb (char_is_signed T && Nat.odd (high_bytes (c_str m))) = true /\
              Z.of_nat (length (tx_payload T os m false)) < _maxmessagesize n) ms ->
    rxLoop_from T
      (map (fun m => arrives (recv_datagram a (tx_payload T os m false))) ms)
      false SUCCESS n
    = (Returns blocked,
       set_rxqueue
         (_rxqueue n ++
          firstn (Z.to_nat (_maxqueuesize n - Z.of_nat (length (_rxqueue n))))
                 (map (fun m => decoded a (time_ os) m false) ms)) n,
       repeat
         (cerr "rxloop: Datagram Receive queue is full. Discarding incoming datagrams...")
         (length ms - Z.to_nat (_maxqueuesize n - Z.of_nat (length (_rxqueue n))))).
Proof.
  induction ms as [|m ms IH]; intros n Hstop Hfd Hmax Haddr Hq Hms.
  - cbn [map rxLoop_from]. rewrite bind_get, Hstop. cbn [negb andb ret].
    rewrite firstn_nil, app_nil_r, set_rxqueue_same. reflexivity.
  - inversion Hms as [|? ? [Hvalid Hfits] Hms']; subst.
    cbn [map]. rewrite rxLoop_from_cons by (now right).
    unfold bind at 1.
    rewrite rxLoop_body_frame by assumption.
    unfold enqueue_guard, pass_log. rewrite isDatagramValid_decoded, Hvalid.
    cbn [jointhread decoded negb andb app].
    rewrite to_uint_to_int_small by lia.
    destruct (Z.ltb_spec (Z.of_nat (length (_rxqueue n))) (_maxqueuesize n)) as [Hroom|Hfull].
    + destruct (Z.leb_spec (_maxqueuesize n) (Z.of_nat (length (_rxqueue n)))); [lia|].
      cbn [andb].
      rewrite IH; cbn [_stoprecvthread _listensockfd _maxmessagesize _maxqueuesize
                       _rxqueue set_rxqueue]; try assumption.
      2:{ rewrite length_app. cbn [length]. lia. }
      cbn [app]. rewrite length_app. cbn [length].
      replace (Z.to_nat (_maxqueuesize n - Z.of_nat (length (_rxqueue n))))
        with (S (Z.to_nat (_maxqueuesize n - Z.of_nat (length (_rxqueue n) + 1))))
        by lia.
      cbn [firstn length Nat.sub]. rewrite <- app_assoc. reflexivity.
    + destruct (Z.leb_spec (_maxqueuesize n) (Z.of_nat (length (_rxqueue n)))); [|lia].
      cbn [andb].
      rewrite IH by assumption.
      replace (Z.to_nat (_maxqueuesize n - Z.of_nat (length (_rxqueue n)))) with O by lia.
      cbn [firstn length]. rewrite !Nat.sub_0_r. reflexivity.
Qed.

(** X24: a burst of frames that [tx] sent, each arriving whole and passing
    the checksum test, into a receiver whose queue size is below 2^31.  The
    datagrams are queued in the order of their arrival until the queue holds
    [_maxqueuesize]; every later one is dropped with one line on [std::cerr],
    and the loop goes on waiting: the oldest are kept, the newest are lost. *)
Theorem rxLoop_keeps_the_oldest_datagrams (T : target) (os : syscalls)
    (a : sockaddr_storage) (ms : list (list ascii)) (n : UDPNode) :
  _stoprecvthread n = false ->
  _listensockfd n <> -1 ->
  1 <= _maxmessagesize n < 2 ^ 32 ->
  Z.of_nat (length (presentation a)) < 32 ->
  Z.of_nat (length (_rxqueue n)) <= _maxqueuesize n < 2 ^ 31 ->
  Forall (fun m =>
            negb (char_is_signed T && Nat.odd (high_bytes (c_str m))) = true /\
            Z.of_nat (length (tx_payload T os m false)) < _maxmessagesize n) ms ->
  rxLoop T (map (fun m => arrives (recv_datagram a (tx_payload T os m false))) ms) n
  = (Returns blocked,
     set_rxqueue
       (_rxqueue n ++
        firstn (Z.to_nat (_maxqueuesize n - Z.of_nat (length (_rxqueue n))))
               (map (fun m => decoded a (time_ os) m false) ms)) n,
     repeat
       (cerr "rxloop: Datagram Receive queue is full. Discarding incoming datagrams...")
       (length ms - Z.to_nat (_maxqueuesize n - Z.of_nat (length (_rxqueue n))))).
Proof. intros. now apply rxLoop_from_frames. Qed.

Lemma rxLoop_keeps_the_oldest_datagrams_witness :
  rxLoop signed_char_target
    (map (fun m => arrives (recv_datagram peer (tx_payload signed_char_target os_ok m false)))
         transmitter_messages)
    receiver
  = (Returns blocked,
     set_rxqueue
       (map (fun m => decoded peer 1700000000 m false) (firstn 5 transmitter_messages))
       receiver,
     repeat
       (cerr "rxloop: Datagram Receive queue is full. Discarding incoming datagrams...")
       3).
Proof.
  rewrite (rxLoop_keeps_the_oldest_datagrams signed_char_target os_ok peer
             transmitter_messages receiver).
  - reflexivity.
  - reflexivity.
  - discriminate.
  - simpl. lia.
  - simpl. lia.
  - simpl. lia.
  - repeat constructor; vm_compute; reflexivity.
Defined.

(** ** The frame determines the message *)

(** X25: two frames of [serialize] with the same text carry the same message
    (up to its first NUL), the same time stamp and the same join flag:
    escaping and framing lose nothing. *)
Theorem serialize_is_injective (T : target) (now now' : Z) (m m' : list ascii)
    (j j' : bool) :
  GetString (serialize T now m j) = GetString (serialize T now' m' j') ->
  c_str m = c_str m' /\ to_uint64 now = to_uint64 now' /\ j = j'.
Proof.
  intros H. apply (f_equal (Parse T)) in H. rewrite !Parse_serialize in H.
  unfold frame_members in H. injection H as Hnow Hm _ Hj.
  split; [exact Hm|]. split; [exact Hnow|].
  destruct j, j'; try reflexivity; discriminate Hj.
Qed.

Lemma serialize_is_injective_witness :
  c_str ["a"%char; NUL; "b"%char] = c_str ["a"%char; NUL; "c"%char] /\
  to_uint64 1700000000 = to_uint64 1700000000 /\ false = false.
Proof.
  apply (serialize_is_injective signed_char_target 1700000000 1700000000
           ["a"%char; NUL; "b"%char] ["a"%char; NUL; "c"%char] false false).
  vm_compute. reflexivity.
Defined.
